(** * Imagination automation agent: scheduler, monitor, safety gate,
      configuration store and bulk mail tally.

    A shallow embedding of the decision logic of [main.py] and of the
    modules [process_monitor.py], [safety_manager.py],
    [config_manager.py] and [email_automation.py], with the properties
    the specification states about them. *)

From Stdlib Require Import ZArith List String Ascii Bool Lia Arith.
From Stdlib Require Import QArith DecimalString Permutation Sorted.
Import ListNotations.

Open Scope string_scope.
Open Scope list_scope.
Open Scope Z_scope.

(** ** Shared vocabulary *)

(** A naive [datetime] is a point on the local wall clock.  Only
    differences of two [datetime.now()] readings are used, so a reading is
    a count of microseconds from a fixed origin. *)
Abbreviation datetime := Z (only parsing).

Definition us_per_second : Z := 1000000.
Definition us_per_day : Z := 86400 * us_per_second.

(** [datetime.timedelta] keeps a normalised triple: [seconds] lies in
    [0, 86400) and [microseconds] in [0, 1000000); [days] carries the
    sign. *)
Record timedelta := mk_timedelta {
  days : Z;
  seconds : Z;
  microseconds : Z
}.

Definition timedelta_of_us (us : Z) : timedelta :=
  {| days := us / us_per_day;
     seconds := (us mod us_per_day) / us_per_second;
     microseconds := us mod us_per_second |}.

(** [a - b] on two datetimes. *)
Definition datetime_sub (a b : datetime) : timedelta :=
  timedelta_of_us (a - b).

(** The last moment a [datetime] can hold, counted from the first:
    9999-12-31 23:59:59.999999, with 0001-01-01 00:00:00 as 0.  Only the
    subtraction of a span from a reading depends on where the count
    starts. *)
Definition datetime_max : datetime := 3652059 * us_per_day - 1.

(** [timedelta(hours=h)]: the span in microseconds, or [None] for the
    [OverflowError] of a span beyond 999999999 days. *)
Definition timedelta_hours (hours : Z) : option Z :=
  let us := hours * 3600 * us_per_second in
  if Z.abs (us / us_per_day) <=? 999999999 then Some us else None.

(** [t - span]: [None] for the [OverflowError] of a date out of range. *)
Definition datetime_minus (t : datetime) (span : Z) : option datetime :=
  let r := t - span in
  if (0 <=? r) && (r <=? datetime_max) then Some r else None.

(** How a call of a Python callable ends: it returns, or an [Exception]
    escapes from it. *)
Inductive outcome := Returns | Raises.

(** Effects are numbered in program order.  A computation receives the
    number of the next effect and hands back the number after its last
    one. *)
Definition M (A : Type) : Type := nat -> A * nat.

Definition ret {A} (a : A) : M A := fun n => (a, n).

Definition bind {A B} (c : M A) (k : A -> M B) : M B :=
  fun n => let (a, n') := c n in k a n'.

Notation "x <- c ;; k" := (bind c (fun x => k))
  (at level 61, c at next level, right associativity).

(** A callable is known by how each of its calls ends; the call made as
    effect number [n] ends as [f n]. *)
Definition Callable := nat -> outcome.

Definition call (f : Callable) : M outcome := fun n => (f n, S n).

(** ** Python numbers *)
Module PyNum.

(** [a > b] on numbers. *)
Definition gt (a b : Q) : bool := negb (Qle_bool a b).
Definition lt (a b : Q) : bool := negb (Qle_bool b a).

(** *** Floats

    A [float] is a binary64 number.  The readings [psutil] hands over and
    the thresholds are finite floats and are read as the rationals they
    denote, so that comparing them is exact.  Where the code computes a
    number itself, as in [(disk_usage.used / disk_usage.total) * 100], the
    quotient of two [int]s and the product of two [float]s are each the
    double nearest to the exact result, a tie going to the even
    significand.  What such a result can be is a [pyfloat]; no operation
    here yields a NaN. *)
Inductive pyfloat :=
| Finite (q : Q)                 (* any double but -0.0 *)
| NegZero                        (* -0.0 *)
| Infinite (negative : bool).    (* inf, -inf *)

(** The integer nearest to [n / d] for [0 <= n] and [0 < d], the even one
    of the two when [n / d] lies halfway. *)
Definition half_even (n d : Z) : Z :=
  match (2 * (n mod d)) ?= d with
  | Lt => n / d
  | Gt => n / d + 1
  | Eq => if Z.even (n / d) then n / d else n / d + 1
  end.

(** The [e] with [2^e <= n / d < 2^(e+1)], for [0 < n] and [0 < d]. *)
Definition floor_log2_ratio (n d : Z) : Z :=
  let e := Z.log2 n - Z.log2 d in
  if n * 2 ^ Z.max 0 (- e) <? d * 2 ^ Z.max 0 e then e - 1 else e.

(** The double nearest to [n / d], as significand and exponent of the last
    place: 53 bits of significand, and no exponent below that of the
    subnormal numbers. *)
Definition nearest_double (n d : Z) : Z * Z :=
  let u := Z.max (floor_log2_ratio n d - 52) (-1074) in
  (half_even (n * 2 ^ Z.max 0 (- u)) (d * 2 ^ Z.max 0 u), u).

(** Rounding a rational to a double: a magnitude of [2^1024] or more after
    rounding is an infinity, and a negative number that rounds to zero is
    [-0.0]. *)
Definition round_double (q : Q) : pyfloat :=
  let n := Qnum q in
  if (n =? 0)%Z then Finite 0
  else
    let (m, u) := nearest_double (Z.abs n) (Zpos (Qden q)) in
    if (0 <=? u)%Z && (2 ^ 1024 <=? m * 2 ^ u)%Z then Infinite (n <? 0)%Z
    else if (m =? 0)%Z then (if (n <? 0)%Z then NegZero else Finite 0)
    else Finite (Qred (inject_Z (Z.sgn n * m) * 2 ^ u))%Q.

(** [a / b] on two [int]s; [None] when it raises, which it does for a zero
    divisor ([ZeroDivisionError]) and for a quotient too large for a float
    ([OverflowError]). *)
Definition int_truediv (a b : Z) : option pyfloat :=
  if (b =? 0)%Z then None
  else if (a =? 0)%Z then Some (if (b <? 0)%Z then NegZero else Finite 0)
  else
    match round_double (Qmake (a * Z.sgn b) (Z.to_pos (Z.abs b))) with
    | Infinite _ => None
    | x => Some x
    end.

(** [x * 100] on a float: the product never raises, and overflows to an
    infinity. *)
Definition times_100 (x : pyfloat) : pyfloat :=
  match x with
  | Finite q => if Qeq_bool q 0 then Finite 0 else round_double (q * (100#1))%Q
  | NegZero => NegZero
  | Infinite negative => Infinite negative
  end.

(** [a > b] and [a < b] with a computed float on the left. *)
Definition fgt (a : pyfloat) (b : Q) : bool :=
  match a with
  | Finite q => gt q b
  | NegZero => gt 0 b
  | Infinite negative => negb negative
  end.

Definition flt (a : pyfloat) (b : Q) : bool :=
  match a with
  | Finite q => lt q b
  | NegZero => lt 0 b
  | Infinite negative => negative
  end.

End PyNum.

(** ** main.py: the task registry and its scheduler *)
Module Scheduler.

Record AutomationTask := mk_task {
  id : string;
  name : string;
  description : string;
  function : Callable;
  schedule : option string;
  enabled : bool;
  last_run : option datetime;
  next_run : option datetime
}.

Definition set_last_run (task : AutomationTask) (t : datetime) : AutomationTask :=
  {| id := id task; name := name task; description := description task;
     function := function task; schedule := schedule task;
     enabled := enabled task; last_run := Some t; next_run := next_run task |}.

Definition set_enabled (b : bool) (task : AutomationTask) : AutomationTask :=
  {| id := id task; name := name task; description := description task;
     function := function task; schedule := schedule task;
     enabled := b; last_run := last_run task; next_run := next_run task |}.

(** Truth value of an [Optional[str]]: [None] and the empty string are
    false. *)
Definition truthy (s : option string) : bool :=
  match s with
  | Some s => negb (s =? "")%string
  | None => false
  end.

(** Who asked for a call of [execute_task]: the scheduler loop or the
    [run <id>] command of the prompt. *)
Inductive origin := ByScheduler | ByCommand.

(** One call of a task's callback, as an observer would note it down: the
    task, who asked, the clock reading [should_run_task] compared (for the
    scheduler), how the callback ended, and the [last_run] written. *)
Record invocation := mk_invocation {
  inv_task : string;
  inv_origin : origin;
  inv_checked : option datetime;
  inv_outcome : outcome;
  inv_finished : option datetime
}.

(** [Dict[str, AutomationTask]], in insertion order. *)
Definition registry := list (string * AutomationTask).

(** The agent, as far as scheduling goes: [self.tasks] and
    [self.running], with the number of the next effect and the notes of the
    observer so far, oldest first. *)
Record Agent := mk_agent {
  tasks : registry;
  running : bool;
  effects : nat;
  history : list invocation
}.

Section WithClock.

(** [now n] is what [datetime.now()] returns when it is effect number
    [n]. *)
Variable now : nat -> datetime.

Definition datetime_now : M datetime := fun n => (now n, S n).

(** [should_run_task]: the reading is returned along with the verdict. *)
Definition should_run_task (task : AutomationTask) : M (bool * datetime) :=
  now_ <- datetime_now ;;
  match last_run task with
  | Some lr =>
      if seconds (datetime_sub now_ lr) <? 300
      then ret (false, now_)
      else ret (true, now_)
  | None => ret (true, now_)
  end.

(** [execute_task]: the assignment to [last_run] follows the call inside
    the [try]; an exception skips it. *)
Definition execute_task (task : AutomationTask)
  : M (AutomationTask * outcome * option datetime) :=
  r <- call (function task) ;;
  match r with
  | Returns =>
      t <- datetime_now ;;
      ret (set_last_run task t, Returns, Some t)
  | Raises => ret (task, Raises, None)
  end.

(** Body of the [for task in self.tasks.values()] loop of the
    scheduler. *)
Definition scheduler_visit (task : AutomationTask)
  : M (AutomationTask * list invocation) :=
  if enabled task && truthy (schedule task) then
    v <- should_run_task task ;;
    let (go, checked) := v in
    if go then
      e <- execute_task task ;;
      let '(task', r, fin) := e in
      ret (task', [mk_invocation (id task) ByScheduler (Some checked) r fin])
    else ret (task, [])
  else ret (task, []).

(** One pass of the scheduler over the registry. *)
Fixpoint scheduler_scan (ts : registry) : M (registry * list invocation) :=
  match ts with
  | [] => ret ([], [])
  | (k, task) :: rest =>
      v <- scheduler_visit task ;;
      let (task', i1) := v in
      w <- scheduler_scan rest ;;
      let (rest', i2) := w in
      ret ((k, task') :: rest', i1 ++ i2)
  end.

(** [task_id in self.tasks] *)
Definition has_key (k : string) (ts : registry) : bool :=
  existsb (fun kt => (fst kt =? k)%string) ts.

(** [self.tasks[task_id].enabled = b] for a key that is present. *)
Fixpoint assign_enabled (k : string) (b : bool) (ts : registry) : registry :=
  match ts with
  | [] => []
  | (k', task) :: rest =>
      if (k' =? k)%string then (k', set_enabled b task) :: rest
      else (k', task) :: assign_enabled k b rest
  end.

Definition enable_task (k : string) (ts : registry) : registry :=
  if has_key k ts then assign_enabled k true ts else ts.

Definition disable_task (k : string) (ts : registry) : registry :=
  if has_key k ts then assign_enabled k false ts else ts.

(** [run_task_manual]: [execute_task] on the task stored under the key,
    whatever its [enabled] flag and its [last_run]. *)
Fixpoint run_task_manual (k : string) (ts : registry)
  : M (registry * list invocation) :=
  match ts with
  | [] => ret ([], [])
  | (k', task) :: rest =>
      if (k' =? k)%string then
        e <- execute_task task ;;
        let '(task', r, fin) := e in
        ret ((k', task') :: rest, [mk_invocation (id task) ByCommand None r fin])
      else
        w <- run_task_manual k rest ;;
        let (rest', i) := w in
        ret ((k', task) :: rest', i)
  end.

(** [register_task]: [self.tasks[task_id] = task] with a fresh task. *)
Definition new_task (task_id name_ description_ : string) (f : Callable)
    (schedule_ : option string) : AutomationTask :=
  {| id := task_id; name := name_; description := description_;
     function := f; schedule := schedule_; enabled := true;
     last_run := None; next_run := None |}.

Fixpoint dict_assign (k : string) (task : AutomationTask) (ts : registry) : registry :=
  match ts with
  | [] => [(k, task)]
  | (k', old) :: rest =>
      if (k' =? k)%string then (k', task) :: rest
      else (k', old) :: dict_assign k task rest
  end.

Definition register_task (task_id name_ description_ : string) (f : Callable)
    (schedule_ : option string) (ts : registry) : registry :=
  dict_assign task_id (new_task task_id name_ description_ f schedule_) ts.

(** What can happen to a started agent: the scheduler thread wakes up, or
    a line is typed at the prompt ([quit] ends in [stop()]). *)
Inductive event :=
| Tick
| CmdRun (task_id : string)
| CmdEnable (task_id : string)
| CmdDisable (task_id : string)
| CmdQuit.

Definition step (a : Agent) (e : event) : Agent :=
  match e with
  | Tick =>
      if running a then
        let '(ts, invs, n) := scheduler_scan (tasks a) (effects a) in
        mk_agent ts (running a) n (history a ++ invs)
      else a
  | CmdRun k =>
      let '(ts, invs, n) := run_task_manual k (tasks a) (effects a) in
      mk_agent ts (running a) n (history a ++ invs)
  | CmdEnable k =>
      mk_agent (enable_task k (tasks a)) (running a) (effects a) (history a)
  | CmdDisable k =>
      mk_agent (disable_task k (tasks a)) (running a) (effects a) (history a)
  | CmdQuit =>
      mk_agent (tasks a) false (effects a) (history a)   (* stop() *)
  end.

Definition run_events (a : Agent) (es : list event) : Agent :=
  fold_left step es a.

(** A registration request, as [register_task] receives it. *)
Record registration := mk_registration {
  reg_id : string;
  reg_name : string;
  reg_description : string;
  reg_function : Callable;
  reg_schedule : option string
}.

Definition register (ts : registry) (r : registration) : registry :=
  register_task (reg_id r) (reg_name r) (reg_description r)
                (reg_function r) (reg_schedule r) ts.

(** The agent after [__init__] and [start()]: the registry holds what was
    registered, the loops run, nothing has been called yet. *)
Definition started (regs : list registration) : Agent :=
  mk_agent (fold_left register regs []) true 0 [].

(** States a started agent can be in. *)
Inductive reachable : Agent -> Prop :=
| reach_start regs : reachable (started regs)
| reach_step a e : reachable a -> reachable (step a e).

End WithClock.

(** The task a registry item stands for in the notes of an observer. *)
Definition task_id (kt : string * AutomationTask) : string := id (snd kt).

(** What the scheduler decides on, at the reading [now_]: the flag, a
    non-empty schedule string, and the cooldown since [last_run]. *)
Definition eligible (task : AutomationTask) (now_ : datetime) : bool :=
  enabled task && truthy (schedule task) &&
  match last_run task with
  | None => true
  | Some lr => 300 * us_per_second <=? now_ - lr
  end.

(** The invocations one pass of the scheduler makes from state [a]. *)
Definition invoked_by_tick (now : nat -> datetime) (a : Agent) : list invocation :=
  snd (fst (scheduler_scan now (tasks a) (effects a))).

(** A clock that never steps back. *)
Definition monotone (now : nat -> datetime) : Prop :=
  forall n m, (n <= m)%nat -> now n <= now m.

(** [cooled a b], for an earlier note [a] and a later note [b] of the same
    task: when [a] ran to its end and [b] is the scheduler's doing, the
    reading the scheduler compared for [b] is at least 300 seconds past
    the end of [a]. *)
Definition cooled (a b : invocation) : Prop :=
  inv_task a = inv_task b ->
  inv_origin b = ByScheduler ->
  forall f, inv_finished a = Some f ->
  exists c, inv_checked b = Some c /\ f + 300 * us_per_second <= c.

Definition cooldown_respected (h : list invocation) : Prop :=
  ForallOrdPairs cooled h.

(** The verdict of [should_run_task] at effect [n]. *)
Definition verdict (now : nat -> datetime) (task : AutomationTask) (n : nat) : bool :=
  match last_run task with
  | None => true
  | Some lr => negb (seconds (datetime_sub (now n) lr) <? 300)
  end.

(** What [register_task] guarantees of a registry: distinct keys, every
    task under its own id, and no task run yet. *)
Definition registered (ts : registry) : Prop :=
  NoDup (map fst ts)
  /\ Forall (fun kt => id (snd kt) = fst kt /\ last_run (snd kt) = None) ts.

(** What the cooldown depends on: each task's id and [last_run]. *)
Definition summary (ts : registry) : list (string * option datetime) :=
  map (fun kt => (id (snd kt), last_run (snd kt))) ts.

(** The bookkeeping that ties the notes of an observer to the registry,
    when the next effect is number [n]: ids are distinct; no [last_run] lies
    ahead of the clock; every finished call is covered by the [last_run] of
    its task; and the notes so far respect the cooldown. *)
Definition consistent (now : nat -> datetime) (n : nat)
    (sm : list (string * option datetime)) (h : list invocation) : Prop :=
  NoDup (map fst sm)
  /\ (forall i r, In (i, Some r) sm -> forall m, (n <= m)%nat -> r <= now m)
  /\ (forall inv f, In inv h -> inv_finished inv = Some f ->
        exists r, In (inv_task inv, Some r) sm /\ f <= r)
  /\ cooldown_respected h.

(** *** Sample data *)

(** A wall clock read once a minute. *)
Definition minute_clock (n : nat) : datetime :=
  Z.of_nat n * (60 * us_per_second).

(** A clock stuck at one reading. *)
Definition stopped_clock (t : datetime) (n : nat) : datetime := t.

Definition sound : Callable := fun _ => Returns.
Definition broken : Callable := fun _ => Raises.

Definition health_check : registration :=
  mk_registration "system_health_check" "System Health Check"
    "Monitor system resources and alert if issues detected" sound
    (Some "*/5 * * * *").

Definition flaky_report : registration :=
  mk_registration "daily_email_summary" "Daily Email Summary"
    "Send daily summary email to team" broken (Some "0 8 * * *").

Definition unscheduled : registration :=
  mk_registration "backup" "Backup" "Copy the documents" sound None.

(** A task as [register_task] builds it, with a [last_run] put in. *)
Definition task_of (r : registration) (lr : option datetime) : AutomationTask :=
  {| id := reg_id r; name := reg_name r; description := reg_description r;
     function := reg_function r; schedule := reg_schedule r; enabled := true;
     last_run := lr; next_run := None |}.

(** *** Words for the registry *)

(** [self.tasks[k]], when the key is there. *)
Fixpoint task_at (k : string) (ts : registry) : option AutomationTask :=
  match ts with
  | [] => None
  | (k', task) :: rest => if (k' =? k)%string then Some task else task_at k rest
  end.

(** A registry as a dict filled by [register_task] is: each key once,
    each task under its own id. *)
Definition keyed (ts : registry) : Prop :=
  NoDup (map fst ts) /\ Forall (fun kt => id (snd kt) = fst kt) ts.

(** What a pass of the scheduler may do to an item: leave it, or, when
    the callback returned from a call, write the reading taken next into
    [last_run]. *)
Definition touched (now : nat -> datetime)
    (before after : string * AutomationTask) : Prop :=
  fst after = fst before
  /\ (snd after = snd before
      \/ exists i, function (snd before) i = Returns
                   /\ snd after = set_last_run (snd before) (now (S i))).

(** Every [last_run] of the registry is a reading taken before effect
    [n]. *)
Definition read_before (now : nat -> datetime) (n : nat) (ts : registry) : Prop :=
  Forall (fun kt => forall r, last_run (snd kt) = Some r ->
                      exists i, (i < n)%nat /\ r = now i) ts.

(** The task under key [k], if there is one, is disabled. *)
Definition off (k : string) (ts : registry) : Prop :=
  forall task, task_at k ts = Some task -> enabled task = false.

(** How many calls the scheduler made for the task [i], by the notes. *)
Definition scheduler_calls (i : string) (h : list invocation) : nat :=
  List.length
    (filter (fun inv => (inv_task inv =? i)%string
                        && match inv_origin inv with
                           | ByScheduler => true
                           | ByCommand => false
                           end) h).

(** *** The routines of [main.py] that read the machine *)

(** The names bound at the top level of [main.py]: its imports, its two
    classes and [main]. *)
Definition module_globals : list string :=
  ["os"; "sys"; "json"; "time"; "logging"; "subprocess"; "threading";
   "datetime"; "timedelta"; "Dict"; "List"; "Any"; "Optional"; "Callable";
   "dataclass"; "Path";
   "SystemCommandExecutor"; "FileManager"; "ProcessMonitor";
   "NetworkAutomation"; "EmailAutomation"; "WhatsAppAutomation";
   "TelegramAutomation"; "SocialMediaAutomation"; "AIChatbot";
   "VoiceCommandProcessor"; "ConfigManager"; "SafetyManager";
   "AutomationTask"; "UltimateAIAutomationAgent"; "main"].

(** *** The routines that read the machine

    [system_health_check], [send_daily_summary] and the loop of
    [start_background_monitoring] ask [psutil] for the state of the
    machine. *)

Inductive level := INFO | WARNING | ERROR.

(** What a routine leaves behind: the lines it logs, the mails it hands
    to [send_email], each as recipients and subject, and the seconds it
    sleeps. *)
Record Trace := mk_trace {
  logged : list (level * string);
  mailed : list (string * string);
  slept : list Z
}.

(** A statement runs on the trace so far, and ends with a value or with
    an exception, which is known by its text. *)
Definition Run (A : Type) : Type := Trace -> (string + A) * Trace.

Definition done {A} (a : A) : Run A := fun t => (inr a, t).

Definition throw {A} (e : string) : Run A := fun t => (inl e, t).

Definition and_then {A B} (c : Run A) (k : A -> Run B) : Run B :=
  fun t =>
    match c t with
    | (inl e, t') => (inl e, t')
    | (inr a, t') => k a t'
    end.

Notation "x <~ c ;; k" := (and_then c (fun x => k))
  (at level 61, c at next level, right associativity).

(** [try: body / except Exception as e: handler] *)
Definition try_except {A} (body : Run A) (handler : string -> Run A) : Run A :=
  fun t =>
    match body t with
    | (inl e, t') => handler e t'
    | (inr a, t') => (inr a, t')
    end.

Definition answer {A} (a : string + A) : Run A :=
  match a with
  | inl e => throw e
  | inr v => done v
  end.

Definition log (l : level) (text : string) : Run unit :=
  fun t => (inr tt, mk_trace (logged t ++ [(l, text)]) (mailed t) (slept t)).

(** [self.email_automation.send_email(...)]: it catches what goes wrong
    inside it and answers with a truth value. *)
Definition send_email (to subject : string) : Run unit :=
  fun t => (inr tt, mk_trace (logged t) (mailed t ++ [(to, subject)]) (slept t)).

Definition run (c : Run unit) : Trace := snd (c (mk_trace [] [] [])).

(** What the machine answers when [psutil] asks it; [inl e] is a call
    that raises an exception of text [e]. *)
Record Host := mk_host {
  host_cpu : string + Q;                 (* cpu_percent() *)
  host_memory : string + Q;              (* virtual_memory(): .percent *)
  host_disk : string + (Q * Z);          (* disk_usage('/'): .percent, .free *)
  host_temps : string + list (string * list Q)   (* sensors_temperatures() *)
}.

(** What [send_daily_summary] reads of the configuration. *)
Record Settings := mk_settings {
  email_enabled : string + bool;     (* config.get('email', {}).get('enabled', False) *)
  email_recipients : string + string (* config['email']['recipients'] *)
}.

(** How numbers and the summary are rendered into text. *)
Record Render := mk_render {
  show_num : Q -> string;                  (* {x} *)
  show_2f : PyNum.pyfloat -> string;       (* {x:.2f} *)
  summary_text : Q -> Q -> Q -> string     (* the body of the summary *)
}.

Definition degree_sign : string := String (ascii_of_nat 176) EmptyString.

Section WithGlobals.

(** The names bound at the top level of the module when the routine
    runs. *)
Variable bound : list string.

Variable render : Render.

(** Evaluating a global name: the value is there, or [NameError] is
    raised with this text. *)
Definition global_name (x : string) : Run unit :=
  if existsb (String.eqb x) bound then done tt
  else throw ("name '" ++ x ++ "' is not defined")%string.

(** [psutil.f(...)]: the name is looked up, then the call is made. *)
Definition psutil {A} (a : string + A) : Run A :=
  _ <~ global_name "psutil" ;; answer a.

(** [time.sleep(seconds)] *)
Definition time_sleep (s : Z) : Run unit :=
  _ <~ global_name "time" ;;
  fun t => (inr tt, mk_trace (logged t) (mailed t) (slept t ++ [s])).

(** [a / b] on two [int]s. *)
Definition truediv (a b : Z) : Run PyNum.pyfloat :=
  match PyNum.int_truediv a b with
  | Some x => done x
  | None =>
      throw (if b =? 0 then "division by zero"
             else "integer division result too large for a float")
  end.

(** [system_health_check]: the two loops over the sensors. *)
Fixpoint health_entries (sensor : string) (entries : list Q) : Run unit :=
  match entries with
  | [] => done tt
  | current :: rest =>
      _ <~ (if PyNum.gt current (80#1) then
              log WARNING ("High temperature detected: " ++ sensor ++ " = "
                             ++ show_num render current ++ degree_sign ++ "C")%string
            else done tt) ;;
      health_entries sensor rest
  end.

Fixpoint health_sensors (temps : list (string * list Q)) : Run unit :=
  match temps with
  | [] => done tt
  | (sensor, entries) :: rest =>
      _ <~ health_entries sensor entries ;; health_sensors rest
  end.

Definition system_health_check (h : Host) : Run unit :=
  try_except
    (_ <~ try_except
            (temps <~ psutil (host_temps h) ;; health_sensors temps)
            (fun _ => done tt) ;;
     disk_usage <~ psutil (host_disk h) ;;
     free_gb <~ truediv (snd disk_usage) (1024 ^ 3) ;;
     _ <~ (if PyNum.flt free_gb (5#1) then
             log WARNING ("Low disk space: " ++ show_2f render free_gb
                            ++ " GB remaining")%string
           else done tt) ;;
     memory <~ psutil (host_memory h) ;;
     if PyNum.gt memory (90#1) then
       log WARNING ("Critical memory usage: " ++ show_num render memory ++ "%")%string
     else done tt)
    (fun e => log ERROR ("Error in system health check: " ++ e)%string).

Definition send_daily_summary (h : Host) (s : Settings) : Run unit :=
  try_except
    (cpu_percent <~ psutil (host_cpu h) ;;
     memory_percent <~ psutil (host_memory h) ;;
     disk_usage <~ psutil (host_disk h) ;;
     _ <~ global_name "datetime" ;;
     let summary := summary_text render cpu_percent memory_percent
                                 (fst disk_usage) in
     enabled_ <~ answer (email_enabled s) ;;
     if enabled_ then
       to <~ answer (email_recipients s) ;;
       _ <~ send_email to "Daily System Summary" ;;
       log INFO "Daily summary email sent"
     else done tt)
    (fun e => log ERROR ("Error sending daily summary: " ++ e)%string).

(** One turn of the loop [monitor] of [start_background_monitoring]. *)
Definition monitor_turn (h : Host) : Run unit :=
  try_except
    (cpu_percent <~ psutil (host_cpu h) ;;
     memory_percent <~ psutil (host_memory h) ;;
     disk_usage <~ psutil (host_disk h) ;;
     _ <~ (if PyNum.gt cpu_percent (80#1) then
             log WARNING ("High CPU usage: " ++ show_num render cpu_percent ++ "%")%string
           else done tt) ;;
     _ <~ (if PyNum.gt memory_percent (85#1) then
             log WARNING ("High memory usage: " ++ show_num render memory_percent
                            ++ "%")%string
           else done tt) ;;
     _ <~ (if PyNum.gt (fst disk_usage) (90#1) then
             log WARNING ("High disk usage: " ++ show_num render (fst disk_usage)
                            ++ "%")%string
           else done tt) ;;
     time_sleep 30)
    (fun e =>
       _ <~ log ERROR ("Error in background monitoring: " ++ e)%string ;;
       time_sleep 60).

End WithGlobals.

(** *** Sample data *)

Definition plain_render : Render :=
  mk_render (fun _ => "?") (fun _ => "?") (fun _ _ _ => "summary").

(** A machine with a busy processor and a disk that is nearly full: 3 GB
    free. *)
Definition full_disk : Host :=
  mk_host (inr (97#1)) (inr (40#1)) (inr (98#1, 3 * 1024 ^ 3)) (inl "no sensors").

Definition mail_on : Settings := mk_settings (inr true) (inr "ops@example.com").

End Scheduler.

(** ** modules/process_monitor.py: threshold alerts *)
Module ProcessMonitor.

Export PyNum.

Record SystemAlert := mk_alert {
  timestamp : datetime;
  alert_type : string;
  message : string;
  severity : string;
  value : pyfloat;
  threshold : Q
}.

(** [self.thresholds], one entry per metric. *)
Record Thresholds := mk_thresholds {
  cpu_percent : Q;
  memory_percent : Q;
  disk_percent : Q;
  temperature : Q;
  process_count : Q
}.

Definition default_thresholds : Thresholds :=
  mk_thresholds (80#1) (85#1) (90#1) (80#1) (1000#1).

Record Monitor := mk_monitor {
  alerts : list SystemAlert;
  thresholds : Thresholds;
  alert_callbacks : list Callable;
  clock_reads : nat
}.

(** What [psutil] hands to one call of [check_system_health].  [None] is a
    call that raises.  The disk usage comes as two byte counts. *)
Record Readings := mk_readings {
  cpu : option Q;                            (* cpu_percent(interval=1) *)
  memory : option Q;                         (* virtual_memory().percent *)
  disk : option (Z * Z);                     (* disk_usage('/'): used, total *)
  temps : option (list (string * list Q));   (* sensors_temperatures() *)
  pids : option Z                            (* len(pids()) *)
}.

(** [(used / total) * 100]; [None] when the division raises. *)
Definition usage_percent (used total : Z) : option pyfloat :=
  match int_truediv used total with
  | Some ratio => Some (times_100 ratio)
  | None => None
  end.

(** The degree sign, code point 176. *)
Definition degree : string := String (ascii_of_nat 176) EmptyString.

(** Truth value of a number: zero is false. *)
Definition nonzero (a : Q) : bool := negb (Qeq_bool a 0).

(** The Python runtime services the monitor leans on: the clock and the
    rendering of numbers inside f-strings. *)
Record Runtime := mk_runtime {
  now : nat -> datetime;
  format_1f : pyfloat -> string;   (* {x:.1f} *)
  format_num : Q -> string      (* {x} *)
}.

Section WithRuntime.

Variable rt : Runtime.

(** A step of the monitor either completes or raises; what it did to the
    monitor before raising stays done. *)
Definition Step := Monitor -> bool * Monitor.

Definition seq (a b : Step) : Step :=
  fun m => let (ok, m') := a m in if ok then b m' else (false, m').

Definition skip : Step := fun m => (true, m).
Definition raise : Step := fun m => (false, m).

(** [try: body / except: pass] *)
Definition swallow (a : Step) : Step := fun m => (true, snd (a m)).

(** Calling the alert callbacks: each call is an effect, and an exception
    from a callback is logged and dropped. *)
Fixpoint run_callbacks (cbs : list Callable) (n : nat) : nat :=
  match cbs with
  | [] => n
  | cb :: rest => run_callbacks rest (snd (call cb n))
  end.

Definition create_alert (alert_type_ message_ severity_ : string)
    (value_ : pyfloat) (threshold_ : Q) : Step :=
  fun m =>
    let alert := mk_alert (now rt (clock_reads m)) alert_type_ message_
                          severity_ value_ threshold_ in
    (true,
     mk_monitor (alerts m ++ [alert]) (thresholds m) (alert_callbacks m)
                (run_callbacks (alert_callbacks m) (S (clock_reads m)))).

Definition grade (x limit : Q) : string :=
  if lt x limit then "high" else "critical".

Definition check_cpu (r : Readings) : Step :=
  fun m =>
    match cpu r with
    | None => raise m
    | Some cpu_percent_ =>
        if gt cpu_percent_ (cpu_percent (thresholds m)) then
          create_alert "cpu_high"
            ("High CPU usage: " ++ format_1f rt (Finite cpu_percent_) ++ "%")%string
            (grade cpu_percent_ (95#1)) (Finite cpu_percent_)
            (cpu_percent (thresholds m)) m
        else skip m
    end.

Definition check_memory (r : Readings) : Step :=
  fun m =>
    match memory r with
    | None => raise m
    | Some percent =>
        if gt percent (memory_percent (thresholds m)) then
          create_alert "memory_high"
            ("High memory usage: " ++ format_1f rt (Finite percent) ++ "%")%string
            (grade percent (95#1)) (Finite percent)
            (memory_percent (thresholds m)) m
        else skip m
    end.

Definition check_disk (r : Readings) : Step :=
  fun m =>
    match disk r with
    | None => raise m
    | Some (used, total) =>
        match usage_percent used total with
        | None => raise m   (* ZeroDivisionError, OverflowError *)
        | Some disk_percent_ =>
            if fgt disk_percent_ (disk_percent (thresholds m)) then
              create_alert "disk_high"
                ("High disk usage: " ++ format_1f rt disk_percent_ ++ "%")%string
                (if flt disk_percent_ (95#1) then "high" else "critical")
                disk_percent_ (disk_percent (thresholds m)) m
            else skip m
        end
    end.

(** The inner [for entry in entries] loop for one sensor. *)
Fixpoint check_entries (sensor : string) (entries : list Q) : Step :=
  match entries with
  | [] => skip
  | current :: rest =>
      seq (fun m =>
             if nonzero current && gt current (temperature (thresholds m)) then
               create_alert "temperature_high"
                 ("High temperature: " ++ sensor ++ " = "
                    ++ format_num rt current ++ degree ++ "C")%string
                 (grade current (90#1)) (Finite current)
                 (temperature (thresholds m)) m
             else skip m)
          (check_entries sensor rest)
  end.

Fixpoint check_sensors (ts : list (string * list Q)) : Step :=
  match ts with
  | [] => skip
  | (sensor, entries) :: rest =>
      seq (check_entries sensor entries) (check_sensors rest)
  end.

Definition check_temperature (r : Readings) : Step :=
  swallow (fun m =>
             match temps r with
             | None => raise m
             | Some ts => check_sensors ts m
             end).

Definition check_process_count (r : Readings) : Step :=
  fun m =>
    match pids r with
    | None => raise m
    | Some n =>
        let process_count_ := inject_Z n in
        if gt process_count_ (process_count (thresholds m)) then
          create_alert "process_count_high"
            ("High process count: " ++ format_num rt process_count_)%string
            "medium" (Finite process_count_)
            (process_count (thresholds m)) m
        else skip m
    end.

(** [check_system_health]: the five checks in order inside one [try]; the
    handler logs and returns. *)
Definition check_system_health (r : Readings) (m : Monitor) : Monitor :=
  snd (seq (check_cpu r)
        (seq (check_memory r)
          (seq (check_disk r)
            (seq (check_temperature r)
                 (check_process_count r)))) m).

(** The alerts a poll tick added: what follows the alerts that were there
    before. *)
Definition appended (r : Readings) (m : Monitor) : list SystemAlert :=
  skipn (List.length (alerts m)) (alerts (check_system_health r m)).

End WithRuntime.

(** The metrics that have a threshold, and the alert type of each. *)
Inductive metric := Cpu | Memory | Disk | Temperature | ProcessCount.

Definition alert_type_of (x : metric) : string :=
  match x with
  | Cpu => "cpu_high"
  | Memory => "memory_high"
  | Disk => "disk_high"
  | Temperature => "temperature_high"
  | ProcessCount => "process_count_high"
  end.

(** Sensor entries the temperature check alerts on. *)
Definition hot (limit : Q) (current : Q) : bool :=
  nonzero current && gt current limit.

Definition hot_entries (limit : Q) (ts : list (string * list Q)) : list Q :=
  filter (hot limit) (List.concat (map snd ts)).

(** The disk usage the tick computes from its sample, when it gets that
    far. *)
Definition disk_usage_percent (r : Readings) : option pyfloat :=
  match disk r with
  | Some (used, total) => usage_percent used total
  | None => None
  end.

(** [breaches x r th]: the value sampled for metric [x] is above its
    threshold. *)
Definition breaches (x : metric) (r : Readings) (th : Thresholds) : bool :=
  match x with
  | Cpu => match cpu r with Some v => gt v (cpu_percent th) | None => false end
  | Memory => match memory r with Some v => gt v (memory_percent th) | None => false end
  | Disk => match disk_usage_percent r with
            | Some v => fgt v (disk_percent th)
            | None => false
            end
  | Temperature => match temps r with
                   | Some ts => existsb (fun c => gt c (temperature th)) (List.concat (map snd ts))
                   | None => false
                   end
  | ProcessCount => match pids r with Some n => gt (inject_Z n) (process_count th) | None => false end
  end.

Definition count_type (ty : string) (l : list SystemAlert) : nat :=
  List.length (filter (fun a => (alert_type a =? ty)%string) l).

(** The alert types a tick is due to add, in the order of the checks: one
    per breached metric, and for the temperature one per hot entry. *)
Definition one_if (b : bool) (ty : string) : list string :=
  if b then [ty] else [].

Definition hot_count (r : Readings) (th : Thresholds) : nat :=
  match temps r with
  | Some ts => List.length (hot_entries (temperature th) ts)
  | None => 0
  end.

Definition due_types (r : Readings) (th : Thresholds) : list string :=
  one_if (breaches Cpu r th) "cpu_high"
  ++ one_if (breaches Memory r th) "memory_high"
  ++ one_if (breaches Disk r th) "disk_high"
  ++ repeat "temperature_high" (hot_count r th)
  ++ one_if (breaches ProcessCount r th) "process_count_high".

Definition count_name (ty : string) (l : list string) : nat :=
  List.length (filter (fun x => (x =? ty)%string) l).

(** [adds a m ok tys]: from [m], step [a] ends as [ok] says, leaves the
    earlier alerts in place and appends alerts of the types [tys]; the
    thresholds and callbacks stay. *)
Definition adds (a : Monitor -> bool * Monitor) (m : Monitor) (ok : bool)
    (tys : list string) : Prop :=
  exists l,
    fst (a m) = ok
    /\ alerts (snd (a m)) = alerts m ++ l
    /\ map alert_type l = tys
    /\ thresholds (snd (a m)) = thresholds m
    /\ alert_callbacks (snd (a m)) = alert_callbacks m.

(** *** Sample data *)

Definition plain_runtime : Runtime :=
  mk_runtime (fun n => Z.of_nat n) (fun _ => "?") (fun _ => "?").

Definition fresh_monitor : Monitor := mk_monitor [] default_thresholds [] 0.

(** A quiet machine but for two hot cores. *)
Definition two_hot_cores : Readings :=
  mk_readings (Some (12#1)) (Some (40#1)) (Some (50, 100))
              (Some [("coretemp", [85#1; 95#1])]) (Some 250).

(** A machine with a busy processor and nothing else of note. *)
Definition busy_cpu : Readings :=
  mk_readings (Some (97#1)) (Some (40#1)) (Some (50, 100)) None (Some 250).

(** *** Thresholds and the list of alerts *)

(** [set_threshold]: only the five metrics of [self.thresholds] can be
    set. *)
Definition set_threshold (metric : string) (value_ : Q) (m : Monitor) : Monitor :=
  let th := thresholds m in
  let th' :=
    if (metric =? "cpu_percent")%string then
      mk_thresholds value_ (memory_percent th) (disk_percent th)
                    (temperature th) (process_count th)
    else if (metric =? "memory_percent")%string then
      mk_thresholds (cpu_percent th) value_ (disk_percent th)
                    (temperature th) (process_count th)
    else if (metric =? "disk_percent")%string then
      mk_thresholds (cpu_percent th) (memory_percent th) value_
                    (temperature th) (process_count th)
    else if (metric =? "temperature")%string then
      mk_thresholds (cpu_percent th) (memory_percent th) (disk_percent th)
                    value_ (process_count th)
    else if (metric =? "process_count")%string then
      mk_thresholds (cpu_percent th) (memory_percent th) (disk_percent th)
                    (temperature th) value_
    else th in
  mk_monitor (alerts m) th' (alert_callbacks m) (clock_reads m).

Definition metric_names : list string :=
  ["cpu_percent"; "memory_percent"; "disk_percent"; "temperature";
   "process_count"].

Definition clear_alerts (m : Monitor) : Monitor :=
  mk_monitor [] (thresholds m) (alert_callbacks m) (clock_reads m).

(** [sorted(..., key=lambda x: x.timestamp, reverse=True)]: a stable sort,
    newest first; alerts with one timestamp keep their order. *)
Fixpoint place (a : SystemAlert) (l : list SystemAlert) : list SystemAlert :=
  match l with
  | [] => [a]
  | b :: rest =>
      if timestamp a <? timestamp b then b :: place a rest else a :: l
  end.

Definition newest_first (l : list SystemAlert) : list SystemAlert :=
  fold_right place [] l.

(** The filter [get_alerts] applies for a severity: none when the
    argument is [None] or empty. *)
Definition of_severity (severity_ : option string) (a : SystemAlert) : bool :=
  match severity_ with
  | Some s => if (s =? "")%string then true else (severity a =? s)%string
  | None => true
  end.

(** [get_alerts(severity, hours)] at the clock reading [now_]; [None]
    when the cut-off cannot be computed and the [OverflowError] escapes, for
    nothing catches it here. *)
Definition get_alerts (now_ : datetime) (severity_ : option string) (hours : Z)
    (m : Monitor) : option (list SystemAlert) :=
  match timedelta_hours hours with
  | None => None
  | Some span =>
      match datetime_minus now_ span with
      | None => None
      | Some cutoff_time =>
          let filtered_alerts :=
            filter (fun alert => cutoff_time <=? timestamp alert) (alerts m) in
          Some (newest_first (filter (of_severity severity_) filtered_alerts))
      end
  end.

(** The alert types a tick adds whatever the samples: the checks run in
    order, and the first sample that cannot be taken (or a disk usage that
    cannot be computed) ends the tick; the sensors alone may be missing. *)
Definition due_until_failure (r : Readings) (th : Thresholds) : list string :=
  match cpu r with
  | None => []
  | Some _ =>
      one_if (breaches Cpu r th) "cpu_high"
      ++ match memory r with
         | None => []
         | Some _ =>
             one_if (breaches Memory r th) "memory_high"
             ++ match disk_usage_percent r with
                | None => []
                | Some _ =>
                    one_if (breaches Disk r th) "disk_high"
                    ++ repeat "temperature_high" (hot_count r th)
                    ++ match pids r with
                       | None => []
                       | Some _ =>
                           one_if (breaches ProcessCount r th)
                                  "process_count_high"
                       end
                end
         end
  end.

(** Alerts ordered newest first. *)
Definition newer (a b : SystemAlert) : Prop := timestamp b <= timestamp a.

(** Three alerts raised one, two and three days into the calendar. *)
Definition three_alerts : Monitor :=
  mk_monitor
    [mk_alert (1 * us_per_day) "cpu_high" "High CPU usage: ?%" "high"
              (Finite (90#1)) (80#1);
     mk_alert (2 * us_per_day) "disk_high" "High disk usage: ?%" "critical"
              (Finite (97#1)) (90#1);
     mk_alert (3 * us_per_day) "cpu_high" "High CPU usage: ?%" "high"
              (Finite (85#1)) (80#1)]
    default_thresholds [] 0.

(** A machine on which everything is high but the memory cannot be
    read. *)
Definition memory_unreadable : Readings :=
  mk_readings (Some (97#1)) None (Some (99, 100))
              (Some [("coretemp", [95#1])]) (Some 5000).

(** Every sample of the tick was obtained and the disk usage could be
    computed (the sensors may be missing). *)
Definition sampled (r : Readings) : Prop :=
  cpu r <> None /\ memory r <> None /\ pids r <> None /\
  disk_usage_percent r <> None.

End ProcessMonitor.

(** ** Python strings

    A [str] is read as a string of code points below 256. *)
Module PyStr.

(** [c.lower()] for one code point below 256: the letters A-Z and the
    Latin-1 capitals other than the multiplication sign move up by 32. *)
Definition lower_char (c : ascii) : ascii :=
  let n := nat_of_ascii c in
  if ((65 <=? n) && (n <=? 90)
      || (192 <=? n) && (n <=? 214)
      || (216 <=? n) && (n <=? 222))%nat
  then ascii_of_nat (n + 32)
  else c.

(** [s.lower()] *)
Fixpoint lower (s : string) : string :=
  match s with
  | EmptyString => EmptyString
  | String c rest => String (lower_char c) (lower rest)
  end.

(** [needle in hay] *)
Fixpoint contains (needle hay : string) : bool :=
  if String.prefix needle hay then true
  else match hay with
       | EmptyString => false
       | String _ rest => contains needle rest
       end.

(** [s.split('.')] *)
Fixpoint split_dot (s : string) : list string :=
  match s with
  | EmptyString => [EmptyString]
  | String c rest =>
      if Ascii.eqb c "."%char then EmptyString :: split_dot rest
      else match split_dot rest with
           | part :: parts => String c part :: parts
           | [] => [String c EmptyString]
           end
  end.

(** [l[-k:]] for a positive [k]. *)
Definition last_n {A} (k : nat) (l : list A) : list A :=
  skipn (List.length l - k) l.

End PyStr.

(** ** modules/safety_manager.py: the command gate and the action log *)
Module SafetyManager.

Import PyStr.

Record SafetyConfig := mk_config {
  confirm_dangerous_actions : bool;
  max_file_size : Z;
  allowed_file_types : list string;
  blocked_commands : list string;
  max_execution_time : Z;
  quarantine_directory : string;
  log_all_actions : bool
}.

Definition default_config : SafetyConfig :=
  {| confirm_dangerous_actions := true;
     max_file_size := 100 * 1024 * 1024;
     allowed_file_types :=
       [".txt"; ".pdf"; ".doc"; ".docx"; ".jpg"; ".png"; ".gif"; ".mp4"; ".mp3"];
     blocked_commands :=
       ["rm -rf /"; "format"; "del /s /q C:\"; "shutdown"; "reboot"];
     max_execution_time := 3600;
     quarantine_directory := "./quarantine";
     log_all_actions := true |}.

(** The dict [is_safe_command] returns. *)
Record SafetyResult := mk_result {
  safe : bool;
  warnings : list string;
  blocked : bool;
  reason : string
}.

(** The [for blocked_cmd in ...] loop: the first entry found in the
    command sets the verdict and breaks. *)
Fixpoint check_blocked (entries : list string) (command_lower : string)
    (res : SafetyResult) : SafetyResult :=
  match entries with
  | [] => res
  | blocked_cmd :: rest =>
      if contains (lower blocked_cmd) command_lower then
        mk_result false (warnings res) true
          ("Command contains blocked pattern: " ++ blocked_cmd)%string
      else check_blocked rest command_lower res
  end.

Definition dangerous_patterns : list string :=
  ["rm -rf"; "del /s"; "format"; "fdisk"; "dd if=";
   "shutdown"; "reboot"; "halt"; "poweroff";
   "taskkill /f"; "kill -9"; "killall"].

Fixpoint check_dangerous (patterns : list string) (command_lower : string)
    (res : SafetyResult) : SafetyResult :=
  match patterns with
  | [] => res
  | pattern :: rest =>
      let res' :=
        if contains pattern command_lower then
          let warned :=
            mk_result (safe res)
              (warnings res ++
                 [("Command contains dangerous pattern: " ++ pattern)%string])
              (blocked res) (reason res) in
          if negb (blocked warned)
          then mk_result false (warnings warned) (blocked warned) (reason warned)
          else warned
        else res in
      check_dangerous rest command_lower res'
  end.

Definition add_warning (w : string) (res : SafetyResult) : SafetyResult :=
  mk_result (safe res) (warnings res ++ [w]) (blocked res) (reason res).

Definition is_safe_command (cfg : SafetyConfig) (command : string) : SafetyResult :=
  let safety_result := mk_result true [] false "" in
  let command_lower := lower command in
  let r1 := check_blocked (blocked_commands cfg) command_lower safety_result in
  let r2 := check_dangerous dangerous_patterns command_lower r1 in
  let r3 :=
    if existsb (fun op => contains op command_lower) ["rm "; "del "; "rmdir "; "rd "]
    then add_warning "Command performs file deletion" r2 else r2 in
  let r4 :=
    if existsb (fun op => contains op command_lower) ["chmod "; "chown "; "attrib "]
    then add_warning "Command modifies file permissions" r3 else r3 in
  r4.

(** [command] holds [entry] when case is set aside: some stretch of the
    command, lower-cased, is the lower-cased entry. *)
Definition holds_ignoring_case (command entry : string) : Prop :=
  exists before after : string,
    lower command = (before ++ lower entry ++ after)%string.

(** One entry of [action_log]. *)
Record ActionEntry := mk_entry {
  timestamp : datetime;
  action_type : string;
  description : string;
  details : list (string * string)
}.

Record Manager := mk_manager {
  safety_config : SafetyConfig;
  action_log : list ActionEntry;
  clock_reads : nat
}.

Definition set_log (log : list ActionEntry) (m : Manager) : Manager :=
  mk_manager (safety_config m) log (clock_reads m).

Section WithClock.

Variable now : nat -> datetime.

(** [_log_action] *)
Definition _log_action (action_type_ description_ : string)
    (details_ : option (list (string * string))) (m : Manager) : Manager :=
  if negb (log_all_actions (safety_config m)) then m
  else
    let action_entry :=
      mk_entry (now (clock_reads m)) action_type_ description_
               (match details_ with Some d => d | None => [] end) in
    let log := action_log m ++ [action_entry] in
    let log' := if (1000 <? List.length log)%nat then last_n 1000 log else log in
    mk_manager (safety_config m) log' (S (clock_reads m)).

(** [confirm_dangerous_action]: [interactive] is what [os.isatty(0)]
    answers, [answers] what each confirmation callback returns ([None] when
    it returns [None] or raises). *)
Fixpoint first_answer (answers : list (option bool)) : option bool :=
  match answers with
  | [] => None
  | Some b :: _ => Some b
  | None :: rest => first_answer rest
  end.

Definition confirm_dangerous_action (action_description : string) (force : bool)
    (interactive : bool) (answers : list (option bool)) (m : Manager)
  : bool * Manager :=
  if negb (confirm_dangerous_actions (safety_config m)) || force then (true, m)
  else
    let m' := _log_action "CONFIRMATION_REQUEST" action_description None m in
    if negb interactive then (false, m')
    else match first_answer answers with
         | Some b => (b, m')
         | None => (false, m')
         end.

(** [quarantine_file]: [found] is what [source_path.exists()] answers,
    [moved] whether the rename goes through.  The clock is read for the
    name of the quarantined file before the rename is tried. *)
Definition quarantine_file (file_path reason_ : string) (found moved : bool)
    (m : Manager) : bool * Manager :=
  if negb found then (false, m)
  else
    let stamped :=
      mk_manager (safety_config m) (action_log m) (S (clock_reads m)) in
    if moved then
      (true,
       _log_action "QUARANTINE"
         ("Moved " ++ file_path ++ " to quarantine: " ++ reason_)%string None
         stamped)
    else (false, stamped).

Definition clear_action_log (m : Manager) : Manager := set_log [] m.

Definition update_safety_config (cfg : SafetyConfig) (m : Manager) : Manager :=
  mk_manager cfg (action_log m) (clock_reads m).

(** The public operations that touch the manager's state. *)
Inductive operation :=
| OpConfirm (action_description : string) (force interactive : bool)
            (answers : list (option bool))
| OpQuarantine (file_path reason_ : string) (found moved : bool)
| OpClear
| OpUpdate (cfg : SafetyConfig).

Definition apply (m : Manager) (op : operation) : Manager :=
  match op with
  | OpConfirm d f i a => snd (confirm_dangerous_action d f i a m)
  | OpQuarantine p r found moved => snd (quarantine_file p r found moved m)
  | OpClear => clear_action_log m
  | OpUpdate cfg => update_safety_config cfg m
  end.

(** [SafetyManager()] *)
Definition fresh : Manager := mk_manager default_config [] 0.

Inductive reachable : Manager -> Prop :=
| reach_fresh : reachable fresh
| reach_apply m op : reachable m -> reachable (apply m op).

(** What [_log_action] is to record: the log with the new entry at its
    end when logging is on, the log as it is otherwise. *)
Definition to_record (action_type_ description_ : string)
    (details_ : option (list (string * string))) (m : Manager)
  : list ActionEntry :=
  if log_all_actions (safety_config m) then
    action_log m ++
      [mk_entry (now (clock_reads m)) action_type_ description_
                (match details_ with Some d => d | None => [] end)]
  else action_log m.

End WithClock.

(** *** Sample data *)

Definition tick_clock (n : nat) : datetime := Z.of_nat n.

(** *** The file checks *)

(** [str(n)] for an integer. *)
Definition str_of_int (n : Z) : string := NilZero.string_of_int (Z.to_int n).

(** What [pathlib] and the file system tell about a path: the size when
    the path exists and is a regular file, [path.suffix], and
    [str(path)]. *)
Record FileProbe := mk_probe {
  file_size : option Z;
  suffix : string;
  path_str : string
}.

Definition system_dirs : list string :=
  ["/system"; "/windows"; "/program files"; "/usr"; "/bin"; "/sbin"].

(** [x in xs] for strings. *)
Definition among (x : string) (xs : list string) : bool :=
  existsb (String.eqb x) xs.

Definition set_unsafe (why : string) (res : SafetyResult) : SafetyResult :=
  mk_result false (warnings res) (blocked res) why.

(** The answer of both checks when their body raises. *)
Definition check_failed : SafetyResult :=
  mk_result false [] true "Error in safety check".

(** [is_safe_file_operation]; [probe] is [None] when a call on the path
    raises. *)
Definition is_safe_file_operation (cfg : SafetyConfig)
    (probe : option FileProbe) (operation : string) : SafetyResult :=
  match probe with
  | None => check_failed
  | Some p =>
      let r0 := mk_result true [] false "" in
      let r1 :=
        match file_size p with
        | Some size =>
            if max_file_size cfg <? size then
              let w := add_warning
                         ("File size exceeds limit: " ++ str_of_int size
                            ++ " bytes")%string r0 in
              if among operation ["copy"; "move"; "upload"]
              then set_unsafe "File too large for operation" w else w
            else r0
        | None => r0
        end in
      let r2 :=
        if negb (suffix p =? "")%string
           && negb (among (lower (suffix p)) (allowed_file_types cfg)) then
          let w := add_warning
                     ("File type not in allowed list: " ++ suffix p)%string r1 in
          if among operation ["copy"; "move"; "upload"]
          then set_unsafe "File type not allowed" w else w
        else r1 in
      let r3 :=
        if existsb (fun sys_dir => contains sys_dir (lower (path_str p)))
                   system_dirs then
          let w := add_warning "Operation on system directory" r2 in
          if among operation ["delete"; "modify"]
          then set_unsafe "Cannot modify system directories" w else w
        else r2 in
      r3
  end.

(** The two findings [is_safe_file_operation] holds against a transfer,
    and the one it holds against a change. *)
Definition oversized (cfg : SafetyConfig) (p : FileProbe) : bool :=
  match file_size p with
  | Some size => max_file_size cfg <? size
  | None => false
  end.

Definition odd_type (cfg : SafetyConfig) (p : FileProbe) : bool :=
  negb (suffix p =? "")%string
  && negb (among (lower (suffix p)) (allowed_file_types cfg)).

Definition in_system_dir (p : FileProbe) : bool :=
  existsb (fun sys_dir => contains sys_dir (lower (path_str p))) system_dirs.

(** What [scan_file] is given: whether the path exists, the message of
    the exception when [path.stat()] raises, the size and modification time
    otherwise, the suffix and name, what reading the first 1024 characters
    gives (the text, or the message of the exception), and what
    [_calculate_file_hash] answers (the digest, or the empty string when it
    fails). *)
Record ScanInput := mk_scan_input {
  sc_exists : bool;
  sc_stat_error : option string;
  sc_size : Z;
  sc_mtime : datetime;
  sc_suffix : string;
  sc_name : string;
  sc_read : string + string;
  sc_hash : string
}.

Record FileInfo := mk_file_info {
  fi_size : Z;
  fi_modified : datetime;
  fi_extension : string;
  fi_name : string;
  fi_hash : string
}.

(** The dict [scan_file] returns; [file_info] is [None] for the empty
    dict. *)
Record ScanResult := mk_scan {
  scan_safe : bool;
  threats : list string;
  file_info : option FileInfo;
  scan_time : datetime
}.

Definition text_suffixes : list string :=
  [".txt"; ".log"; ".py"; ".js"; ".html"; ".xml"].

Definition suspicious_patterns : list string :=
  ["eval("; "exec("; "system("; "shell_exec(";
   "rm -rf"; "del /s"; "format";
   "<script>"; "javascript:";
   "powershell"; "cmd.exe"].

(** The loop over the suspicious patterns: the verdict and the threats
    after it. *)
Fixpoint scan_patterns (patterns : list string) (content : string)
    (acc : bool * list string) : bool * list string :=
  match patterns with
  | [] => acc
  | pattern :: rest =>
      scan_patterns rest content
        (if contains (lower pattern) (lower content)
         then (false,
               snd acc ++ [("Suspicious content detected: " ++ pattern)%string])
         else acc)
  end.

(** [scan_file], with [now_] the clock reading at its start and [later]
    the one taken by its exception handler. *)
Definition scan_file (cfg : SafetyConfig) (now_ later : datetime) (i : ScanInput)
  : ScanResult :=
  if negb (sc_exists i) then mk_scan false ["File not found"] None now_
  else
  match sc_stat_error i with
  | Some e => mk_scan false [("Scan error: " ++ e)%string] None later
  | None =>
    let a0 : bool * list string := (true, []) in
    let a1 :=
      if max_file_size cfg <? sc_size i
      then (false, snd a0 ++ ["File size exceeds safety limit"])
      else a0 in
    let a2 :=
      if negb (sc_suffix i =? "")%string
         && negb (among (lower (sc_suffix i)) (allowed_file_types cfg))
      then (false,
            snd a1 ++ [("File type not allowed: " ++ sc_suffix i)%string])
      else a1 in
    let a3 :=
      if among (lower (sc_suffix i)) text_suffixes then
        match sc_read i with
        | inl content => scan_patterns suspicious_patterns content a2
        | inr e =>
            (fst a2, snd a2 ++ [("Error reading file content: " ++ e)%string])
        end
      else a2 in
    mk_scan (fst a3) (snd a3)
      (Some (mk_file_info (sc_size i) (sc_mtime i) (sc_suffix i) (sc_name i)
                          (sc_hash i)))
      now_
  end.

(** *** Reading the action log *)

(** [get_action_log(hours)], at the clock reading [now_]; an exception
    is answered with the empty list. *)
Definition get_action_log (now_ : datetime) (hours : Z) (m : Manager)
  : list ActionEntry :=
  match timedelta_hours hours with
  | None => []
  | Some span =>
      match datetime_minus now_ span with
      | None => []
      | Some cutoff_time =>
          filter (fun action => cutoff_time <=? timestamp action) (action_log m)
      end
  end.

(** *** Words for the verdict on a command *)

(** The first configured entry the command holds, case set aside. *)
Definition first_hit (cfg : SafetyConfig) (command : string) : option string :=
  find (fun e => contains (lower e) (lower command)) (blocked_commands cfg).

(** The command, lower-cased, holds one of the dangerous patterns. *)
Definition dangerous (command : string) : bool :=
  existsb (fun p => contains p (lower command)) dangerous_patterns.

(** *** Sample data *)

Definition big_movie : FileProbe :=
  mk_probe (Some (200 * 1024 * 1024)) ".mp4" "/home/ann/holiday.mp4".

Definition sample_script : ScanInput :=
  mk_scan_input true None 120 0 ".py" "tool.py"
    (inl "import os; os.System('ls'); EVAL(code)") "9e107d9d".

End SafetyManager.

(** ** modules/config_manager.py: dotted-path access *)
Module ConfigManager.

Import PyStr.

Set Warnings "-register-all".

(** The values a configuration document is made of.  A dict keeps its
    items in insertion order, under distinct keys. *)
Inductive value :=
| VNone
| VBool (b : bool)
| VInt (n : Z)
| VFloat (q : Q)
| VStr (s : string)
| VList (items : list value)
| VDict (items : list (string * value)).

Fixpoint lookup (k : string) (d : list (string * value)) : option value :=
  match d with
  | [] => None
  | (k', v) :: rest => if (k' =? k)%string then Some v else lookup k rest
  end.

(** [d[k] = v] on a dict: an existing key keeps its place. *)
Fixpoint assign (k : string) (v : value) (d : list (string * value))
  : list (string * value) :=
  match d with
  | [] => [(k, v)]
  | (k', old) :: rest =>
      if (k' =? k)%string then (k', v) :: rest
      else (k', old) :: assign k v rest
  end.

Definition is_str (k : string) (v : value) : bool :=
  match v with
  | VStr s => (s =? k)%string
  | _ => false
  end.

(** [k in container] for a string [k]; [None] is a [TypeError]. *)
Definition py_contains (container : value) (k : string) : option bool :=
  match container with
  | VDict d => Some (match lookup k d with Some _ => true | None => false end)
  | VStr s => Some (contains k s)
  | VList l => Some (existsb (is_str k) l)
  | VNone | VBool _ | VInt _ | VFloat _ => None
  end.

(** [container[k]] for a string [k]; [None] is a [KeyError] or a
    [TypeError]. *)
Definition py_getitem (container : value) (k : string) : option value :=
  match container with
  | VDict d => lookup k d
  | _ => None
  end.

(** [container[k] = v] for a string [k]; [None] is a [TypeError]. *)
Definition py_setitem (container : value) (k : string) (v : value) : option value :=
  match container with
  | VDict d => Some (VDict (assign k v d))
  | _ => None
  end.

(** The loop of [get]. *)
Fixpoint get_loop (keys : list string) (value_ default : value) : value :=
  match keys with
  | [] => value_
  | k :: rest =>
      match value_ with
      | VDict d =>
          match lookup k d with
          | Some v => get_loop rest v default
          | None => default
          end
      | _ => default
      end
  end.

(** [get(key, default)] on the document [config]. *)
Definition get (config : value) (key : string) (default : value) : value :=
  get_loop (split_dot key) config default.

(** [set]: the walk along [keys[:-1]] and the final assignment.  The
    walk holds a reference into the document, so what is assigned below
    shows in the document: the rebuilt child is put back where it was
    read.  The result tells whether an exception was raised, and gives the
    document as the walk left it. *)
Fixpoint set_walk (parents : list string) (last_key : string) (v : value)
    (config : value) : bool * value :=
  match parents with
  | [] =>
      match py_setitem config last_key v with
      | Some config' => (true, config')
      | None => (false, config)
      end
  | k :: rest =>
      match py_contains config k with
      | None => (false, config)
      | Some present =>
          match (if present then Some config
                 else py_setitem config k (VDict [])) with
          | None => (false, config)
          | Some config1 =>
              match py_getitem config1 k with
              | None => (false, config1)
              | Some child =>
                  let (ok, child') := set_walk rest last_key v child in
                  match py_setitem config1 k child' with
                  | Some config2 => (ok, config2)
                  | None => (ok, config1)
                  end
              end
          end
      end
  end.

(** [set(key, value)]: the returned flag and the document afterwards. *)
Definition set (config : value) (key : string) (v : value) : bool * value :=
  let keys := split_dot key in
  set_walk (removelast keys) (last keys EmptyString) v config.

(** *** Sample data *)

Definition sample_config : value :=
  VDict [("agent", VDict [("name", VStr "Ultimate AI Agent")]);
         ("email", VDict [("enabled", VBool false)])].

(** *** The other operations on the document *)

(** [del d[k]] on a dict that holds [k]. *)
Fixpoint remove_key (k : string) (d : list (string * value))
  : list (string * value) :=
  match d with
  | [] => []
  | (k', v) :: rest =>
      if (k' =? k)%string then rest else (k', v) :: remove_key k rest
  end.

(** [delete]: the walk along [keys[:-1]] and the removal.  Every test is
    guarded by [isinstance(config, dict)], so nothing raises.  As in
    [set_walk], what is removed below shows in the document. *)
Fixpoint delete_walk (parents : list string) (last_key : string)
    (config : value) : bool * value :=
  match parents with
  | [] =>
      match config with
      | VDict d =>
          match lookup last_key d with
          | Some _ => (true, VDict (remove_key last_key d))
          | None => (false, config)
          end
      | _ => (false, config)
      end
  | k :: rest =>
      match config with
      | VDict d =>
          match lookup k d with
          | Some child =>
              let (ok, child') := delete_walk rest last_key child in
              (ok, VDict (assign k child' d))
          | None => (false, config)
          end
      | _ => (false, config)
      end
  end.

(** [delete(key)]: the returned flag and the document afterwards. *)
Definition delete (config : value) (key : string) : bool * value :=
  let keys := split_dot key in
  delete_walk (removelast keys) (last keys EmptyString) config.

(** [update(updates)]: [set] for each item in turn, the flag of each
    [set] dropped; the answer is [True]. *)
Definition update (config : value) (updates : list (string * value))
  : bool * value :=
  (true, fold_left (fun c kv => snd (set c (fst kv) (snd kv))) updates config).

(** Where a list of keys leads in a document, if it leads anywhere. *)
Fixpoint resolve (keys : list string) (v : value) : option value :=
  match keys with
  | [] => Some v
  | k :: rest =>
      match v with
      | VDict d =>
          match lookup k d with
          | Some child => resolve rest child
          | None => None
          end
      | _ => None
      end
  end.

(** A document whose dicts hold each key once, at every depth. *)
Fixpoint well_keyed (v : value) : Prop :=
  match v with
  | VDict d =>
      NoDup (map fst d)
      /\ (fix each (l : list (string * value)) : Prop :=
            match l with
            | [] => True
            | (_, x) :: r => well_keyed x /\ each r
            end) d
  | VList l =>
      (fix each (l : list value) : Prop :=
         match l with
         | [] => True
         | x :: r => well_keyed x /\ each r
         end) l
  | _ => True
  end.

(** Two key lists that part ways: after a common start, one goes on with
    [a] and the other with a different [b]. *)
Definition part_ways (l1 l2 : list string) : Prop :=
  exists common a b r1 r2,
    a <> b /\ l1 = common ++ a :: r1 /\ l2 = common ++ b :: r2.

End ConfigManager.

(** ** modules/email_automation.py: bulk sending *)
Module EmailAutomation.

(** The names bound at the top level of [email_automation.py]: its
    imports and its class. *)
Definition module_globals : list string :=
  ["smtplib"; "logging"; "json"; "schedule"; "threading";
   "MIMEText"; "MIMEMultipart"; "MIMEBase"; "encoders";
   "Dict"; "List"; "Any"; "Optional"; "Callable";
   "datetime"; "timedelta"; "yagmail"; "imaplib"; "email";
   "decode_header"; "EmailAutomation"].

(** Evaluating a global name: a name that is not bound raises
    [NameError]. *)
Definition global_name (x : string) : outcome :=
  if existsb (String.eqb x) module_globals then Returns else Raises.

(** [time.sleep(delay)] *)
Definition time_sleep (delay : Z) : outcome := global_name "time".

Record BulkResult := mk_bulk {
  success : list string;
  failed : list string;
  total : nat
}.

Definition add_success (r : string) (res : BulkResult) : BulkResult :=
  mk_bulk (success res ++ [r]) (failed res) (total res).

Definition add_failed (r : string) (res : BulkResult) : BulkResult :=
  mk_bulk (success res) (failed res ++ [r]) (total res).

Section WithMailer.

(** [send_email recipient n]: what [self.send_email(recipient, ...)]
    returns when it is effect number [n].  It catches every exception of
    its own and answers [False]. *)
Variable send_email : string -> nat -> bool.

(** Body of the [for recipient in recipients] loop, with its [try]. *)
Definition send_one (recipient : string) (delay : Z) (results : BulkResult)
  : M BulkResult :=
  fun n =>
    let ok := send_email recipient n in
    let results1 :=
      if ok then add_success recipient results
      else add_failed recipient results in
    if 0 <? delay then
      match time_sleep delay with
      | Returns => (results1, S n)
      | Raises => (add_failed recipient results1, S n)
      end
    else (results1, S n).

Fixpoint send_loop (recipients : list string) (delay : Z) (results : BulkResult)
  : M BulkResult :=
  match recipients with
  | [] => ret results
  | recipient :: rest =>
      results' <- send_one recipient delay results ;;
      send_loop rest delay results'
  end.

(** [send_bulk_email(recipients, subject, body, from_email, delay)];
    [delay] defaults to 1. *)
Definition send_bulk_email (recipients : list string) (delay : Z) : M BulkResult :=
  send_loop recipients delay (mk_bulk [] [] (List.length recipients)).

(** How many times [send_email] is called for a recipient list: the
    number of effects of the loop. *)
Definition sends (recipients : list string) (delay : Z) (n : nat) : nat :=
  (snd (send_bulk_email recipients delay n) - n)%nat.

End WithMailer.

(** The tally the specification describes: every recipient is filed once,
    under [success] or under [failed]. *)
Definition tallied (recipients : list string) (res : BulkResult) : Prop :=
  (forall r, count_occ string_dec (success res ++ failed res) r
             = count_occ string_dec recipients r)
  /\ total res = List.length recipients.

(** *** Sample data *)

(** A mailer for which every send goes through. *)
Definition always_sent (recipient : string) (n : nat) : bool := true.

(** A mailer that fails for every other send. *)
Definition every_other (recipient : string) (n : nat) : bool := Nat.even n.

(** *** Auto-replies *)

(** What the auto-reply code reads of a message: [get('From', '')],
    [get('Subject', '')] and the text [_get_email_body] extracts (the empty
    string when it fails). *)
Record EmailMessage := mk_message {
  msg_from : string;
  msg_subject : string;
  msg_body : string
}.

(** An auto-reply rule: a dict in which each of these keys may be
    missing. *)
Record Rule := mk_rule {
  sender_contains : option string;
  subject_contains : option string;
  body_contains : option string;
  reply_message : option string
}.

(** A condition of a rule that is there and is not met: [needle.lower()
    not in hay.lower()]. *)
Definition unmet (needle : option string) (hay : string) : bool :=
  match needle with
  | Some n => negb (PyStr.contains (PyStr.lower n) (PyStr.lower hay))
  | None => false
  end.

(** [_should_auto_reply] *)
Definition _should_auto_reply (email_message : EmailMessage) (rule : Rule) : bool :=
  if unmet (sender_contains rule) (msg_from email_message) then false
  else if unmet (subject_contains rule) (msg_subject email_message) then false
  else if unmet (body_contains rule) (msg_body email_message) then false
  else true.

(** The subject [_send_auto_reply] builds. *)
Definition auto_reply_subject (subject : string) : string :=
  let auto_reply_subject := ("Re: " ++ subject)%string in
  if negb (String.prefix "Re: " auto_reply_subject)
  then ("Re: " ++ auto_reply_subject)%string
  else auto_reply_subject.

(** A mail handed to [send_email]: recipient, subject, body. *)
Definition outgoing := (string * string * string)%type.

(** [_send_auto_reply]: the mail it hands to [send_email]; none when the
    rule has no [reply_message] (a [KeyError], logged). *)
Definition _send_auto_reply (original_email : EmailMessage) (rule : Rule)
  : list outgoing :=
  match reply_message rule with
  | Some text =>
      [(msg_from original_email,
        auto_reply_subject (msg_subject original_email), text)]
  | None => []
  end.

(** The inner loop [for rule in self.auto_reply_rules] for one message:
    [None] when the loop runs to its end, and the mail handed to
    [send_email] by the rule at which it breaks otherwise. *)
Fixpoint rule_loop (email_message : EmailMessage) (rules : list Rule)
  : option (list outgoing) :=
  match rules with
  | [] => None
  | rule :: rest =>
      if _should_auto_reply email_message rule
      then Some (_send_auto_reply email_message rule)   (* count, break *)
      else rule_loop email_message rest
  end.

(** The loop of [check_and_auto_reply] over the unread messages; an
    entry is [None] when the fetch does not answer [OK] or the message
    cannot be parsed. *)
Fixpoint reply_loop (fetched : list (option EmailMessage)) (rules : list Rule)
    (replied_count : nat) (sent : list outgoing) : nat * list outgoing :=
  match fetched with
  | [] => (replied_count, sent)
  | None :: rest => reply_loop rest rules replied_count sent
  | Some email_message :: rest =>
      match rule_loop email_message rules with
      | Some mails =>
          reply_loop rest rules (S replied_count) (sent ++ mails)
      | None => reply_loop rest rules replied_count sent
      end
  end.

(** [check_and_auto_reply]: [inbox] is [None] when IMAP cannot be set
    up, the search does not answer [OK], or either raises. *)
Definition check_and_auto_reply (inbox : option (list (option EmailMessage)))
    (rules : list Rule) : nat * list outgoing :=
  match inbox with
  | None => (0%nat, [])
  | Some fetched => reply_loop fetched rules 0 []
  end.

(** The messages of an inbox that some rule applies to, in the order of
    the inbox. *)
Definition answered (fetched : list (option EmailMessage)) (rules : list Rule)
  : list EmailMessage :=
  filter (fun m => existsb (_should_auto_reply m) rules)
         (List.concat (map (fun o => match o with Some m => [m] | None => [] end)
                           fetched)).

(** [rule] is the first of [rules] that applies to the message [m]. *)
Definition first_applicable (m : EmailMessage) (rules : list Rule) (rule : Rule)
  : Prop :=
  exists before after,
    rules = before ++ rule :: after
    /\ _should_auto_reply m rule = true
    /\ Forall (fun r => _should_auto_reply m r = false) before.

(** The reply a rule gives to a message: to its sender, under its subject
    with ["Re: "] put in front, and nothing when the rule has no
    [reply_message]. *)
Definition reply_of (m : EmailMessage) (rule : Rule) : list outgoing :=
  match reply_message rule with
  | Some text => [(msg_from m, ("Re: " ++ msg_subject m)%string, text)]
  | None => []
  end.

(** *** Sample data *)

Definition out_of_office : Rule :=
  mk_rule None (Some "Invoice") None (Some "I am away until Monday.").

Definition nameless : Rule := mk_rule (Some "boss") None None None.

Definition sample_inbox : list (option EmailMessage) :=
  [Some (mk_message "ann@example.com" "Re: invoice 12" "Please pay.");
   None;
   Some (mk_message "THE BOSS <b@example.com>" "Lunch?" "At noon.");
   Some (mk_message "bob@example.com" "Hello" "Hi.")].

End EmailAutomation.

(** * Properties *)

(** ** The scheduler *)
Module SchedulerProps.

Import Scheduler.

Lemma seconds_lt_300 (a b : datetime) :
  (seconds (datetime_sub a b) <? 300) = true
  <-> (a - b) mod us_per_day < 300 * us_per_second.
Proof.
  unfold datetime_sub, timedelta_of_us; cbn [seconds].
  rewrite Z.ltb_lt.
  generalize ((a - b) mod us_per_day); intro x.
  unfold us_per_second.
  split; intro H; Z.to_euclidean_division_equations; lia.
Qed.

Section Facts.

Variable now : nat -> datetime.

(** C9.  For a task that has a [last_run], [should_run_task] answers
    [False] exactly when the elapsed time, with whole days discarded, is
    under 300 seconds. *)
Theorem should_run_task_uses_seconds_component
    (task : AutomationTask) (lr : datetime) (n : nat)
    (Hlr : last_run task = Some lr) :
  fst (fst (should_run_task now task n)) = false
  <-> (now n - lr) mod us_per_day < 300 * us_per_second.
Proof.
  unfold should_run_task, bind, datetime_now, ret. rewrite Hlr.
  destruct (seconds (datetime_sub (now n) lr) <? 300) eqn:E; simpl.
  - apply seconds_lt_300 in E. tauto.
  - split; [discriminate|].
    intro H. apply seconds_lt_300 in H. congruence.
Qed.

Lemma should_run_task_spec (task : AutomationTask) (n : nat) :
  should_run_task now task n =
  (match last_run task with
   | None => true
   | Some lr => negb (seconds (datetime_sub (now n) lr) <? 300)
   end, now n, S n).
Proof.
  unfold should_run_task, bind, datetime_now, ret.
  destruct (last_run task); [|reflexivity].
  destruct (_ <? _); reflexivity.
Qed.

Lemma execute_task_spec (task : AutomationTask) (n : nat) :
  execute_task now task n =
  match function task n with
  | Returns => (set_last_run task (now (S n)), Returns, Some (now (S n)), S (S n))
  | Raises => (task, Raises, None, S n)
  end.
Proof.
  unfold execute_task, bind, call, datetime_now, ret.
  destruct (function task n); reflexivity.
Qed.

(** C7, as the code has it.  When the callback returns, [last_run] holds
    the clock reading taken right after it returned; when it raises,
    [last_run] is left as it was. *)
Theorem execute_task_last_run (task : AutomationTask) (n : nat) :
  (function task n = Returns ->
   last_run (fst (fst (fst (execute_task now task n)))) = Some (now (S n)))
  /\ (function task n = Raises ->
      last_run (fst (fst (fst (execute_task now task n)))) = last_run task).
Proof.
  rewrite execute_task_spec.
  split; intro H; rewrite H; reflexivity.
Qed.

Lemma scheduler_visit_spec (task : AutomationTask) (n : nat) :
  scheduler_visit now task n =
  if enabled task && truthy (schedule task) then
    if verdict now task n then
      let '(task', r, fin, n') := execute_task now task (S n) in
      (task', [mk_invocation (id task) ByScheduler (Some (now n)) r fin], n')
    else (task, [], S n)
  else (task, [], n).
Proof.
  unfold scheduler_visit.
  destruct (enabled task && truthy (schedule task)); [|reflexivity].
  unfold bind. rewrite should_run_task_spec. fold (verdict now task n).
  destruct (verdict now task n); [|reflexivity].
  destruct (execute_task now task (S n)) as [[[t' r] fin] n']. reflexivity.
Qed.

Lemma scheduler_scan_cons (k : string) (task : AutomationTask)
    (rest : registry) (n : nat) :
  scheduler_scan now ((k, task) :: rest) n =
  let '(task', i1, n1) := scheduler_visit now task n in
  let '(rest', i2, n2) := scheduler_scan now rest n1 in
  ((k, task') :: rest', i1 ++ i2, n2).
Proof.
  simpl. unfold bind.
  destruct (scheduler_visit now task n) as [[t' i1] n1].
  destruct (scheduler_scan now rest n1) as [[rest' i2] n2]. reflexivity.
Qed.

Lemma scheduler_scan_app (pre post : registry) (n : nat) :
  scheduler_scan now (pre ++ post) n =
  let '(pre', i1, n1) := scheduler_scan now pre n in
  let '(post', i2, n2) := scheduler_scan now post n1 in
  (pre' ++ post', i1 ++ i2, n2).
Proof.
  revert n. induction pre as [|[k t] pre IH]; intro n.
  - simpl. unfold ret.
    destruct (scheduler_scan now post n) as [[post' i2] n2]. reflexivity.
  - rewrite <- app_comm_cons, !scheduler_scan_cons.
    destruct (scheduler_visit now t n) as [[t' i1] n1].
    rewrite IH.
    destruct (scheduler_scan now pre n1) as [[pre' i2] n2].
    destruct (scheduler_scan now post n2) as [[post' i3] n3].
    rewrite app_assoc. reflexivity.
Qed.

(** The scheduler notes a call only under the id of the task it
    visits. *)
Lemma scheduler_visit_notes (task : AutomationTask) (n : nat) (inv : invocation) :
  In inv (snd (fst (scheduler_visit now task n))) ->
  inv_task inv = id task /\ enabled task = true /\ inv_origin inv = ByScheduler.
Proof.
  rewrite scheduler_visit_spec.
  destruct (enabled task) eqn:En; simpl; [|tauto].
  destruct (truthy (schedule task)); simpl; [|tauto].
  destruct (verdict now task n); simpl; [|tauto].
  rewrite execute_task_spec.
  destruct (function task (S n)); simpl; intros [<-|[]]; auto.
Qed.

Lemma scheduler_scan_notes (ts : registry) (n : nat) (inv : invocation) :
  In inv (snd (fst (scheduler_scan now ts n))) ->
  exists k task, In (k, task) ts /\ inv_task inv = id task
                 /\ enabled task = true.
Proof.
  revert n. induction ts as [|[k t] rest IH]; intro n.
  - simpl. tauto.
  - rewrite scheduler_scan_cons.
    pose proof (scheduler_visit_notes t n inv) as Hv.
    destruct (scheduler_visit now t n) as [[t' i1] n1].
    specialize (IH n1).
    destruct (scheduler_scan now rest n1) as [[rest' i2] n2].
    simpl in *. rewrite in_app_iff. intros [H|H].
    + exists k, t. intuition.
    + destruct (IH H) as (k' & t'' & Hin & Hid & Hen).
      exists k', t''. auto.
Qed.

(** Distinct ids tell the items of a registry apart. *)
Lemma same_id_same_item (ts : registry) (x y : string * AutomationTask) :
  NoDup (map task_id ts) -> In x ts -> In y ts -> task_id x = task_id y -> x = y.
Proof.
  induction ts as [|z ts IH]; simpl; [tauto|].
  intros Hnd Hx Hy Hid. inversion Hnd as [|? ? Hnot Hnd']; subst.
  destruct Hx as [->|Hx], Hy as [->|Hy]; auto.
  - exfalso. apply Hnot. rewrite Hid. apply in_map. assumption.
  - exfalso. apply Hnot. rewrite <- Hid. apply in_map. assumption.
Qed.

(** C2, for one pass over any registry with distinct ids. *)
Lemma disabled_not_scanned (ts : registry) (n : nat)
    (k : string) (task : AutomationTask) :
  NoDup (map task_id ts) -> In (k, task) ts -> enabled task = false ->
  ~ In (id task) (map inv_task (snd (fst (scheduler_scan now ts n)))).
Proof.
  intros Hnd Hin Hoff Hc.
  apply in_map_iff in Hc. destruct Hc as (inv & Hid & Hinv).
  apply scheduler_scan_notes in Hinv.
  destruct Hinv as (k' & t' & Hin' & Hid' & Hen).
  assert ((k', t') = (k, task)) as E.
  { apply (same_id_same_item ts); auto. unfold task_id; simpl. congruence. }
  inversion E; subst. congruence.
Qed.

(** *** The registry keeps its ids *)

Lemma dict_assign_keys_in (k : string) (task : AutomationTask) (ts : registry)
    (x : string) :
  In x (map fst (dict_assign k task ts)) -> x = k \/ In x (map fst ts).
Proof.
  induction ts as [|[k' old] rest IH]; simpl.
  - intros [<-|[]]. auto.
  - destruct (String.eqb_spec k' k); simpl; intros [<-|Hx]; auto.
    destruct (IH Hx); auto.
Qed.

Lemma dict_assign_keys (k : string) (task : AutomationTask) (ts : registry) :
  NoDup (map fst ts) -> NoDup (map fst (dict_assign k task ts)).
Proof.
  induction ts as [|[k' old] rest IH]; simpl; intro Hnd.
  - constructor; [simpl; tauto | constructor].
  - inversion Hnd as [|? ? Hnot Hnd']; subst.
    destruct (String.eqb_spec k' k) as [->|Hne]; simpl.
    + constructor; assumption.
    + constructor; [|apply IH; assumption].
      intro Hin. apply dict_assign_keys_in in Hin.
      destruct Hin; [congruence | contradiction].
Qed.

Lemma dict_assign_forall (P : string * AutomationTask -> Prop)
    (k : string) (task : AutomationTask) (ts : registry) :
  Forall P ts -> P (k, task) -> Forall P (dict_assign k task ts).
Proof.
  intros Hall Hp. induction Hall as [|[k' old] rest Hx Hrest IH]; simpl.
  - constructor; auto.
  - destruct (String.eqb_spec k' k) as [->|]; constructor; auto.
Qed.

Lemma registered_fold (regs : list registration) (ts : registry) :
  registered ts -> registered (fold_left register regs ts).
Proof.
  revert ts. induction regs as [|r regs IH]; simpl; intros ts [Hk Hall]; [split; auto|].
  apply IH. unfold register, register_task. split.
  - apply dict_assign_keys. assumption.
  - apply dict_assign_forall; auto.
Qed.

Lemma registered_ids (ts : registry) :
  registered ts -> map task_id ts = map fst ts.
Proof.
  intros [_ Hall]. induction Hall as [|[k t] rest [Hx _] _ IH]; simpl; [reflexivity|].
  unfold task_id at 1. simpl in *. congruence.
Qed.

Lemma execute_task_id (task : AutomationTask) (n : nat) :
  id (fst (fst (fst (execute_task now task n)))) = id task.
Proof. rewrite execute_task_spec. destruct (function task n); reflexivity. Qed.

Lemma scheduler_visit_id (task : AutomationTask) (n : nat) :
  id (fst (fst (scheduler_visit now task n))) = id task.
Proof.
  rewrite scheduler_visit_spec.
  destruct (enabled task && truthy (schedule task)); [|reflexivity].
  destruct (verdict now task n); [|reflexivity].
  pose proof (execute_task_id task (S n)) as H.
  destruct (execute_task now task (S n)) as [[[t' r] fin] n']. exact H.
Qed.

Lemma scheduler_scan_ids (ts : registry) (n : nat) :
  map task_id (fst (fst (scheduler_scan now ts n))) = map task_id ts.
Proof.
  revert n. induction ts as [|[k t] rest IH]; intro n; [reflexivity|].
  rewrite scheduler_scan_cons.
  pose proof (scheduler_visit_id t n) as Hv.
  destruct (scheduler_visit now t n) as [[t' i1] n1].
  specialize (IH n1).
  destruct (scheduler_scan now rest n1) as [[rest' i2] n2].
  simpl in *. unfold task_id at 1 3. simpl. congruence.
Qed.

Lemma run_task_manual_ids (k : string) (ts : registry) (n : nat) :
  map task_id (fst (fst (run_task_manual now k ts n))) = map task_id ts.
Proof.
  revert n. induction ts as [|[k' t] rest IH]; intro n; [reflexivity|].
  simpl. destruct (k' =? k)%string; unfold bind.
  - pose proof (execute_task_id t n) as He.
    destruct (execute_task now t n) as [[[t' r] fin] n']. simpl in *.
    unfold task_id at 1 3. simpl. congruence.
  - specialize (IH n).
    destruct (run_task_manual now k rest n) as [[rest' i] n']. simpl in *.
    congruence.
Qed.

Lemma assign_enabled_ids (k : string) (b : bool) (ts : registry) :
  map task_id (assign_enabled k b ts) = map task_id ts.
Proof.
  induction ts as [|[k' t] rest IH]; [reflexivity|].
  simpl. destruct (k' =? k)%string; simpl; [reflexivity|]. congruence.
Qed.

Lemma step_ids (a : Agent) (e : event) :
  map task_id (tasks (step now a e)) = map task_id (tasks a).
Proof.
  destruct e as [|k|k|k|]; simpl; [| | | |reflexivity].
  - destruct (running a); [|reflexivity].
    pose proof (scheduler_scan_ids (tasks a) (effects a)) as H.
    destruct (scheduler_scan now (tasks a) (effects a)) as [[ts invs] n]. exact H.
  - pose proof (run_task_manual_ids k (tasks a) (effects a)) as H.
    destruct (run_task_manual now k (tasks a) (effects a)) as [[ts invs] n]. exact H.
  - unfold enable_task. destruct (has_key k (tasks a)); [|reflexivity].
    apply assign_enabled_ids.
  - unfold disable_task. destruct (has_key k (tasks a)); [|reflexivity].
    apply assign_enabled_ids.
Qed.

Lemma reachable_ids (a : Agent) :
  reachable now a -> NoDup (map task_id (tasks a)).
Proof.
  induction 1 as [regs|a e _ IH].
  - simpl.
    assert (registered (fold_left register regs [])) as Hr.
    { apply registered_fold. split; constructor. }
    rewrite (registered_ids _ Hr). apply Hr.
  - rewrite step_ids. assumption.
Qed.

(** C2.  In every state a started agent can reach, a pass of the
    scheduler makes no call for a task whose [enabled] flag is false. *)
Theorem disabled_task_never_invoked
    (a : Agent) (k : string) (task : AutomationTask)
    (Hreach : reachable now a)
    (Hin : In (k, task) (tasks a))
    (Hoff : enabled task = false) :
  ~ In (id task) (map inv_task (invoked_by_tick now a)).
Proof.
  unfold invoked_by_tick.
  apply (disabled_not_scanned (tasks a) (effects a) k task); auto.
  apply reachable_ids. assumption.
Qed.

(** The scheduler's notes are the history a tick adds. *)
Lemma tick_history (a : Agent) :
  history (step now a Tick) =
  history a ++ (if running a then invoked_by_tick now a else []).
Proof.
  simpl. unfold invoked_by_tick.
  destruct (running a); [|symmetry; apply app_nil_r].
  destruct (scheduler_scan now (tasks a) (effects a)) as [[ts invs] n]. reflexivity.
Qed.

(** C1, as the code has it.  During one pass over a registry with
    distinct ids, a task is called exactly when it is enabled, carries a
    non-empty schedule string, and either has no [last_run] or at least 300
    seconds lie between its [last_run] and the reading taken when the pass
    reaches it.  Stated for an elapsed time of less than a day. *)
Theorem scheduler_invokes_iff_eligible
    (pre post : registry) (k : string) (task : AutomationTask) (n : nat)
    (Hids : NoDup (map task_id (pre ++ (k, task) :: post)))
    (Hday : forall lr, last_run task = Some lr ->
              0 <= now (snd (scheduler_scan now pre n)) - lr < us_per_day) :
  In (id task)
     (map inv_task (snd (fst (scheduler_scan now (pre ++ (k, task) :: post) n))))
  <-> eligible task (now (snd (scheduler_scan now pre n))) = true.
Proof.
  rewrite scheduler_scan_app.
  pose proof (fun inv => scheduler_scan_notes pre n inv) as Hpre.
  destruct (scheduler_scan now pre n) as [[pre' i1] n1]. cbn [snd fst] in *.
  rewrite scheduler_scan_cons.
  rewrite map_app in Hids. simpl in Hids.
  assert (~ In (id task) (map task_id pre) /\ ~ In (id task) (map task_id post))
    as [Hnpre Hnpost].
  { apply NoDup_remove_2 in Hids. rewrite in_app_iff in Hids.
    unfold task_id at 1 3 in Hids. simpl in Hids. tauto. }
  assert (eligible task (now n1) =
          enabled task && truthy (schedule task) && verdict now task n1) as Hel.
  { unfold eligible, verdict. f_equal.
    destruct (last_run task) as [lr|] eqn:Elr; [|reflexivity].
    specialize (Hday lr eq_refl).
    destruct (seconds (datetime_sub (now n1) lr) <? 300) eqn:E.
    - apply seconds_lt_300 in E. rewrite Z.mod_small in E by exact Hday.
      simpl. apply Z.leb_gt. assumption.
    - simpl. apply Z.leb_le.
      destruct (Z_lt_le_dec (now n1 - lr) (300 * us_per_second)) as [Hlt|]; [|assumption].
      exfalso. rewrite <- (Z.mod_small _ _ Hday) in Hlt.
      apply seconds_lt_300 in Hlt. congruence. }
  rewrite Hel.
  rewrite scheduler_visit_spec.
  assert (forall l, (forall inv, In inv l -> exists k' t', In (k', t') pre
             /\ inv_task inv = id t' /\ enabled t' = true) ->
           ~ In (id task) (map inv_task l)) as Hout1.
  { intros l Hl Hc. apply in_map_iff in Hc. destruct Hc as (inv & Hi & Hin).
    destruct (Hl inv Hin) as (k' & t' & Hin' & Hid & _).
    apply Hnpre. apply in_map_iff. exists (k', t'). split; auto.
    unfold task_id. simpl. congruence. }
  specialize (Hout1 i1 Hpre).
  assert (forall m, ~ In (id task)
            (map inv_task (snd (fst (scheduler_scan now post m))))) as Hout3.
  { intros m Hc. apply in_map_iff in Hc. destruct Hc as (inv & Hi & Hin).
    apply scheduler_scan_notes in Hin.
    destruct Hin as (k' & t' & Hin' & Hid & _).
    apply Hnpost. apply in_map_iff. exists (k', t'). split; auto.
    unfold task_id. simpl. congruence. }
  destruct (enabled task && truthy (schedule task)); simpl andb.
  - destruct (verdict now task n1).
    + rewrite execute_task_spec.
      destruct (function task (S n1)).
      * destruct (scheduler_scan now post (S (S (S n1)))) as [[post' i3] n3].
        simpl. rewrite !map_app, !in_app_iff. simpl. tauto.
      * destruct (scheduler_scan now post (S (S n1))) as [[post' i3] n3].
        simpl. rewrite !map_app, !in_app_iff. simpl. tauto.
    + specialize (Hout3 (S n1)).
      destruct (scheduler_scan now post (S n1)) as [[post' i3] n3].
      simpl in *. rewrite !map_app, !in_app_iff. simpl.
      split; [tauto | discriminate].
  - specialize (Hout3 n1).
    destruct (scheduler_scan now post n1) as [[post' i3] n3].
    simpl in *. rewrite !map_app, !in_app_iff. simpl.
    split; [tauto | discriminate].
Qed.

(** *** The cooldown along a run of the agent *)

Lemma ordered_pairs_snoc {A} (R : A -> A -> Prop) (l : list A) (b : A) :
  ForallOrdPairs R l -> (forall a, In a l -> R a b) ->
  ForallOrdPairs R (l ++ [b]).
Proof.
  induction 1 as [|a l Ha Hl IH]; simpl; intro Hb.
  - constructor; constructor.
  - constructor.
    + apply Forall_app. split; [assumption|].
      constructor; [apply Hb; auto | constructor].
    + apply IH. intros x Hx. apply Hb. auto.
Qed.

Lemma one_value_per_key {B} (l : list (string * B)) (i : string) (x y : B) :
  NoDup (map fst l) -> In (i, x) l -> In (i, y) l -> x = y.
Proof.
  induction l as [|[j z] l IH]; simpl; [tauto|].
  intros Hnd Hx Hy. inversion Hnd as [|? ? Hnot Hnd']; subst.
  destruct Hx as [Hx|Hx], Hy as [Hy|Hy].
  - congruence.
  - inversion Hx; subst. exfalso. apply Hnot.
    change i with (fst (i, y)). apply in_map. assumption.
  - inversion Hy; subst. exfalso. apply Hnot.
    change i with (fst (i, x)). apply in_map. assumption.
  - auto.
Qed.

Lemma consistent_later (n n' : nat) sm h :
  (n <= n')%nat -> consistent now n sm h -> consistent now n' sm h.
Proof.
  intros Hle (H1 & H2 & H3 & H4). repeat split; auto.
  intros i r Hin m Hm. apply (H2 i r Hin). lia.
Qed.

Hypothesis Hclock : monotone now.

(** Noting one more call of the task summarised as [(i, lr)]. *)
Lemma consistent_note (n n' : nat) d (i : string) (lr lr' : option datetime)
    rest h (o : origin) (chk : option datetime) (r : outcome)
    (fin : option datetime) :
  consistent now n (d ++ (i, lr) :: rest) h ->
  (n <= n')%nat ->
  (o = ByScheduler ->
   exists c, chk = Some c /\ forall x, lr = Some x -> x + 300 * us_per_second <= c) ->
  (lr' = lr /\ fin = None
   \/ exists k, (n <= k < n')%nat /\ lr' = Some (now k) /\ fin = Some (now k)) ->
  consistent now n' (d ++ (i, lr') :: rest) (h ++ [mk_invocation i o chk r fin]).
Proof.
  intros (H1 & H2 & H3 & H4) Hle Hchk Hnew.
  assert (forall j x, In (j, x) (d ++ (i, lr') :: rest) ->
            (j = i /\ x = lr') \/ In (j, x) (d ++ (i, lr) :: rest)) as Hsplit.
  { intros j x Hin. apply in_app_iff in Hin. simpl in Hin.
    destruct Hin as [Hin|[Hin|Hin]].
    - right. apply in_app_iff. auto.
    - left. inversion Hin. auto.
    - right. apply in_app_iff. simpl. auto. }
  assert (In (i, lr) (d ++ (i, lr) :: rest)) as Hold
    by (apply in_app_iff; simpl; auto).
  assert (In (i, lr') (d ++ (i, lr') :: rest)) as Hnow
    by (apply in_app_iff; simpl; auto).
  assert (forall j x, In (j, x) (d ++ (i, lr) :: rest) -> j <> i ->
            In (j, x) (d ++ (i, lr') :: rest)) as Hkeep.
  { intros j x Hin Hne. apply in_app_iff in Hin. apply in_app_iff.
    simpl in *. destruct Hin as [|[E|]]; auto. inversion E. congruence. }
  repeat split.
  - rewrite map_app in *. simpl in *. assumption.
  - intros j x Hin m Hm.
    destruct (Hsplit _ _ Hin) as [[-> E]|Hin'].
    + destruct Hnew as [[E' _]|(k & Hk & E' & _)].
      * apply (H2 i x); [congruence | lia].
      * assert (x = now k) as -> by congruence. apply Hclock. lia.
    + apply (H2 j x Hin'). lia.
  - intros inv f Hin Hf. apply in_app_iff in Hin. destruct Hin as [Hin|[<-|[]]].
    + destruct (H3 inv f Hin Hf) as (x & Hx & Hfx).
      destruct (String.eqb_spec (inv_task inv) i) as [E|Hne].
      * rewrite E in *.
        assert (lr = Some x) as ->
          by (apply (one_value_per_key (d ++ (i, lr) :: rest) i); auto).
        destruct Hnew as [[-> _]|(k & Hk & -> & _)].
        -- exists x. auto.
        -- exists (now k). split; [assumption|].
           specialize (H2 i x Hx k). lia.
      * exists x. split; [|assumption]. apply Hkeep; auto.
    + simpl in *. destruct Hnew as [[_ ->]|(k & Hk & -> & ->)]; [discriminate|].
      inversion Hf; subst. exists (now k). split; [assumption|lia].
  - apply ordered_pairs_snoc; [assumption|].
    intros a Ha. unfold cooled. simpl. intros Hid Ho f Hf.
    destruct (Hchk Ho) as (c & -> & Hc).
    exists c. split; [reflexivity|].
    destruct (H3 a f Ha Hf) as (x & Hx & Hfx).
    rewrite Hid in Hx.
    assert (lr = Some x) as E
      by (apply (one_value_per_key (d ++ (i, lr) :: rest) i); auto).
    specialize (Hc x E). unfold us_per_second in *. lia.
Qed.

Lemma execute_task_consistent (n : nat) d (task : AutomationTask) rest h
    (o : origin) (chk : option datetime) :
  consistent now n (d ++ (id task, last_run task) :: rest) h ->
  (o = ByScheduler ->
   exists c, chk = Some c
     /\ forall x, last_run task = Some x -> x + 300 * us_per_second <= c) ->
  let '(task', r, fin, n') := execute_task now task n in
  consistent now n' (d ++ (id task', last_run task') :: rest)
             (h ++ [mk_invocation (id task) o chk r fin])
  /\ (n <= n')%nat.
Proof.
  intros Hc Hchk. rewrite execute_task_spec.
  destruct (function task n); (split; [|lia]); simpl.
  - apply (consistent_note n (S (S n)) d (id task) (last_run task)); auto.
    right. exists (S n). split; [lia|auto].
  - apply (consistent_note n (S n) d (id task) (last_run task)); auto.
Qed.

Lemma verdict_cooldown (task : AutomationTask) (n : nat) (x : datetime) :
  verdict now task n = true -> last_run task = Some x -> x <= now n ->
  x + 300 * us_per_second <= now n.
Proof.
  unfold verdict. intros Hv Hlr Hle. rewrite Hlr in Hv.
  apply negb_true_iff in Hv.
  destruct (Z_lt_le_dec (now n - x) (300 * us_per_second)) as [Hlt|]; [|lia].
  exfalso.
  assert ((now n - x) mod us_per_day < 300 * us_per_second) as Hm.
  { pose proof (Z.mod_le (now n - x) us_per_day) as Hmod.
    unfold us_per_day, us_per_second in *. lia. }
  apply seconds_lt_300 in Hm. congruence.
Qed.

Lemma scheduler_visit_consistent (n : nat) d (task : AutomationTask) rest h :
  consistent now n (d ++ (id task, last_run task) :: rest) h ->
  let '(task', invs, n') := scheduler_visit now task n in
  consistent now n' (d ++ (id task', last_run task') :: rest) (h ++ invs)
  /\ (n <= n')%nat.
Proof.
  intro Hc. rewrite scheduler_visit_spec.
  destruct (enabled task && truthy (schedule task)).
  - destruct (verdict now task n) eqn:Hv.
    + pose proof (execute_task_consistent (S n) d task rest h ByScheduler
                    (Some (now n))) as He.
      destruct (execute_task now task (S n)) as [[[t' r] fin] n'].
      destruct He as [He Hle].
      * apply (consistent_later n); [lia | assumption].
      * intros _. exists (now n). split; [reflexivity|].
        intros x Hx. apply (verdict_cooldown task); auto.
        destruct Hc as (_ & H2 & _). apply (H2 (id task) x); [|lia].
        apply in_app_iff. simpl. rewrite Hx. auto.
      * split; [assumption | lia].
    + rewrite app_nil_r. split; [|lia].
      apply (consistent_later n); [lia | assumption].
  - rewrite app_nil_r. split; [assumption | lia].
Qed.

Lemma scheduler_scan_consistent (todo : registry) :
  forall d (n : nat) h,
    consistent now n (d ++ summary todo) h ->
    let '(todo', invs, n') := scheduler_scan now todo n in
    consistent now n' (d ++ summary todo') (h ++ invs) /\ (n <= n')%nat.
Proof.
  induction todo as [|[k t] rest IH]; intros d n h Hc.
  - simpl in *. rewrite !app_nil_r in *. split; [assumption | lia].
  - rewrite scheduler_scan_cons.
    pose proof (scheduler_visit_consistent n d t (summary rest) h Hc) as Hv.
    destruct (scheduler_visit now t n) as [[t' i1] n1].
    destruct Hv as [Hv Hle1].
    specialize (IH (d ++ [(id t', last_run t')]) n1 (h ++ i1)).
    rewrite <- app_assoc in IH. simpl in IH. specialize (IH Hv).
    destruct (scheduler_scan now rest n1) as [[rest' i2] n2].
    destruct IH as [IH Hle2].
    rewrite <- !app_assoc in IH. simpl in *.
    split; [assumption | lia].
Qed.

Lemma run_task_manual_consistent (key : string) (todo : registry) :
  forall d (n : nat) h,
    consistent now n (d ++ summary todo) h ->
    let '(todo', invs, n') := run_task_manual now key todo n in
    consistent now n' (d ++ summary todo') (h ++ invs) /\ (n <= n')%nat.
Proof.
  induction todo as [|[k t] rest IH]; intros d n h Hc.
  - simpl in *. rewrite !app_nil_r in *. split; [assumption | lia].
  - simpl. destruct (k =? key)%string; unfold bind.
    + pose proof (execute_task_consistent n d t (summary rest) h ByCommand None Hc)
        as He.
      destruct (execute_task now t n) as [[[t' r] fin] n'].
      apply He. discriminate.
    + specialize (IH (d ++ [(id t, last_run t)]) n h).
      rewrite <- app_assoc in IH. simpl in IH. specialize (IH Hc).
      destruct (run_task_manual now key rest n) as [[rest' i] n'].
      rewrite <- app_assoc in IH. exact IH.
Qed.

Lemma assign_enabled_summary (k : string) (b : bool) (ts : registry) :
  summary (assign_enabled k b ts) = summary ts.
Proof.
  induction ts as [|[k' t] rest IH]; [reflexivity|].
  simpl. destruct (k' =? k)%string; simpl; [reflexivity|].
  f_equal. exact IH.
Qed.

Lemma step_consistent (a : Agent) (e : event) :
  consistent now (effects a) (summary (tasks a)) (history a) ->
  consistent now (effects (step now a e)) (summary (tasks (step now a e)))
             (history (step now a e)).
Proof.
  intro Hc. destruct e as [|k|k|k|]; simpl; [| | | |assumption].
  - destruct (running a); [|assumption].
    pose proof (scheduler_scan_consistent (tasks a) [] (effects a) (history a) Hc)
      as H.
    destruct (scheduler_scan now (tasks a) (effects a)) as [[ts invs] n].
    apply H.
  - pose proof (run_task_manual_consistent k (tasks a) [] (effects a) (history a) Hc)
      as H.
    destruct (run_task_manual now k (tasks a) (effects a)) as [[ts invs] n].
    apply H.
  - unfold enable_task. destruct (has_key k (tasks a)); [|assumption].
    rewrite assign_enabled_summary. assumption.
  - unfold disable_task. destruct (has_key k (tasks a)); [|assumption].
    rewrite assign_enabled_summary. assumption.
Qed.

Lemma started_consistent (regs : list registration) :
  consistent now 0 (summary (tasks (started regs))) [].
Proof.
  simpl.
  assert (registered (fold_left register regs [])) as Hr.
  { apply registered_fold. split; constructor. }
  set (ts := fold_left register regs []) in *.
  assert (forall i x, In (i, x) (summary ts) -> x = None) as Hnone.
  { destruct Hr as [_ Hall]. intros i x Hin.
    apply in_map_iff in Hin. destruct Hin as (kt & E & Hin).
    rewrite Forall_forall in Hall. destruct (Hall kt Hin) as [_ Hl].
    congruence. }
  repeat split.
  - unfold summary. rewrite map_map. simpl.
    change (NoDup (map task_id ts)).
    rewrite (registered_ids _ Hr). apply Hr.
  - intros i r Hin. apply Hnone in Hin. discriminate.
  - intros inv f [].
  - constructor.
Qed.

(** C3, as the code has it.  On a clock that never steps back, along any
    run of a started agent: once a call of a task's callback has returned,
    every later call of that task by the scheduler is made on a reading at
    least 300 seconds past the moment the earlier call was recorded as
    finished. *)
Theorem cooldown_after_completed_run (a : Agent) (Hreach : reachable now a) :
  cooldown_respected (history a).
Proof.
  assert (consistent now (effects a) (summary (tasks a)) (history a)) as Hc.
  { induction Hreach as [regs|a e _ IH].
    - apply started_consistent.
    - apply step_consistent. assumption. }
  apply Hc.
Qed.

End Facts.

(** C9, on a stale task: last run a day and 100 seconds ago. *)
Lemma should_run_task_uses_seconds_component_witness :
  last_run (task_of health_check (Some 0)) = Some 0
  /\ (fst (fst (should_run_task (stopped_clock (86500 * us_per_second))
                  (task_of health_check (Some 0)) 0%nat)) = false
      <-> (stopped_clock (86500 * us_per_second) 0%nat - 0) mod us_per_day
          < 300 * us_per_second).
Proof.
  split; [reflexivity|].
  apply (should_run_task_uses_seconds_component
           (stopped_clock (86500 * us_per_second))
           (task_of health_check (Some 0)) 0 0).
  reflexivity.
Defined.

(** A task last run more than a day ago is judged not due. *)
Example stale_task_judged_not_due :
  us_per_day < stopped_clock (86500 * us_per_second) 0%nat - 0
  /\ fst (fst (should_run_task (stopped_clock (86500 * us_per_second))
                 (task_of health_check (Some 0)) 0%nat)) = false.
Proof. split; reflexivity. Qed.

(** C7, where the callback returns. *)
Lemma execute_task_last_run_witness :
  function (task_of health_check None) 0%nat = Returns
  /\ last_run (fst (fst (fst (execute_task minute_clock
                                (task_of health_check None) 0%nat))))
     = Some (minute_clock 1).
Proof.
  split; [reflexivity|].
  apply (proj1 (execute_task_last_run minute_clock (task_of health_check None) 0)).
  reflexivity.
Defined.

(** C7 as stated fails: the callback raises and [last_run] stays
    unset. *)
Lemma execute_task_last_run_counterexample :
  function (task_of flaky_report None) 0%nat = Raises
  /\ last_run (fst (fst (fst (execute_task minute_clock
                                (task_of flaky_report None) 0%nat)))) = None.
Proof. split; reflexivity. Qed.

(** C1 as stated fails: an enabled task that never ran, registered
    without a schedule string, is passed over. *)
Lemma scheduler_invokes_iff_eligible_counterexample :
  tasks (started [unscheduled]) = [("backup", task_of unscheduled None)]
  /\ enabled (task_of unscheduled None) = true
  /\ last_run (task_of unscheduled None) = None
  /\ invoked_by_tick minute_clock (started [unscheduled]) = [].
Proof. repeat split. Qed.

(** C1, at the edge of the cooldown: exactly 300 seconds after the last
    run the task is called. *)
Lemma scheduler_invokes_iff_eligible_witness :
  NoDup (map task_id ([] ++ [("system_health_check",
                              task_of health_check (Some 0))]))
  /\ (forall lr, last_run (task_of health_check (Some 0)) = Some lr ->
        0 <= stopped_clock (300 * us_per_second)
               (snd (scheduler_scan (stopped_clock (300 * us_per_second)) [] 0%nat)) - lr
          < us_per_day)
  /\ (In (id (task_of health_check (Some 0)))
         (map inv_task
            (snd (fst (scheduler_scan (stopped_clock (300 * us_per_second))
                         ([] ++ [("system_health_check",
                                  task_of health_check (Some 0))]) 0%nat))))
      <-> eligible (task_of health_check (Some 0))
            (stopped_clock (300 * us_per_second)
               (snd (scheduler_scan (stopped_clock (300 * us_per_second)) [] 0%nat)))
          = true).
Proof.
  assert (NoDup (map task_id ([] ++ [("system_health_check",
                                      task_of health_check (Some 0))]))) as H1.
  { simpl. constructor; [simpl; tauto | constructor]. }
  assert (forall lr, last_run (task_of health_check (Some 0)) = Some lr ->
            0 <= stopped_clock (300 * us_per_second)
                   (snd (scheduler_scan (stopped_clock (300 * us_per_second)) [] 0%nat)) - lr
              < us_per_day) as H2.
  { intros lr E. inversion E; subst. vm_compute. split; [discriminate | reflexivity]. }
  exact (conj H1 (conj H2
    (scheduler_invokes_iff_eligible (stopped_clock (300 * us_per_second))
       [] [] "system_health_check" (task_of health_check (Some 0)) 0 H1 H2))).
Defined.

(** C2, after [disable system_health_check] at the prompt. *)
Lemma disabled_task_never_invoked_witness :
  reachable minute_clock
    (step minute_clock (started [health_check]) (CmdDisable "system_health_check"))
  /\ In ("system_health_check", set_enabled false (task_of health_check None))
        (tasks (step minute_clock (started [health_check])
                  (CmdDisable "system_health_check")))
  /\ enabled (set_enabled false (task_of health_check None)) = false
  /\ ~ In (id (set_enabled false (task_of health_check None)))
          (map inv_task
             (invoked_by_tick minute_clock
                (step minute_clock (started [health_check])
                   (CmdDisable "system_health_check")))).
Proof.
  assert (reachable minute_clock
            (step minute_clock (started [health_check])
               (CmdDisable "system_health_check"))) as H1
    by (apply reach_step, reach_start).
  assert (In ("system_health_check", set_enabled false (task_of health_check None))
             (tasks (step minute_clock (started [health_check])
                       (CmdDisable "system_health_check")))) as H2
    by (left; reflexivity).
  exact (conj H1 (conj H2 (conj eq_refl
    (disabled_task_never_invoked minute_clock _ _ _ H1 H2 eq_refl)))).
Defined.

Lemma minute_clock_monotone : monotone minute_clock.
Proof.
  intros n m H. unfold minute_clock, us_per_second. lia.
Defined.

(** C3, on the agent after three wake-ups of the scheduler over its
    health check. *)
Lemma cooldown_after_completed_run_witness :
  monotone minute_clock
  /\ reachable minute_clock
       (run_events minute_clock (started [health_check]) [Tick; Tick; Tick])
  /\ cooldown_respected
       (history (run_events minute_clock (started [health_check])
                   [Tick; Tick; Tick])).
Proof.
  assert (reachable minute_clock
            (run_events minute_clock (started [health_check]) [Tick; Tick; Tick]))
    as H by (repeat apply reach_step; apply reach_start).
  exact (conj minute_clock_monotone (conj H
    (cooldown_after_completed_run minute_clock minute_clock_monotone _ H))).
Defined.

(** C3 as stated fails: the callback raises on the first wake-up, and the
    scheduler calls it again on the next one, two minutes later by the
    clock. *)
Lemma cooldown_after_completed_run_counterexample :
  history (run_events minute_clock (started [flaky_report]) [Tick; Tick])
  = [ mk_invocation "daily_email_summary" ByScheduler (Some 0) Raises None;
      mk_invocation "daily_email_summary" ByScheduler
        (Some (120 * us_per_second)) Raises None ]
  /\ 120 * us_per_second - 0 < 300 * us_per_second.
Proof. split; reflexivity. Qed.

End SchedulerProps.

(** ** The resource monitor *)
Module ProcessMonitorProps.

Import ProcessMonitor.

Section Facts.

Variable rt : Runtime.

Lemma adds_skip (m : Monitor) : adds skip m true [].
Proof. exists []. simpl. rewrite app_nil_r. auto. Qed.

Lemma adds_raise (m : Monitor) : adds raise m false [].
Proof. exists []. simpl. rewrite app_nil_r. auto. Qed.

Lemma adds_create_alert (ty msg sev : string) (v : pyfloat) (th : Q)
    (m : Monitor) :
  adds (create_alert rt ty msg sev v th) m true [ty].
Proof.
  exists [mk_alert (now rt (clock_reads m)) ty msg sev v th]. simpl. auto.
Qed.

Lemma adds_seq (a b : Step) (m : Monitor) (ok : bool) (t1 t2 : list string) :
  adds a m true t1 -> adds b (snd (a m)) ok t2 -> adds (seq a b) m ok (t1 ++ t2).
Proof.
  intros (l1 & Ha & Hl1 & Ht1 & Hth1 & Hcb1) (l2 & Hb & Hl2 & Ht2 & Hth2 & Hcb2).
  exists (l1 ++ l2). unfold seq.
  destruct (a m) as [ok1 m1]. simpl in *. subst ok1.
  rewrite Hl2, Hl1, app_assoc, map_app, Ht1, Ht2.
  repeat split; auto; congruence.
Qed.

Lemma adds_seq_raised (a b : Step) (m : Monitor) (t1 : list string) :
  adds a m false t1 -> adds (seq a b) m false t1.
Proof.
  intros (l1 & Ha & Hl1 & Ht1 & Hth1 & Hcb1).
  exists l1. unfold seq.
  destruct (a m) as [ok1 m1]. simpl in *. subst ok1. simpl. auto.
Qed.

Lemma adds_swallow (a : Step) (m : Monitor) (ok : bool) (tys : list string) :
  adds a m ok tys -> adds (swallow a) m true tys.
Proof.
  intros (l & Ha & Hl & Ht & Hth & Hcb). exists l. unfold swallow. simpl. auto.
Qed.

Lemma adds_thresholds (a : Step) (m : Monitor) (ok : bool) (tys : list string) :
  adds a m ok tys -> thresholds (snd (a m)) = thresholds m.
Proof. intros (l & _ & _ & _ & H & _). exact H. Qed.

Lemma adds_ext (a a' : Step) (m : Monitor) (ok : bool) (tys : list string) :
  a m = a' m -> adds a' m ok tys -> adds a m ok tys.
Proof. unfold adds. intros ->. auto. Qed.

Lemma adds_check_cpu (r : Readings) (m : Monitor) :
  adds (check_cpu rt r) m (match cpu r with Some _ => true | None => false end)
       (one_if (breaches Cpu r (thresholds m)) "cpu_high").
Proof.
  unfold breaches. destruct (cpu r) as [v|] eqn:Er.
  - destruct (gt v (cpu_percent (thresholds m))) eqn:E.
    + eapply adds_ext; [unfold check_cpu; rewrite Er, E; reflexivity|].
      apply adds_create_alert.
    + eapply adds_ext; [unfold check_cpu; rewrite Er, E; reflexivity|].
      apply adds_skip.
  - eapply adds_ext; [unfold check_cpu; rewrite Er; reflexivity|].
    apply adds_raise.
Qed.

Lemma adds_check_memory (r : Readings) (m : Monitor) :
  adds (check_memory rt r) m (match memory r with Some _ => true | None => false end)
       (one_if (breaches Memory r (thresholds m)) "memory_high").
Proof.
  unfold breaches. destruct (memory r) as [v|] eqn:Er.
  - destruct (gt v (memory_percent (thresholds m))) eqn:E.
    + eapply adds_ext; [unfold check_memory; rewrite Er, E; reflexivity|].
      apply adds_create_alert.
    + eapply adds_ext; [unfold check_memory; rewrite Er, E; reflexivity|].
      apply adds_skip.
  - eapply adds_ext; [unfold check_memory; rewrite Er; reflexivity|].
    apply adds_raise.
Qed.

Lemma adds_check_disk (r : Readings) (m : Monitor) :
  adds (check_disk rt r) m
       (match disk_usage_percent r with Some _ => true | None => false end)
       (one_if (breaches Disk r (thresholds m)) "disk_high").
Proof.
  unfold breaches, disk_usage_percent.
  destruct (disk r) as [[used total]|] eqn:Er.
  - destruct (usage_percent used total) as [p|] eqn:Ep.
    2:{ eapply adds_ext; [unfold check_disk; rewrite Er, Ep; reflexivity|].
        apply adds_raise. }
    destruct (fgt p (disk_percent (thresholds m))) eqn:E.
    + eapply adds_ext; [unfold check_disk; rewrite Er, Ep, E; reflexivity|].
      apply adds_create_alert.
    + eapply adds_ext; [unfold check_disk; rewrite Er, Ep, E; reflexivity|].
      apply adds_skip.
  - eapply adds_ext; [unfold check_disk; rewrite Er; reflexivity|].
    apply adds_raise.
Qed.

Lemma adds_check_process_count (r : Readings) (m : Monitor) :
  adds (check_process_count rt r) m
       (match pids r with Some _ => true | None => false end)
       (one_if (breaches ProcessCount r (thresholds m)) "process_count_high").
Proof.
  unfold breaches. destruct (pids r) as [n|] eqn:Er.
  - destruct (gt (inject_Z n) (process_count (thresholds m))) eqn:E.
    + eapply adds_ext; [unfold check_process_count; rewrite Er, E; reflexivity|].
      apply adds_create_alert.
    + eapply adds_ext; [unfold check_process_count; rewrite Er, E; reflexivity|].
      apply adds_skip.
  - eapply adds_ext; [unfold check_process_count; rewrite Er; reflexivity|].
    apply adds_raise.
Qed.

Lemma adds_check_entries (sensor : string) (entries : list Q) :
  forall m,
    adds (check_entries rt sensor entries) m true
         (repeat "temperature_high"
            (List.length (filter (hot (temperature (thresholds m))) entries))).
Proof.
  induction entries as [|c rest IH]; intro m; simpl.
  - apply adds_skip.
  - set (first := fun m0 : Monitor =>
                    if nonzero c && gt c (temperature (thresholds m0))
                    then create_alert rt "temperature_high"
                           ("High temperature: " ++ sensor ++ " = "
                              ++ format_num rt c ++ degree ++ "C")%string
                           (grade c (90#1)) (Finite c)
                           (temperature (thresholds m0)) m0
                    else skip m0).
    assert (adds first m true
              (if hot (temperature (thresholds m)) c
               then ["temperature_high"] else [])) as Hfirst.
    { unfold hot.
      destruct (nonzero c && gt c (temperature (thresholds m))) eqn:E.
      - eapply adds_ext; [unfold first; rewrite E; reflexivity|].
        apply adds_create_alert.
      - eapply adds_ext; [unfold first; rewrite E; reflexivity|].
        apply adds_skip. }
    specialize (IH (snd (first m))).
    rewrite (adds_thresholds _ _ _ _ Hfirst) in IH.
    pose proof (adds_seq _ _ _ _ _ _ Hfirst IH) as H.
    destruct (hot (temperature (thresholds m)) c); exact H.
Qed.

Lemma adds_check_sensors (ts : list (string * list Q)) :
  forall m,
    adds (check_sensors rt ts) m true
         (repeat "temperature_high"
            (List.length (hot_entries (temperature (thresholds m)) ts))).
Proof.
  induction ts as [|[sensor entries] rest IH]; intro m; simpl.
  - apply adds_skip.
  - pose proof (adds_check_entries sensor entries m) as H1.
    specialize (IH (snd (check_entries rt sensor entries m))).
    rewrite (adds_thresholds _ _ _ _ H1) in IH.
    pose proof (adds_seq _ _ _ _ _ _ H1 IH) as H.
    unfold hot_entries in *. simpl.
    rewrite filter_app, length_app, repeat_app. exact H.
Qed.

Lemma adds_check_temperature (r : Readings) (m : Monitor) :
  adds (check_temperature rt r) m true
       (repeat "temperature_high" (hot_count r (thresholds m))).
Proof.
  unfold check_temperature, hot_count.
  destruct (temps r) as [ts|] eqn:Er.
  - apply (adds_ext _ (swallow (check_sensors rt ts))); [reflexivity|].
    apply (adds_swallow (check_sensors rt ts) m true). apply adds_check_sensors.
  - apply (adds_ext _ (swallow raise)); [reflexivity|].
    apply (adds_swallow raise m false). apply adds_raise.
Qed.

(** One tick, when every sample is obtained: the alerts there were stay,
    and the alerts due are appended. *)
Lemma check_system_health_adds (r : Readings) (m : Monitor) :
  sampled r ->
  exists l,
    alerts (check_system_health rt r m) = alerts m ++ l
    /\ map alert_type l = due_types r (thresholds m)
    /\ thresholds (check_system_health rt r m) = thresholds m.
Proof.
  intros (Hcpu & Hmem & Hpid & Hdisk).
  pose proof (adds_check_cpu r m) as H1.
  destruct (cpu r) eqn:E1; [|congruence].
  set (m1 := snd (check_cpu rt r m)) in *.
  pose proof (adds_check_memory r m1) as H2.
  destruct (memory r) eqn:E2; [|congruence].
  set (m2 := snd (check_memory rt r m1)) in *.
  pose proof (adds_check_disk r m2) as H3.
  destruct (disk_usage_percent r) eqn:E3; [|congruence].
  set (m3 := snd (check_disk rt r m2)) in *.
  pose proof (adds_check_temperature r m3) as H4.
  set (m4 := snd (check_temperature rt r m3)) in *.
  pose proof (adds_check_process_count r m4) as H5.
  destruct (pids r) eqn:E5; [|congruence].
  assert (thresholds m1 = thresholds m) as T1 by (apply (adds_thresholds _ _ _ _ H1)).
  assert (thresholds m2 = thresholds m) as T2
    by (rewrite <- T1; apply (adds_thresholds _ _ _ _ H2)).
  assert (thresholds m3 = thresholds m) as T3
    by (rewrite <- T2; apply (adds_thresholds _ _ _ _ H3)).
  assert (thresholds m4 = thresholds m) as T4
    by (rewrite <- T3; apply (adds_thresholds _ _ _ _ H4)).
  rewrite T1 in H2. rewrite T2 in H3. rewrite T3 in H4. rewrite T4 in H5.
  pose proof (adds_seq _ _ _ _ _ _ H4 H5) as H45.
  pose proof (adds_seq _ _ _ _ _ _ H3 H45) as H345.
  pose proof (adds_seq _ _ _ _ _ _ H2 H345) as H2345.
  pose proof (adds_seq _ _ _ _ _ _ H1 H2345) as Hall.
  destruct Hall as (l & _ & Hl & Hty & Hth & _).
  exists l. unfold check_system_health, due_types. auto.
Qed.

Lemma skipn_length_app {A} (l1 l2 : list A) :
  skipn (List.length l1) (l1 ++ l2) = l2.
Proof. induction l1; simpl; auto. Qed.

Lemma count_type_names (ty : string) (l : list SystemAlert) :
  count_type ty l = count_name ty (map alert_type l).
Proof.
  unfold count_type, count_name.
  induction l as [|a l IH]; simpl; [reflexivity|].
  destruct (alert_type a =? ty)%string; simpl; congruence.
Qed.

Lemma count_name_app (ty : string) (l1 l2 : list string) :
  count_name ty (l1 ++ l2) = (count_name ty l1 + count_name ty l2)%nat.
Proof. unfold count_name. rewrite filter_app, length_app. reflexivity. Qed.

Lemma count_name_repeat (ty x : string) (k : nat) :
  count_name ty (repeat x k) = if (x =? ty)%string then k else 0%nat.
Proof.
  unfold count_name. induction k as [|k IH]; simpl.
  - destruct (x =? ty)%string; reflexivity.
  - destruct (x =? ty)%string eqn:E; simpl; [f_equal|]; exact IH.
Qed.

Lemma count_name_one_if (ty x : string) (b : bool) :
  count_name ty (one_if b x) = if b && (x =? ty)%string then 1%nat else 0%nat.
Proof.
  unfold count_name, one_if. destruct b; simpl; [|reflexivity].
  destruct (x =? ty)%string; reflexivity.
Qed.

Lemma count_name_due (ty : string) (r : Readings) (th : Thresholds) :
  count_name ty (due_types r th) =
  ((if breaches Cpu r th && ("cpu_high" =? ty)%string then 1 else 0)
   + ((if breaches Memory r th && ("memory_high" =? ty)%string then 1 else 0)
   + ((if breaches Disk r th && ("disk_high" =? ty)%string then 1 else 0)
   + ((if ("temperature_high" =? ty)%string then hot_count r th else 0)
   + (if breaches ProcessCount r th && ("process_count_high" =? ty)%string
      then 1 else 0)))))%nat.
Proof.
  unfold due_types.
  rewrite !count_name_app, !count_name_one_if, count_name_repeat. reflexivity.
Qed.

(** C4, as the code has it.  On a poll tick whose samples are all
    obtained, the earlier alerts stay and new ones are appended: for CPU,
    memory, disk and process count exactly one alert of the metric's type
    when its value is above the threshold and none otherwise; for the
    temperature one alert per sensor entry with a non-zero reading above
    the threshold.  A following tick on the same readings appends alerts of
    the same types again. *)
Theorem poll_tick_alerts (r : Readings) (m : Monitor) (Hs : sampled r) :
  alerts (check_system_health rt r m) = alerts m ++ appended rt r m
  /\ (forall x, x <> Temperature ->
        count_type (alert_type_of x) (appended rt r m)
        = if breaches x r (thresholds m) then 1%nat else 0%nat)
  /\ count_type (alert_type_of Temperature) (appended rt r m)
     = hot_count r (thresholds m)
  /\ map alert_type (appended rt r (check_system_health rt r m))
     = map alert_type (appended rt r m).
Proof.
  destruct (check_system_health_adds r m Hs) as (l & Hl & Hty & Hth).
  destruct (check_system_health_adds r (check_system_health rt r m) Hs)
    as (l' & Hl' & Hty' & _).
  assert (appended rt r m = l) as Ha
    by (unfold appended; rewrite Hl; apply skipn_length_app).
  assert (appended rt r (check_system_health rt r m) = l') as Ha'
    by (unfold appended; rewrite Hl'; apply skipn_length_app).
  rewrite Ha, Ha'. repeat split.
  - assumption.
  - intros x Hx. rewrite count_type_names, Hty, count_name_due.
    destruct x; try congruence; simpl;
      rewrite ?andb_false_r, ?andb_true_r; simpl;
      match goal with
      | |- context [if ?b then _ else _] => destruct b
      end; reflexivity.
  - rewrite count_type_names, Hty, count_name_due. simpl.
    rewrite ?andb_false_r. simpl. lia.
  - rewrite Hty', Hty, Hth. reflexivity.
Qed.

End Facts.

(** C4 as stated fails: two cores above the temperature threshold give
    two alerts of the one type in the same tick. *)
Lemma poll_tick_alerts_counterexample :
  breaches Temperature two_hot_cores (thresholds fresh_monitor) = true
  /\ count_type (alert_type_of Temperature)
       (appended plain_runtime two_hot_cores fresh_monitor) = 2%nat.
Proof. split; vm_compute; reflexivity. Qed.

(** C4, on a machine whose processor is at 97 percent. *)
Lemma poll_tick_alerts_witness :
  sampled busy_cpu
  /\ alerts (check_system_health plain_runtime busy_cpu fresh_monitor)
     = alerts fresh_monitor ++ appended plain_runtime busy_cpu fresh_monitor
  /\ (forall x, x <> Temperature ->
        count_type (alert_type_of x) (appended plain_runtime busy_cpu fresh_monitor)
        = if breaches x busy_cpu (thresholds fresh_monitor) then 1%nat else 0%nat)
  /\ count_type (alert_type_of Temperature)
       (appended plain_runtime busy_cpu fresh_monitor)
     = hot_count busy_cpu (thresholds fresh_monitor)
  /\ map alert_type
       (appended plain_runtime busy_cpu
          (check_system_health plain_runtime busy_cpu fresh_monitor))
     = map alert_type (appended plain_runtime busy_cpu fresh_monitor).
Proof.
  assert (sampled busy_cpu) as Hs
    by (unfold sampled; repeat split; vm_compute; discriminate).
  exact (conj Hs (poll_tick_alerts plain_runtime busy_cpu fresh_monitor Hs)).
Defined.

(** The busy processor draws one critical alert. *)
Example busy_cpu_alert :
  map (fun a => (alert_type a, severity a))
      (appended plain_runtime busy_cpu fresh_monitor)
  = [("cpu_high", "critical")].
Proof. vm_compute. reflexivity. Qed.

End ProcessMonitorProps.

(** ** The safety gate *)
Module SafetyManagerProps.

Import PyStr SafetyManager.

Lemma prefix_app (needle after : string) :
  String.prefix needle (needle ++ after) = true.
Proof.
  induction needle as [|c needle IH]; simpl.
  - destruct after; reflexivity.
  - destruct (ascii_dec c c); [exact IH | congruence].
Qed.

Lemma prefix_split (needle hay : string) :
  String.prefix needle hay = true -> exists after, hay = (needle ++ after)%string.
Proof.
  revert hay. induction needle as [|c needle IH]; intros hay H.
  - exists hay. reflexivity.
  - destruct hay as [|c' hay]; simpl in H; [discriminate|].
    destruct (ascii_dec c c') as [<-|]; [|discriminate].
    destruct (IH hay H) as (after & ->). exists after. reflexivity.
Qed.

Lemma contains_unfold (needle hay : string) :
  contains needle hay =
  if String.prefix needle hay then true
  else match hay with
       | EmptyString => false
       | String _ rest => contains needle rest
       end.
Proof. destruct hay; reflexivity. Qed.

(** [needle in hay] holds exactly when [hay] can be cut around
    [needle]. *)
Lemma contains_spec (needle hay : string) :
  contains needle hay = true
  <-> exists before after, hay = (before ++ needle ++ after)%string.
Proof.
  split.
  - induction hay as [|c hay IH]; rewrite contains_unfold.
    + destruct (String.prefix needle "") eqn:E; intro H; [|discriminate H].
      apply prefix_split in E. destruct E as (after & E).
      exists "", after. exact E.
    + destruct (String.prefix needle (String c hay)) eqn:E.
      * intros _. apply prefix_split in E. destruct E as (after & E).
        exists "", after. exact E.
      * intro H. destruct (IH H) as (before & after & ->).
        exists (String c before), after. reflexivity.
  - intros (before & after & ->).
    induction before as [|c before IH].
    + change ("" ++ needle ++ after)%string with (needle ++ after)%string.
      rewrite contains_unfold, prefix_app. reflexivity.
    + rewrite contains_unfold.
      change (String c before ++ needle ++ after)%string
        with (String c (before ++ needle ++ after)).
      cbv iota. rewrite IH. destruct (String.prefix needle _); reflexivity.
Qed.

Lemma check_blocked_hit (entries : list string) (command_lower : string)
    (res : SafetyResult) (entry : string) :
  In entry entries -> contains (lower entry) command_lower = true ->
  safe (check_blocked entries command_lower res) = false
  /\ blocked (check_blocked entries command_lower res) = true.
Proof.
  induction entries as [|e rest IH]; simpl; [tauto|].
  intros Hin Hc.
  destruct (contains (lower e) command_lower) eqn:E; [simpl; auto|].
  destruct Hin as [->|Hin]; [congruence | auto].
Qed.

Lemma check_dangerous_keeps (patterns : list string) (command_lower : string) :
  forall res,
    blocked (check_dangerous patterns command_lower res) = blocked res
    /\ (safe res = false ->
        safe (check_dangerous patterns command_lower res) = false).
Proof.
  induction patterns as [|p rest IH]; intro res; simpl; [auto|].
  destruct (contains p command_lower); [|apply IH].
  simpl. destruct (negb (blocked res)) eqn:E;
    match goal with |- context [check_dangerous rest command_lower ?r] =>
      destruct (IH r) as [Hb Hs] end; simpl in *; split; auto; congruence.
Qed.

(** C5.  A command that holds a configured blocked entry, case set
    aside, is denied: [safe] is false and [blocked] is true. *)
Theorem blocked_command_denied (cfg : SafetyConfig) (command entry : string)
    (Hin : In entry (blocked_commands cfg))
    (Hholds : holds_ignoring_case command entry) :
  safe (is_safe_command cfg command) = false
  /\ blocked (is_safe_command cfg command) = true.
Proof.
  destruct Hholds as (before & after & Hcut).
  assert (contains (lower entry) (lower command) = true) as Hc
    by (apply contains_spec; exists before, after; exact Hcut).
  unfold is_safe_command.
  destruct (check_blocked_hit (blocked_commands cfg) (lower command)
              (mk_result true [] false "") entry Hin Hc) as [Hs Hb].
  destruct (check_dangerous_keeps dangerous_patterns (lower command)
              (check_blocked (blocked_commands cfg) (lower command)
                 (mk_result true [] false ""))) as [Hb' Hs'].
  specialize (Hs' Hs). rewrite Hb in Hb'.
  generalize dependent (check_dangerous dangerous_patterns (lower command)
                          (check_blocked (blocked_commands cfg) (lower command)
                             (mk_result true [] false ""))).
  intros r2 Hb2 Hs2.
  destruct (existsb _ ["rm "; "del "; "rmdir "; "rd "]);
    destruct (existsb _ ["chmod "; "chown "; "attrib "]); simpl; auto.
Qed.

(** C5, on a shouted shutdown. *)
Lemma blocked_command_denied_witness :
  In "shutdown" (blocked_commands default_config)
  /\ holds_ignoring_case "sudo SHUTDOWN -h now" "shutdown"
  /\ safe (is_safe_command default_config "sudo SHUTDOWN -h now") = false
  /\ blocked (is_safe_command default_config "sudo SHUTDOWN -h now") = true.
Proof.
  assert (In "shutdown" (blocked_commands default_config)) as H1
    by (simpl; tauto).
  assert (holds_ignoring_case "sudo SHUTDOWN -h now" "shutdown") as H2
    by (exists "sudo ", " -h now"; reflexivity).
  exact (conj H1 (conj H2
    (blocked_command_denied default_config "sudo SHUTDOWN -h now" "shutdown" H1 H2))).
Defined.

Example shutdown_verdict :
  is_safe_command default_config "sudo SHUTDOWN -h now"
  = mk_result false ["Command contains dangerous pattern: shutdown"] true
              "Command contains blocked pattern: shutdown".
Proof. vm_compute. reflexivity. Qed.

Section Log.

Variable now : nat -> datetime.

Lemma last_n_length {A} (k : nat) (l : list A) :
  List.length (last_n k l) = Nat.min k (List.length l).
Proof. unfold last_n. rewrite length_skipn. lia. Qed.

Lemma last_n_all {A} (k : nat) (l : list A) :
  (List.length l <= k)%nat -> last_n k l = l.
Proof.
  intro H. unfold last_n.
  replace (List.length l - k)%nat with 0%nat by lia. reflexivity.
Qed.

Lemma log_action_records (ty desc : string)
    (det : option (list (string * string))) (m : Manager) :
  (List.length (action_log m) <= 1000)%nat ->
  action_log (_log_action now ty desc det m)
  = last_n 1000 (to_record now ty desc det m).
Proof.
  intro Hlen. unfold _log_action, to_record.
  destruct (log_all_actions (safety_config m)); simpl negb; cbv iota.
  - cbn [action_log].
    destruct (Nat.ltb_spec 1000 (List.length
      (action_log m ++
         [mk_entry (now (clock_reads m)) ty desc
            match det with Some d => d | None => [] end]))) as [H|H].
    + reflexivity.
    + symmetry. apply last_n_all. assumption.
  - symmetry. apply last_n_all. assumption.
Qed.

Lemma log_action_bound (ty desc : string)
    (det : option (list (string * string))) (m : Manager) :
  (List.length (action_log m) <= 1000)%nat ->
  (List.length (action_log (_log_action now ty desc det m)) <= 1000)%nat.
Proof.
  intro H. rewrite log_action_records by assumption.
  rewrite last_n_length. lia.
Qed.

Lemma reachable_bound (m : Manager) :
  reachable now m -> (List.length (action_log m) <= 1000)%nat.
Proof.
  induction 1 as [|m op _ IH].
  - simpl. lia.
  - destruct op as [d f i a|pth rsn found moved| |cfg]; simpl.
    + unfold confirm_dangerous_action.
      destruct (negb (confirm_dangerous_actions (safety_config m)) || f);
        [exact IH|].
      destruct (negb i); [apply log_action_bound; exact IH|].
      destruct (first_answer a); apply log_action_bound; exact IH.
    + unfold quarantine_file. destruct found; [|exact IH].
      destruct moved; [|exact IH].
      apply log_action_bound; exact IH.
    + lia.
    + exact IH.
Qed.

(** C10.  In every state the manager can reach, a call of [_log_action]
    leaves at most 1000 entries in [action_log], and so does every public
    operation; the entries kept are the last 1000 of what was to be
    recorded: what is dropped is dropped from the old end. *)
Theorem action_log_bounded (m : Manager) (ty desc : string)
    (det : option (list (string * string)))
    (Hreach : reachable now m) :
  (List.length (action_log (_log_action now ty desc det m)) <= 1000)%nat
  /\ (forall op, (List.length (action_log (apply now m op)) <= 1000)%nat)
  /\ action_log (_log_action now ty desc det m)
     = last_n 1000 (to_record now ty desc det m)
  /\ firstn (List.length (to_record now ty desc det m) - 1000)
            (to_record now ty desc det m)
       ++ action_log (_log_action now ty desc det m)
     = to_record now ty desc det m.
Proof.
  pose proof (reachable_bound m Hreach) as Hlen.
  split; [apply log_action_bound; assumption|].
  split; [intro op; apply reachable_bound, reach_apply; assumption|].
  split; [apply log_action_records; assumption|].
  rewrite log_action_records by assumption.
  unfold last_n. apply firstn_skipn.
Qed.

End Log.

(** C10, right after a confirmation request was logged. *)
Lemma action_log_bounded_witness :
  reachable tick_clock
    (apply tick_clock fresh (OpConfirm "delete the archive" false true []))
  /\ (List.length
        (action_log
           (_log_action tick_clock "QUARANTINE" "Moved a.exe to quarantine" None
              (apply tick_clock fresh
                 (OpConfirm "delete the archive" false true []))))
      <= 1000)%nat.
Proof.
  assert (reachable tick_clock
            (apply tick_clock fresh (OpConfirm "delete the archive" false true [])))
    as H by (apply reach_apply, reach_fresh).
  exact (conj H
    (proj1 (action_log_bounded tick_clock _ "QUARANTINE"
              "Moved a.exe to quarantine" None H))).
Defined.

End SafetyManagerProps.

(** ** The configuration store *)
Module ConfigManagerProps.

Import PyStr ConfigManager.

Lemma split_dot_nonempty (s : string) : split_dot s <> [].
Proof.
  destruct s as [|c s]; simpl; [discriminate|].
  destruct (Ascii.eqb c "."); [discriminate|].
  destruct (split_dot s); discriminate.
Qed.

Lemma lookup_assign (k : string) (v : value) (d : list (string * value)) :
  lookup k (assign k v d) = Some v.
Proof.
  induction d as [|[k' old] rest IH]; simpl.
  - rewrite String.eqb_refl. reflexivity.
  - destruct (k' =? k)%string eqn:E; simpl; rewrite E; auto.
Qed.

(** A walk that ends well leaves the value where [get] looks for it. *)
Lemma set_walk_get (parents : list string) (last_key : string) (v default : value) :
  forall config config',
    set_walk parents last_key v config = (true, config') ->
    get_loop (parents ++ [last_key]) config' default = v.
Proof.
  induction parents as [|k rest IH]; intros config config' H; simpl in H.
  - destruct config; simpl in H; try discriminate.
    inversion H; subst. simpl. rewrite lookup_assign. reflexivity.
  - destruct config as [| | | | s|l|d]; simpl in H; try discriminate.
    + destruct (contains k s); discriminate.
    + destruct (existsb (is_str k) l); discriminate.
    + destruct (lookup k d) as [child|] eqn:E; simpl in H.
      * rewrite E in H.
        destruct (set_walk rest last_key v child) as [ok child'] eqn:Ew.
        inversion H; subst. simpl. rewrite lookup_assign.
        apply (IH child). assumption.
      * rewrite lookup_assign in H.
        destruct (set_walk rest last_key v (VDict [])) as [ok child'] eqn:Ew.
        inversion H; subst. simpl. rewrite lookup_assign.
        apply (IH (VDict [])). assumption.
Qed.

(** C6.  After [set(key, value)] has returned [True], [get(key)] returns
    that value, whatever default it is given. *)
Theorem get_after_set (config config' : value) (key : string) (v default : value)
    (Hset : set config key v = (true, config')) :
  get config' key default = v.
Proof.
  unfold get, set in *.
  rewrite (app_removelast_last EmptyString (split_dot_nonempty key)).
  apply (set_walk_get _ _ _ _ config). exact Hset.
Qed.

(** C6, for a key whose middle part has to be created. *)
Lemma get_after_set_witness :
  set sample_config "email.smtp.port" (VInt 587)
  = (true,
     VDict [("agent", VDict [("name", VStr "Ultimate AI Agent")]);
            ("email", VDict [("enabled", VBool false);
                             ("smtp", VDict [("port", VInt 587)])])])
  /\ get (VDict [("agent", VDict [("name", VStr "Ultimate AI Agent")]);
                 ("email", VDict [("enabled", VBool false);
                                  ("smtp", VDict [("port", VInt 587)])])])
         "email.smtp.port" VNone
     = VInt 587.
Proof.
  assert (set sample_config "email.smtp.port" (VInt 587)
          = (true,
             VDict [("agent", VDict [("name", VStr "Ultimate AI Agent")]);
                    ("email", VDict [("enabled", VBool false);
                                     ("smtp", VDict [("port", VInt 587)])])]))
    as H by reflexivity.
  exact (conj H (get_after_set _ _ _ _ VNone H)).
Defined.

(** A path through a value that is not a dict makes [set] answer
    [False] and leaves the document alone. *)
Example set_through_string :
  set sample_config "agent.name.first" (VStr "Ultimate")
  = (false, sample_config).
Proof. reflexivity. Qed.

End ConfigManagerProps.

(** ** Bulk mail *)
Module EmailAutomationProps.

Import EmailAutomation.

(** [time] is not among the names the module binds. *)
Lemma time_sleep_raises (delay : Z) : time_sleep delay = Raises.
Proof. reflexivity. Qed.

Section Facts.

Variable send_email : string -> nat -> bool.

Lemma send_loop_without_delay (recipients : list string) (delay : Z) :
  delay <= 0 ->
  forall res n,
    let res' := fst (send_loop send_email recipients delay res n) in
    (forall r, count_occ string_dec (success res' ++ failed res') r
               = (count_occ string_dec (success res ++ failed res) r
                  + count_occ string_dec recipients r)%nat)
    /\ total res' = total res
    /\ snd (send_loop send_email recipients delay res n)
       = (n + List.length recipients)%nat.
Proof.
  intro Hd. induction recipients as [|x rest IH]; intros res n; simpl.
  - repeat split; try (intro r; lia); auto.
  - unfold bind, send_one.
    replace (0 <? delay) with false by (symmetry; apply Z.ltb_ge; assumption).
    match goal with |- context [send_loop send_email rest delay ?r ?m] =>
      destruct (IH r m) as (Hc & Ht & Hn) end.
    repeat split.
    + intro r. rewrite Hc.
      destruct (send_email x n); simpl;
        rewrite !count_occ_app; simpl; destruct (string_dec x r); lia.
    + rewrite Ht. destruct (send_email x n); reflexivity.
    + rewrite Hn. lia.
Qed.

(** With no delay asked for, the tally is as the specification has it and
    every recipient is tried once. *)
Lemma send_bulk_email_without_delay (recipients : list string) (delay : Z) (n : nat) :
  delay <= 0 ->
  tallied recipients (fst (send_bulk_email send_email recipients delay n))
  /\ sends send_email recipients delay n = List.length recipients.
Proof.
  intro Hd. unfold send_bulk_email, sends, tallied.
  destruct (send_loop_without_delay recipients delay Hd
              (mk_bulk [] [] (List.length recipients)) n) as (Hc & Ht & Hn).
  repeat split.
  - intro r. rewrite Hc. reflexivity.
  - exact Ht.
  - unfold send_bulk_email in *. rewrite Hn. lia.
Qed.

End Facts.

(** C8 fails on the code.  With the default delay of one second, a
    recipient whose mail was sent is filed under [success] and under
    [failed]: the tally does not hold. *)
Theorem send_bulk_email_default_delay_tally :
  fst (send_bulk_email always_sent ["ops@example.com"] 1 0%nat)
  = mk_bulk ["ops@example.com"] ["ops@example.com"] 1%nat
  /\ ~ tallied ["ops@example.com"]
         (fst (send_bulk_email always_sent ["ops@example.com"] 1 0%nat)).
Proof.
  split; [reflexivity|].
  intros [Hc _]. specialize (Hc "ops@example.com").
  vm_compute in Hc. discriminate.
Qed.

(** The same call with [delay=0] files the recipient once. *)
Example send_bulk_email_zero_delay :
  fst (send_bulk_email always_sent ["ops@example.com"] 0 0%nat)
  = mk_bulk ["ops@example.com"] [] 1%nat.
Proof. reflexivity. Qed.

End EmailAutomationProps.

(** ** The configuration store: deletion, updates and what [set] leaves
    alone *)
Module ConfigManagerExtra.

Import PyStr ConfigManager ConfigManagerProps.

Lemma lookup_assign_other (k k' : string) (v : value) (d : list (string * value)) :
  k' <> k -> lookup k' (assign k v d) = lookup k' d.
Proof.
  intro Hne. induction d as [|[j old] rest IH]; simpl.
  - destruct (String.eqb_spec k k'); [congruence | reflexivity].
  - destruct (String.eqb_spec j k) as [->|Hjk]; simpl.
    + destruct (String.eqb_spec k k'); [congruence | reflexivity].
    + destruct (j =? k')%string; [reflexivity | exact IH].
Qed.

Lemma assign_same (k : string) (v : value) (d : list (string * value)) :
  lookup k d = Some v -> assign k v d = d.
Proof.
  induction d as [|[j old] rest IH]; simpl; [discriminate|].
  destruct (j =? k)%string; intro H.
  - inversion H. reflexivity.
  - rewrite IH by assumption. reflexivity.
Qed.

Lemma lookup_none_keys (k : string) (d : list (string * value)) :
  ~ In k (map fst d) -> lookup k d = None.
Proof.
  induction d as [|[j x] rest IH]; simpl; [reflexivity|].
  intro H. destruct (String.eqb_spec j k); [tauto|]. apply IH. tauto.
Qed.

Lemma lookup_remove_key (k : string) (d : list (string * value)) :
  NoDup (map fst d) -> lookup k (remove_key k d) = None.
Proof.
  induction d as [|[j x] rest IH]; simpl; [reflexivity|].
  intro Hnd. inversion Hnd as [|? ? Hnot Hnd']; subst.
  destruct (String.eqb_spec j k) as [->|Hne]; simpl.
  - apply lookup_none_keys. assumption.
  - destruct (String.eqb_spec j k); [congruence|]. apply IH. assumption.
Qed.

Lemma lookup_remove_other (k k' : string) (d : list (string * value)) :
  k' <> k -> lookup k' (remove_key k d) = lookup k' d.
Proof.
  intro Hne. induction d as [|[j x] rest IH]; simpl; [reflexivity|].
  destruct (String.eqb_spec j k) as [->|Hjk]; simpl.
  - destruct (String.eqb_spec k k'); [congruence | reflexivity].
  - destruct (j =? k')%string; [reflexivity | exact IH].
Qed.

Lemma get_loop_resolve (keys : list string) (default : value) :
  forall v,
    get_loop keys v default
    = match resolve keys v with Some x => x | None => default end.
Proof.
  induction keys as [|k rest IH]; intro v; simpl; [reflexivity|].
  destruct v; try reflexivity.
  destruct (lookup k items); [apply IH | reflexivity].
Qed.

Lemma split_dot_parts (key : string) :
  split_dot key = removelast (split_dot key) ++ [last (split_dot key) EmptyString].
Proof. apply app_removelast_last, split_dot_nonempty. Qed.

(** *** Deleting *)

Lemma delete_walk_resolve (parents : list string) (last_key : string) :
  forall config,
    fst (delete_walk parents last_key config) = true
    <-> resolve (parents ++ [last_key]) config <> None.
Proof.
  induction parents as [|k rest IH]; intro config; simpl.
  - destruct config; simpl; try (split; [discriminate | congruence]).
    destruct (lookup last_key items); simpl; split; congruence.
  - destruct config; simpl; try (split; [discriminate | congruence]).
    destruct (lookup k items) as [child|]; simpl; [|split; congruence].
    specialize (IH child).
    destruct (delete_walk rest last_key child) as [ok child']. exact IH.
Qed.


Lemma delete_walk_failed (parents : list string) (last_key : string) :
  forall config config',
    delete_walk parents last_key config = (false, config') -> config' = config.
Proof.
  induction parents as [|k rest IH]; intros config config' H; simpl in H.
  - destruct config; try (inversion H; reflexivity).
    destruct (lookup last_key items); inversion H; reflexivity.
  - destruct config; try (inversion H; reflexivity).
    destruct (lookup k items) as [child|] eqn:E; [|inversion H; reflexivity].
    destruct (delete_walk rest last_key child) as [ok child'] eqn:Ew.
    inversion H; subst.
    rewrite (IH child child' Ew). rewrite assign_same by assumption. reflexivity.
Qed.

(** X1.  [delete(key)] answers [True] exactly for a key that leads to a
    value (every part of the key but the last names a dict holding the next
    part), and a [delete] that answers [False] leaves the document as it
    was. *)
Theorem delete_succeeds_iff_present (config : value) (key : string) :
  (fst (delete config key) = true <-> resolve (split_dot key) config <> None)
  /\ (fst (delete config key) = false -> snd (delete config key) = config).
Proof.
  split.
  - unfold delete.
    pose proof (delete_walk_resolve (removelast (split_dot key))
                  (last (split_dot key) EmptyString) config) as H.
    rewrite <- split_dot_parts in H. exact H.
  - unfold delete.
    destruct (delete_walk (removelast (split_dot key))
                (last (split_dot key) EmptyString) config) as [ok c'] eqn:E.
    simpl. intros ->. exact (delete_walk_failed _ _ _ _ E).
Qed.

Lemma well_keyed_dict (d : list (string * value)) :
  well_keyed (VDict d)
  <-> NoDup (map fst d) /\ Forall (fun kv => well_keyed (snd kv)) d.
Proof.
  simpl. split; intros [Hnd Hall]; split; try assumption; clear Hnd.
  - induction d as [|[k x] rest IH]; constructor; simpl in *; tauto.
  - induction Hall as [|[k x] rest Hx _ IH]; simpl; auto.
Qed.

Lemma well_keyed_child (k : string) (d : list (string * value)) (child : value) :
  well_keyed (VDict d) -> lookup k d = Some child -> well_keyed child.
Proof.
  rewrite well_keyed_dict. intros [_ Hall].
  induction Hall as [|[j x] rest Hx _ IH]; simpl; [discriminate|].
  destruct (j =? k)%string; intro H; [inversion H; subst; exact Hx | auto].
Qed.

Lemma delete_walk_get (parents : list string) (last_key : string) (default : value) :
  forall config config',
    well_keyed config ->
    delete_walk parents last_key config = (true, config') ->
    get_loop (parents ++ [last_key]) config' default = default.
Proof.
  induction parents as [|k rest IH]; intros config config' Hwk H; simpl in H.
  - destruct config; try discriminate.
    destruct (lookup last_key items); [|discriminate].
    inversion H; subst. simpl.
    rewrite lookup_remove_key; [reflexivity|].
    apply well_keyed_dict in Hwk. apply Hwk.
  - destruct config; try discriminate.
    destruct (lookup k items) as [child|] eqn:E; [|discriminate].
    destruct (delete_walk rest last_key child) as [ok child'] eqn:Ew.
    inversion H; subst. simpl. rewrite lookup_assign.
    apply (IH child); [|assumption].
    apply (well_keyed_child k items); assumption.
Qed.

(** X2.  After [delete(key)] has answered [True] on a document whose
    dicts hold each key once, [get(key, default)] answers the default. *)
Theorem get_after_delete (config config' : value) (key : string) (default : value)
    (Hwk : well_keyed config)
    (Hdel : delete config key = (true, config')) :
  get config' key default = default.
Proof.
  unfold get. rewrite split_dot_parts.
  apply (delete_walk_get _ _ _ config); assumption.
Qed.

(** *** What [set] changes and what it leaves *)

Lemma set_walk_into_empty (parents : list string) (last_key : string) (v : value) :
  fst (set_walk parents last_key v (VDict [])) = true.
Proof.
  induction parents as [|k rest IH]; simpl; [reflexivity|].
  rewrite String.eqb_refl.
  destruct (set_walk rest last_key v (VDict [])) as [ok child']. exact IH.
Qed.

Lemma set_walk_failed (parents : list string) (last_key : string) (v : value) :
  forall config config',
    set_walk parents last_key v config = (false, config') -> config' = config.
Proof.
  induction parents as [|k rest IH]; intros config config' H; simpl in H.
  - destruct config; simpl in H; inversion H; reflexivity.
  - destruct config as [| | | | s|l|d]; simpl in H;
      try (inversion H; reflexivity).
    + destruct (contains k s); simpl in H; inversion H; reflexivity.
    + destruct (existsb (is_str k) l); simpl in H; inversion H; reflexivity.
    + destruct (lookup k d) as [child|] eqn:E; simpl in H.
      * rewrite E in H.
        destruct (set_walk rest last_key v child) as [ok child'] eqn:Ew.
        inversion H; subst.
        rewrite (IH child child' Ew). rewrite assign_same by assumption.
        reflexivity.
      * rewrite lookup_assign in H.
        pose proof (set_walk_into_empty rest last_key v) as Hok.
        destruct (set_walk rest last_key v (VDict [])) as [ok child'].
        simpl in Hok. inversion H; subst. discriminate.
Qed.

(** X3.  A [set] that answers [False] (the key runs through a value
    that is not a dict) leaves the document as it was. *)
Theorem failed_set_changes_nothing (config config' : value) (key : string)
    (v : value) (Hset : set config key v = (false, config')) :
  config' = config.
Proof. exact (set_walk_failed _ _ _ _ _ Hset). Qed.

Lemma part_ways_cons (k : string) (l1 l2 : list string) :
  part_ways (k :: l1) l2 ->
  (exists b r2, b <> k /\ l2 = b :: r2)
  \/ (exists l2', l2 = k :: l2' /\ part_ways l1 l2').
Proof.
  intros (common & a & b & r1 & r2 & Hab & H1 & H2).
  destruct common as [|c common]; simpl in *.
  - inversion H1; subst. left. exists b, r2. auto.
  - inversion H1; subst. right. exists (common ++ b :: r2). split; [reflexivity|].
    exists common, a, b, r1, r2. auto.
Qed.

Lemma part_ways_nonempty (l1 l2 : list string) : part_ways l1 l2 -> l2 <> [].
Proof.
  intros (common & a & b & r1 & r2 & _ & _ & ->).
  destruct common; discriminate.
Qed.

Lemma get_loop_empty_dict (keys : list string) (default : value) :
  keys <> [] -> get_loop keys (VDict []) default = default.
Proof. destruct keys; [congruence | reflexivity]. Qed.

Lemma set_walk_elsewhere (parents : list string) (last_key : string)
    (v default : value) :
  forall config config' other,
    set_walk parents last_key v config = (true, config') ->
    part_ways (parents ++ [last_key]) other ->
    get_loop other config' default = get_loop other config default.
Proof.
  induction parents as [|k rest IH]; intros config config' other H Hpw;
    simpl in H, Hpw.
  - destruct config; simpl in H; try discriminate. inversion H; subst.
    destruct (part_ways_cons _ _ _ Hpw) as [(b & r2 & Hb & ->)|(l2' & -> & Hpw')].
    + simpl. rewrite lookup_assign_other by assumption. reflexivity.
    + destruct Hpw' as (common & a & b & r1 & r2 & _ & Hnil & _).
      destruct common; discriminate.
  - destruct config as [| | | | s|l|d]; simpl in H; try discriminate.
    + destruct (contains k s); discriminate.
    + destruct (existsb (is_str k) l); discriminate.
    + destruct (lookup k d) as [child|] eqn:E; simpl in H.
      * rewrite E in H.
        destruct (set_walk rest last_key v child) as [ok child'] eqn:Ew.
        inversion H; subst.
        destruct (part_ways_cons _ _ _ Hpw) as [(b & r2 & Hb & ->)|(l2' & -> & Hpw')].
        -- simpl. rewrite lookup_assign_other by assumption. reflexivity.
        -- simpl. rewrite lookup_assign, E. apply (IH child); assumption.
      * rewrite lookup_assign in H.
        destruct (set_walk rest last_key v (VDict [])) as [ok child'] eqn:Ew.
        inversion H; subst.
        destruct (part_ways_cons _ _ _ Hpw) as [(b & r2 & Hb & ->)|(l2' & -> & Hpw')].
        -- simpl. rewrite !lookup_assign_other by assumption. reflexivity.
        -- simpl. rewrite lookup_assign, E.
           rewrite (IH (VDict []) child' l2' Ew Hpw').
           apply get_loop_empty_dict. apply (part_ways_nonempty _ _ Hpw').
Qed.

(** X4.  A [set] that answers [True] changes what [get] answers only
    along its own key: for a key that parts ways with it (neither runs
    through the other), [get] answers as before. *)
Theorem set_leaves_other_keys (config config' : value) (key other : string)
    (v default : value)
    (Hset : set config key v = (true, config'))
    (Hapart : part_ways (split_dot key) (split_dot other)) :
  get config' other default = get config other default.
Proof.
  unfold get. rewrite (split_dot_parts key) in Hapart.
  exact (set_walk_elsewhere _ _ _ _ _ _ _ Hset Hapart).
Qed.

Lemma assign_keys (k : string) (v : value) (d : list (string * value)) :
  NoDup (map fst d) -> NoDup (map fst (assign k v d)).
Proof.
  assert (forall x, In x (map fst (assign k v d)) -> x = k \/ In x (map fst d))
    as Hin.
  { induction d as [|[j old] rest IH]; simpl.
    - intros x [<-|[]]. auto.
    - destruct (String.eqb_spec j k); simpl; intros x [<-|Hx]; auto.
      destruct (IH x Hx); auto. }
  induction d as [|[j old] rest IH]; simpl; intro Hnd.
  - constructor; [simpl; tauto | constructor].
  - inversion Hnd as [|? ? Hnot Hnd']; subst.
    destruct (String.eqb_spec j k) as [->|Hne]; simpl.
    + constructor; assumption.
    + constructor.
      * intro Hc.
        assert (forall x, In x (map fst (assign k v rest)) ->
                          x = k \/ In x (map fst rest)) as Hin'.
        { clear. induction rest as [|[j2 o2] rest IH]; simpl.
          - intros x [<-|[]]. auto.
          - destruct (String.eqb_spec j2 k); simpl; intros x [<-|Hx]; auto.
            destruct (IH x Hx); auto. }
        destruct (Hin' _ Hc); [congruence | contradiction].
      * apply IH; [|assumption].
        intros x Hx. clear - Hx.
        induction rest as [|[j2 o2] rest IH]; simpl in *.
        -- destruct Hx as [<-|[]]. auto.
        -- destruct (String.eqb_spec j2 k); simpl in *; destruct Hx as [<-|Hx]; auto.
           destruct (IH Hx); auto.
Qed.

Lemma assign_well_keyed (k : string) (v : value) (d : list (string * value)) :
  well_keyed (VDict d) -> well_keyed v -> well_keyed (VDict (assign k v d)).
Proof.
  rewrite !well_keyed_dict. intros [Hnd Hall] Hv. split.
  - apply assign_keys. assumption.
  - clear Hnd. induction Hall as [|[j x] rest Hx Hrest IH]; simpl.
    + constructor; [exact Hv | constructor].
    + destruct (j =? k)%string; constructor; auto.
Qed.

Lemma set_walk_well_keyed (parents : list string) (last_key : string) (v : value) :
  well_keyed v ->
  forall config,
    well_keyed config ->
    well_keyed (snd (set_walk parents last_key v config)).
Proof.
  intro Hv. induction parents as [|k rest IH]; intros config Hwk.
  - destruct config; try exact Hwk.
    apply assign_well_keyed; assumption.
  - destruct config as [| | | | s|l|d]; try exact Hwk.
    + simpl. destruct (contains k s); exact Hwk.
    + simpl. destruct (existsb (is_str k) l); exact Hwk.
    + cbn [set_walk py_contains].
      destruct (lookup k d) as [child|] eqn:E.
      * cbn [py_getitem]. rewrite E.
        pose proof (IH child (well_keyed_child k d child Hwk E)) as Hc.
        destruct (set_walk rest last_key v child) as [ok child'].
        cbn [py_setitem snd] in *. apply assign_well_keyed; assumption.
      * cbn [py_setitem py_getitem]. rewrite lookup_assign.
        assert (well_keyed (VDict [])) as He by (simpl; split; [constructor|exact I]).
        pose proof (IH (VDict []) He) as Hc.
        destruct (set_walk rest last_key v (VDict [])) as [ok child'].
        cbn [snd] in *.
        apply assign_well_keyed; [|assumption].
        apply assign_well_keyed; assumption.
Qed.

(** X5.  [set] keeps the document well keyed: if every dict of the
    document and of the value holds each key once, so does every dict of
    the document afterwards, whether [set] answered [True] or [False]. *)
Theorem set_keeps_well_keyed (config : value) (key : string) (v : value)
    (Hwk : well_keyed config) (Hv : well_keyed v) :
  well_keyed (snd (set config key v)).
Proof. unfold set. apply set_walk_well_keyed; assumption. Qed.

Lemma set_walk_again (parents : list string) (last_key : string) (v w : value) :
  forall config config',
    set_walk parents last_key v config = (true, config') ->
    fst (set_walk parents last_key w config') = true.
Proof.
  induction parents as [|k rest IH]; intros config config' H; simpl in H.
  - destruct config; simpl in H; try discriminate. inversion H. reflexivity.
  - destruct config as [| | | | s|l|d]; simpl in H; try discriminate.
    + destruct (contains k s); discriminate.
    + destruct (existsb (is_str k) l); discriminate.
    + assert (forall child child' d0,
                set_walk rest last_key v child = (true, child') ->
                fst (set_walk (k :: rest) last_key w
                       (VDict (assign k child' d0))) = true) as Hstep.
      { intros child child' d0 Hw. simpl. rewrite lookup_assign. simpl.
        rewrite lookup_assign.
        pose proof (IH child child' Hw) as Hok.
        destruct (set_walk rest last_key w child') as [ok c2]. exact Hok. }
      destruct (lookup k d) as [child|] eqn:E; simpl in H.
      * rewrite E in H.
        destruct (set_walk rest last_key v child) as [ok child'] eqn:Ew.
        inversion H; subst. apply (Hstep child). assumption.
      * rewrite lookup_assign in H.
        destruct (set_walk rest last_key v (VDict [])) as [ok child'] eqn:Ew.
        inversion H; subst. apply (Hstep (VDict [])). assumption.
Qed.

(** X6.  Where [set(key, v)] has answered [True], a second
    [set(key, w)] answers [True] as well, and [get(key)] then answers
    [w]: the later value wins. *)
Theorem set_again_overwrites (config config' : value) (key : string)
    (v w default : value)
    (Hset : set config key v = (true, config')) :
  fst (set config' key w) = true
  /\ get (snd (set config' key w)) key default = w.
Proof.
  pose proof (set_walk_again _ _ _ w _ _ Hset) as Hok.
  split; [exact Hok|].
  unfold get, set in *.
  destruct (set_walk (removelast (split_dot key))
              (last (split_dot key) EmptyString) w config') as [ok c2] eqn:E.
  simpl in Hok. subst ok. cbn [snd].
  rewrite (split_dot_parts key).
  apply (set_walk_get _ _ _ _ config'). exact E.
Qed.

(** X7.  A value put in by [set] is taken out by [delete]: on a well
    keyed document, after [set(key, v)] has answered [True], [delete(key)]
    answers [True] and [get(key, default)] then answers the default. *)
Theorem delete_after_set (config config' : value) (key : string) (v default : value)
    (Hwk : well_keyed config) (Hv : well_keyed v)
    (Hset : set config key v = (true, config')) :
  fst (delete config' key) = true
  /\ get (snd (delete config' key)) key default = default.
Proof.
  assert (resolve (split_dot key) config' = Some v) as Hres.
  { pose proof (set_walk_get _ _ _ (VStr "a") _ _ Hset) as Ha.
    pose proof (set_walk_get _ _ _ (VStr "b") _ _ Hset) as Hb.
    rewrite <- split_dot_parts in Ha, Hb.
    rewrite get_loop_resolve in Ha, Hb.
    destruct (resolve (split_dot key) config'); congruence. }
  assert (well_keyed config') as Hwk'.
  { pose proof (set_walk_well_keyed (removelast (split_dot key))
                  (last (split_dot key) EmptyString) v Hv config Hwk) as H.
    unfold set in Hset. rewrite Hset in H. exact H. }
  assert (fst (delete config' key) = true) as Hok.
  { unfold delete. apply delete_walk_resolve.
    rewrite <- split_dot_parts, Hres. discriminate. }
  split; [exact Hok|].
  unfold delete, get in *.
  destruct (delete_walk (removelast (split_dot key))
              (last (split_dot key) EmptyString) config') as [ok c2] eqn:E.
  simpl in Hok. subst ok. cbn [snd]. rewrite (split_dot_parts key).
  apply (delete_walk_get _ _ _ config'); assumption.
Qed.

(** X8.  [update] answers [True] whatever becomes of its items: an item
    whose [set] fails is passed over and the document is as the other
    items leave it. *)
Theorem update_passes_over_failures (config : value)
    (before after : list (string * value)) (key : string) (v : value)
    (Hfail : fst (set (snd (update config before)) key v) = false) :
  update config (before ++ (key, v) :: after) = update config (before ++ after).
Proof.
  unfold update in *. f_equal. rewrite !fold_left_app. simpl in *.
  destruct (set (fold_left (fun c kv => snd (set c (fst kv) (snd kv))) before config)
              key v) as [ok c'] eqn:E.
  simpl in Hfail. subst ok.
  rewrite (set_walk_failed _ _ _ _ _ E). reflexivity.
Qed.

(** X1, on a key that is there and on one that is not. *)
Lemma delete_succeeds_iff_present_witness :
  resolve (split_dot "agent.name") sample_config <> None
  /\ fst (delete sample_config "agent.name") = true
  /\ fst (delete sample_config "agent.title") = false
  /\ snd (delete sample_config "agent.title") = sample_config.
Proof.
  assert (resolve (split_dot "agent.name") sample_config <> None) as H1
    by (vm_compute; discriminate).
  assert (fst (delete sample_config "agent.title") = false) as H2 by reflexivity.
  exact (conj H1
    (conj (proj2 (proj1 (delete_succeeds_iff_present sample_config "agent.name")) H1)
    (conj H2
      (proj2 (delete_succeeds_iff_present sample_config "agent.title") H2)))).
Defined.

Lemma sample_config_well_keyed : well_keyed sample_config.
Proof.
  simpl. repeat split; repeat constructor; simpl; intuition discriminate.
Defined.

(** X2, on the name of the agent. *)
Lemma get_after_delete_witness :
  well_keyed sample_config
  /\ delete sample_config "agent.name"
     = (true, VDict [("agent", VDict []);
                     ("email", VDict [("enabled", VBool false)])])
  /\ get (VDict [("agent", VDict []);
                 ("email", VDict [("enabled", VBool false)])])
         "agent.name" (VStr "unknown")
     = VStr "unknown".
Proof.
  assert (delete sample_config "agent.name"
          = (true, VDict [("agent", VDict []);
                          ("email", VDict [("enabled", VBool false)])])) as H
    by reflexivity.
  exact (conj sample_config_well_keyed (conj H
    (get_after_delete _ _ _ (VStr "unknown") sample_config_well_keyed H))).
Defined.

(** X3, on a key that runs through the agent's name. *)
Lemma failed_set_changes_nothing_witness :
  set sample_config "agent.name.first" (VStr "Ultimate") = (false, sample_config)
  /\ sample_config = sample_config.
Proof.
  assert (set sample_config "agent.name.first" (VStr "Ultimate")
          = (false, sample_config)) as H by reflexivity.
  exact (conj H (failed_set_changes_nothing _ _ _ _ H)).
Defined.

(** X4: setting the mail port leaves the mail switch alone. *)
Lemma set_leaves_other_keys_witness :
  set sample_config "email.smtp.port" (VInt 587)
  = (true,
     VDict [("agent", VDict [("name", VStr "Ultimate AI Agent")]);
            ("email", VDict [("enabled", VBool false);
                             ("smtp", VDict [("port", VInt 587)])])])
  /\ part_ways (split_dot "email.smtp.port") (split_dot "email.enabled")
  /\ get (VDict [("agent", VDict [("name", VStr "Ultimate AI Agent")]);
                 ("email", VDict [("enabled", VBool false);
                                  ("smtp", VDict [("port", VInt 587)])])])
         "email.enabled" VNone
     = get sample_config "email.enabled" VNone.
Proof.
  assert (set sample_config "email.smtp.port" (VInt 587)
          = (true,
             VDict [("agent", VDict [("name", VStr "Ultimate AI Agent")]);
                    ("email", VDict [("enabled", VBool false);
                                     ("smtp", VDict [("port", VInt 587)])])]))
    as H1 by reflexivity.
  assert (part_ways (split_dot "email.smtp.port") (split_dot "email.enabled"))
    as H2.
  { exists ["email"], "smtp", "enabled", ["port"], [].
    split; [discriminate | split; reflexivity]. }
  exact (conj H1 (conj H2
    (set_leaves_other_keys _ _ _ _ _ VNone H1 H2))).
Defined.

(** X5, for the mail port. *)
Lemma set_keeps_well_keyed_witness :
  well_keyed sample_config
  /\ well_keyed (VInt 587)
  /\ well_keyed (snd (set sample_config "email.smtp.port" (VInt 587))).
Proof.
  exact (conj sample_config_well_keyed (conj (I : well_keyed (VInt 587))
    (set_keeps_well_keyed sample_config "email.smtp.port" (VInt 587)
       sample_config_well_keyed I))).
Defined.

(** X6: the port set to 587, then to 465. *)
Lemma set_again_overwrites_witness :
  set sample_config "email.smtp.port" (VInt 587)
  = (true,
     VDict [("agent", VDict [("name", VStr "Ultimate AI Agent")]);
            ("email", VDict [("enabled", VBool false);
                             ("smtp", VDict [("port", VInt 587)])])])
  /\ fst (set (VDict [("agent", VDict [("name", VStr "Ultimate AI Agent")]);
                      ("email", VDict [("enabled", VBool false);
                                       ("smtp", VDict [("port", VInt 587)])])])
             "email.smtp.port" (VInt 465)) = true
  /\ get (snd (set (VDict [("agent", VDict [("name", VStr "Ultimate AI Agent")]);
                           ("email", VDict [("enabled", VBool false);
                                            ("smtp", VDict [("port", VInt 587)])])])
                  "email.smtp.port" (VInt 465)))
         "email.smtp.port" VNone
     = VInt 465.
Proof.
  assert (set sample_config "email.smtp.port" (VInt 587)
          = (true,
             VDict [("agent", VDict [("name", VStr "Ultimate AI Agent")]);
                    ("email", VDict [("enabled", VBool false);
                                     ("smtp", VDict [("port", VInt 587)])])]))
    as H by reflexivity.
  exact (conj H (set_again_overwrites _ _ _ _ (VInt 465) VNone H)).
Defined.

(** X7: the port set, then deleted. *)
Lemma delete_after_set_witness :
  well_keyed sample_config
  /\ well_keyed (VInt 587)
  /\ set sample_config "email.smtp.port" (VInt 587)
     = (true,
        VDict [("agent", VDict [("name", VStr "Ultimate AI Agent")]);
               ("email", VDict [("enabled", VBool false);
                                ("smtp", VDict [("port", VInt 587)])])])
  /\ fst (delete (VDict [("agent", VDict [("name", VStr "Ultimate AI Agent")]);
                         ("email", VDict [("enabled", VBool false);
                                          ("smtp", VDict [("port", VInt 587)])])])
                 "email.smtp.port") = true.
Proof.
  assert (set sample_config "email.smtp.port" (VInt 587)
          = (true,
             VDict [("agent", VDict [("name", VStr "Ultimate AI Agent")]);
                    ("email", VDict [("enabled", VBool false);
                                     ("smtp", VDict [("port", VInt 587)])])]))
    as H by reflexivity.
  exact (conj sample_config_well_keyed (conj (I : well_keyed (VInt 587)) (conj H
    (proj1 (delete_after_set sample_config _ "email.smtp.port" (VInt 587) VNone
              sample_config_well_keyed I H))))).
Defined.

(** X8: an update whose middle item cannot be set. *)
Lemma update_passes_over_failures_witness :
  fst (set (snd (update sample_config [("email.enabled", VBool true)]))
           "agent.name.first" (VStr "Ultimate")) = false
  /\ update sample_config
       ([("email.enabled", VBool true)]
        ++ ("agent.name.first", VStr "Ultimate") :: [("version", VStr "1.0.0")])
     = update sample_config
         ([("email.enabled", VBool true)] ++ [("version", VStr "1.0.0")]).
Proof.
  assert (fst (set (snd (update sample_config [("email.enabled", VBool true)]))
                   "agent.name.first" (VStr "Ultimate")) = false) as H
    by reflexivity.
  exact (conj H
    (update_passes_over_failures sample_config [("email.enabled", VBool true)]
       [("version", VStr "1.0.0")] "agent.name.first" (VStr "Ultimate") H)).
Defined.

End ConfigManagerExtra.

(** ** The safety gate: the whole verdict, the file checks, the log
    window *)
Module SafetyManagerExtra.

Import PyStr SafetyManager SafetyManagerProps.

Lemma check_blocked_first (entries : list string) (command_lower : string) :
  check_blocked entries command_lower (mk_result true [] false "")
  = match find (fun e => contains (lower e) command_lower) entries with
    | Some e =>
        mk_result false [] true ("Command contains blocked pattern: " ++ e)%string
    | None => mk_result true [] false ""
    end.
Proof.
  induction entries as [|e rest IH]; simpl; [reflexivity|].
  destruct (contains (lower e) command_lower); [reflexivity | exact IH].
Qed.

Lemma check_dangerous_verdict (patterns : list string) (command_lower : string) :
  forall res,
    let res' := check_dangerous patterns command_lower res in
    blocked res' = blocked res
    /\ reason res' = reason res
    /\ safe res'
       = safe res
         && (blocked res
             || negb (existsb (fun p => contains p command_lower) patterns)).
Proof.
  induction patterns as [|p rest IH]; intro res; simpl.
  - repeat split. destruct (safe res), (blocked res); reflexivity.
  - destruct (contains p command_lower); simpl.
    + destruct (blocked res) eqn:Eb; simpl;
        match goal with |- context [check_dangerous rest command_lower ?r] =>
          destruct (IH r) as (Hb & Hr & Hs) end;
        simpl in *; rewrite Hb, Hr, Hs, ?Eb; simpl; repeat split;
        rewrite ?andb_false_r, ?andb_true_r; try reflexivity.
    + apply IH.
Qed.

(** X9.  The whole verdict of [is_safe_command]: the command is blocked
    exactly when it holds a configured entry, the reason names the first
    such entry in the configured order, and the command is judged safe
    exactly when it holds neither a configured entry nor a dangerous
    pattern; the warnings on deletion and permissions deny nothing. *)
Theorem is_safe_command_verdict (cfg : SafetyConfig) (command : string) :
  blocked (is_safe_command cfg command)
  = match first_hit cfg command with Some _ => true | None => false end
  /\ reason (is_safe_command cfg command)
     = match first_hit cfg command with
       | Some e => ("Command contains blocked pattern: " ++ e)%string
       | None => ""
       end
  /\ safe (is_safe_command cfg command)
     = match first_hit cfg command with
       | Some _ => false
       | None => negb (dangerous command)
       end.
Proof.
  unfold is_safe_command, first_hit, dangerous.
  rewrite check_blocked_first.
  set (hit := find (fun e => contains (lower e) (lower command))
                   (blocked_commands cfg)).
  match goal with |- context [check_dangerous ?ps ?cl ?r] =>
    destruct (check_dangerous_verdict ps cl r) as (Hb & Hr & Hs);
    set (r2 := check_dangerous ps cl r) in * end.
  assert (forall r : SafetyResult,
            blocked r = blocked r2 -> reason r = reason r2 -> safe r = safe r2 ->
            blocked r = match hit with Some _ => true | None => false end
            /\ reason r = match hit with
                          | Some e => ("Command contains blocked pattern: " ++ e)%string
                          | None => ""
                          end
            /\ safe r = match hit with
                         | Some _ => false
                         | None => negb (existsb (fun p => contains p (lower command))
                                                 dangerous_patterns)
                         end) as Hfin.
  { intros r Eb Er Es. rewrite Eb, Er, Es, Hb, Hr, Hs.
    destruct hit; simpl; auto. }
  destruct (existsb _ ["rm "; "del "; "rmdir "; "rd "]);
    destruct (existsb _ ["chmod "; "chown "; "attrib "]);
    apply Hfin; reflexivity.
Qed.

(** A plain deletion is let through with a warning. *)
Example rm_is_let_through :
  is_safe_command default_config "rm notes.txt"
  = mk_result true ["Command performs file deletion"] false "".
Proof. vm_compute. reflexivity. Qed.

(** X10.  The verdict of [is_safe_file_operation] when the path can be
    examined: it never blocks; it judges the operation unsafe exactly when
    the operation is a copy, move or upload of a file over the size limit
    or of a type not allowed, or a delete or modify under a system
    directory.  Every other operation is judged safe whatever the file. *)
Theorem is_safe_file_operation_verdict (cfg : SafetyConfig) (p : FileProbe)
    (operation : string) :
  blocked (is_safe_file_operation cfg (Some p) operation) = false
  /\ safe (is_safe_file_operation cfg (Some p) operation)
     = negb (among operation ["copy"; "move"; "upload"]
               && (oversized cfg p || odd_type cfg p)
             || among operation ["delete"; "modify"] && in_system_dir p).
Proof.
  unfold is_safe_file_operation, oversized, odd_type, in_system_dir.
  set (transfer := among operation ["copy"; "move"; "upload"]).
  set (change := among operation ["delete"; "modify"]).
  set (odd := negb (suffix p =? "")%string
              && negb (among (lower (suffix p)) (allowed_file_types cfg))).
  set (sys := existsb (fun sys_dir => contains sys_dir (lower (path_str p)))
                      system_dirs).
  destruct (file_size p) as [size|];
    [destruct (max_file_size cfg <? size)|];
    destruct transfer, odd, sys, change; split; reflexivity.
Qed.

Example big_movie_upload :
  is_safe_file_operation default_config (Some big_movie) "upload"
  = mk_result false ["File size exceeds limit: 209715200 bytes"] false
              "File too large for operation".
Proof. vm_compute. reflexivity. Qed.

Lemma scan_patterns_grows (patterns : list string) (content : string) :
  forall acc,
    (fst acc = false -> fst (scan_patterns patterns content acc) = false)
    /\ (forall x, In x (snd acc) -> In x (snd (scan_patterns patterns content acc)))
    /\ ((fst acc = false -> snd acc <> []) ->
        fst (scan_patterns patterns content acc) = false ->
        snd (scan_patterns patterns content acc) <> []).
Proof.
  induction patterns as [|p rest IH]; intro acc; simpl; [tauto|].
  destruct (contains (lower p) (lower content)).
  - destruct (IH (false, snd acc ++ [("Suspicious content detected: " ++ p)%string]))
      as (H1 & H2 & H3).
    simpl in *. repeat split; auto.
    + intros x Hx. apply H2. apply in_or_app. auto.
    + intros _. apply H3. intros _. destruct (snd acc); discriminate.
  - apply IH.
Qed.

Lemma scan_patterns_hit (patterns : list string) (content pattern : string) :
  In pattern patterns ->
  contains (lower pattern) (lower content) = true ->
  forall acc,
    fst (scan_patterns patterns content acc) = false
    /\ In ("Suspicious content detected: " ++ pattern)%string
          (snd (scan_patterns patterns content acc)).
Proof.
  induction patterns as [|p rest IH]; simpl; [tauto|].
  intros [->|Hin] Hc acc.
  - rewrite Hc.
    destruct (scan_patterns_grows rest content
                (false, snd acc ++ [("Suspicious content detected: " ++ pattern)%string]))
      as (H1 & H2 & _).
    split; [apply H1; reflexivity|].
    apply H2. simpl. apply in_or_app. right. left. reflexivity.
  - apply IH; assumption.
Qed.

(** X11.  Every unsafe verdict of [scan_file] comes with a threat: when
    [safe] is false the list of threats is not empty. *)
Theorem scan_unsafe_names_threat (cfg : SafetyConfig) (now_ later : datetime)
    (i : ScanInput)
    (Hunsafe : scan_safe (scan_file cfg now_ later i) = false) :
  threats (scan_file cfg now_ later i) <> [].
Proof.
  unfold scan_file in *.
  destruct (negb (sc_exists i)); [discriminate|].
  destruct (sc_stat_error i); [discriminate|].
  set (a1 := if max_file_size cfg <? sc_size i
             then (false, snd (true, @nil string) ++ ["File size exceeds safety limit"])
             else (true, [])) in *.
  assert (fst a1 = false -> snd a1 <> []) as H1
    by (unfold a1; destruct (max_file_size cfg <? sc_size i); simpl;
        [discriminate | discriminate]).
  set (a2 := if negb (sc_suffix i =? "")%string
                && negb (among (lower (sc_suffix i)) (allowed_file_types cfg))
             then (false, snd a1 ++ [("File type not allowed: " ++ sc_suffix i)%string])
             else a1) in *.
  assert (fst a2 = false -> snd a2 <> []) as H2.
  { unfold a2. destruct (negb _ && negb _); [|exact H1].
    simpl. intros _. destruct (snd a1); discriminate. }
  cbn [scan_safe threats] in *.
  destruct (among (lower (sc_suffix i)) text_suffixes); [|auto].
  destruct (sc_read i) as [content|e].
  - destruct (scan_patterns_grows suspicious_patterns content a2) as (_ & _ & H3).
    auto.
  - simpl in *. destruct (snd a2); discriminate.
Qed.

(** X12.  A file of a text type whose first characters hold one of the
    suspicious patterns, case set aside, is judged unsafe by [scan_file],
    and the pattern is named among the threats. *)
Theorem scan_flags_suspicious_content (cfg : SafetyConfig) (now_ later : datetime)
    (i : ScanInput) (content pattern : string)
    (Hthere : sc_exists i = true)
    (Hstat : sc_stat_error i = None)
    (Htext : among (lower (sc_suffix i)) text_suffixes = true)
    (Hread : sc_read i = inl content)
    (Hpat : In pattern suspicious_patterns)
    (Hholds : holds_ignoring_case content pattern) :
  scan_safe (scan_file cfg now_ later i) = false
  /\ In ("Suspicious content detected: " ++ pattern)%string
        (threats (scan_file cfg now_ later i)).
Proof.
  destruct Hholds as (before & after & Hcut).
  assert (contains (lower pattern) (lower content) = true) as Hc
    by (apply contains_spec; exists before, after; exact Hcut).
  unfold scan_file. rewrite Hthere, Hstat, Htext, Hread. cbn [negb].
  cbn [scan_safe threats].
  apply scan_patterns_hit; assumption.
Qed.

(** A text file that cannot be read is reported with a threat and yet
    judged safe. *)
Example unreadable_text_file :
  scan_file default_config 7 8
    (mk_scan_input true None 10 0 ".txt" "notes.txt"
       (inr "Permission denied") "")
  = mk_scan true ["Error reading file content: Permission denied"]
            (Some (mk_file_info 10 0 ".txt" "notes.txt" "")) 7.
Proof. vm_compute. reflexivity. Qed.

(** X13.  [confirm_dangerous_action] approves only when confirmations are
    switched off, or the call is forced, or the terminal is interactive and
    the first callback to answer says yes; in the first two cases nothing is
    logged. *)
Theorem confirm_denies_by_default (now : nat -> datetime)
    (action_description : string) (force interactive : bool)
    (answers : list (option bool)) (m : Manager) :
  (fst (confirm_dangerous_action now action_description force interactive answers m)
   = true
   <-> confirm_dangerous_actions (safety_config m) = false
       \/ force = true
       \/ (interactive = true /\ first_answer answers = Some true))
  /\ (confirm_dangerous_actions (safety_config m) = false \/ force = true ->
      snd (confirm_dangerous_action now action_description force interactive
             answers m) = m).
Proof.
  unfold confirm_dangerous_action.
  destruct (confirm_dangerous_actions (safety_config m)), force; simpl;
    try (split; [split; auto | auto]; fail).
  destruct interactive; simpl.
  - destruct (first_answer answers) as [[|]|]; simpl;
      (split; [split; [intro H; try discriminate; auto
                      | intros [H|[H|[_ H]]]; congruence]
              | intros [H|H]; discriminate]).
  - split; [split; [discriminate | intros [H|[H|[H _]]]; discriminate]
           | intros [H|H]; discriminate].
Qed.

(** X14.  The window of [get_action_log]: when the cut-off
    [now - hours] is a date the calendar holds, the answer lists, in the
    order of the log, exactly the entries stamped at or after the cut-off;
    when the cut-off falls before the first date of the calendar, the
    answer is empty whatever the log holds. *)
Theorem get_action_log_window (now_ : datetime) (hours : Z) (m : Manager) :
  (0 <= now_ - hours * 3600 * us_per_second <= datetime_max ->
   Z.abs (hours * 3600 * us_per_second / us_per_day) <= 999999999 ->
   get_action_log now_ hours m
   = filter (fun a => now_ - hours * 3600 * us_per_second <=? timestamp a)
            (action_log m))
  /\ (now_ - hours * 3600 * us_per_second < 0 ->
      get_action_log now_ hours m = []).
Proof.
  unfold get_action_log, timedelta_hours, datetime_minus. split.
  - intros Hr Hd.
    replace (Z.abs (hours * 3600 * us_per_second / us_per_day) <=? 999999999)
      with true by (symmetry; apply Z.leb_le; exact Hd).
    replace (0 <=? now_ - hours * 3600 * us_per_second) with true
      by (symmetry; apply Z.leb_le; apply Hr).
    replace (now_ - hours * 3600 * us_per_second <=? datetime_max) with true
      by (symmetry; apply Z.leb_le; apply Hr).
    reflexivity.
  - intro Hneg.
    destruct (Z.abs (hours * 3600 * us_per_second / us_per_day) <=? 999999999);
      [|reflexivity].
    replace (0 <=? now_ - hours * 3600 * us_per_second) with false
      by (symmetry; apply Z.leb_gt; exact Hneg).
    reflexivity.
Qed.

(** X11 and X12, on a script that calls [EVAL(]. *)
Lemma scan_unsafe_names_threat_witness :
  scan_safe (scan_file default_config 7 8 sample_script) = false
  /\ threats (scan_file default_config 7 8 sample_script) <> [].
Proof.
  assert (scan_safe (scan_file default_config 7 8 sample_script) = false) as H
    by reflexivity.
  exact (conj H (scan_unsafe_names_threat default_config 7 8 sample_script H)).
Defined.

Lemma scan_flags_suspicious_content_witness :
  sc_exists sample_script = true
  /\ sc_stat_error sample_script = None
  /\ among (lower (sc_suffix sample_script)) text_suffixes = true
  /\ sc_read sample_script = inl "import os; os.System('ls'); EVAL(code)"
  /\ In "eval(" suspicious_patterns
  /\ holds_ignoring_case "import os; os.System('ls'); EVAL(code)" "eval("
  /\ scan_safe (scan_file default_config 7 8 sample_script) = false
  /\ In "Suspicious content detected: eval("
        (threats (scan_file default_config 7 8 sample_script)).
Proof.
  assert (In "eval(" suspicious_patterns) as H5 by (left; reflexivity).
  assert (holds_ignoring_case "import os; os.System('ls'); EVAL(code)" "eval(")
    as H6 by (exists "import os; os.system('ls'); ", "code)"; reflexivity).
  exact (conj eq_refl (conj eq_refl (conj eq_refl (conj eq_refl (conj H5 (conj H6
    (scan_flags_suspicious_content default_config 7 8 sample_script
       "import os; os.System('ls'); EVAL(code)" "eval("
       eq_refl eq_refl eq_refl eq_refl H5 H6))))))).
Defined.

(** X13, for a forced call. *)
Lemma confirm_denies_by_default_witness :
  fst (confirm_dangerous_action tick_clock "wipe the cache" true false [] fresh)
  = true
  /\ snd (confirm_dangerous_action tick_clock "wipe the cache" true false [] fresh)
     = fresh.
Proof.
  split.
  - apply (proj2 (proj1 (confirm_denies_by_default tick_clock "wipe the cache"
                           true false [] fresh))).
    right. left. reflexivity.
  - apply (proj2 (confirm_denies_by_default tick_clock "wipe the cache"
                    true false [] fresh)).
    right. reflexivity.
Defined.

(** X14: a day's window two days into the calendar, and a two days'
    window one day into it. *)
Lemma get_action_log_window_witness :
  (0 <= 2 * us_per_day - 24 * 3600 * us_per_second <= datetime_max)
  /\ Z.abs (24 * 3600 * us_per_second / us_per_day) <= 999999999
  /\ get_action_log (2 * us_per_day) 24 fresh
     = filter (fun a => 2 * us_per_day - 24 * 3600 * us_per_second <=? timestamp a)
              (action_log fresh)
  /\ us_per_day - 48 * 3600 * us_per_second < 0
  /\ get_action_log us_per_day 48
       (_log_action (fun _ => us_per_day) "QUARANTINE" "Moved a.exe" None fresh)
     = [].
Proof.
  assert (0 <= 2 * us_per_day - 24 * 3600 * us_per_second <= datetime_max) as H1
    by (vm_compute; split; discriminate).
  assert (Z.abs (24 * 3600 * us_per_second / us_per_day) <= 999999999) as H2
    by (vm_compute; discriminate).
  assert (us_per_day - 48 * 3600 * us_per_second < 0) as H3 by reflexivity.
  exact (conj H1 (conj H2
    (conj (proj1 (get_action_log_window (2 * us_per_day) 24 fresh) H1 H2)
    (conj H3
      (proj2 (get_action_log_window us_per_day 48
                (_log_action (fun _ => us_per_day) "QUARANTINE" "Moved a.exe"
                   None fresh)) H3))))).
Defined.

End SafetyManagerExtra.

(** ** The resource monitor: failed samples, thresholds, the alert list *)
Module ProcessMonitorExtra.

Import ProcessMonitor ProcessMonitorProps.

Section Facts.

Variable rt : Runtime.

Lemma tick_adds_until_failure (r : Readings) (m : Monitor) :
  exists l,
    alerts (check_system_health rt r m) = alerts m ++ l
    /\ map alert_type l = due_until_failure r (thresholds m).
Proof.
  unfold check_system_health, due_until_failure.
  pose proof (adds_check_cpu rt r m) as H1.
  destruct (cpu r) eqn:E1.
  2:{ destruct (adds_seq_raised _
        (seq (check_memory rt r)
           (seq (check_disk rt r)
              (seq (check_temperature rt r) (check_process_count rt r))))
        _ _ H1) as (l & _ & Hl & Ht & _).
      exists l. unfold breaches in Ht. rewrite E1 in Ht. auto. }
  set (m1 := snd (check_cpu rt r m)) in *.
  assert (thresholds m1 = thresholds m) as T1 by (apply (adds_thresholds _ _ _ _ H1)).
  pose proof (adds_check_memory rt r m1) as H2. rewrite T1 in H2.
  destruct (memory r) eqn:E2.
  2:{ pose proof (adds_seq_raised _
        (seq (check_disk rt r)
           (seq (check_temperature rt r) (check_process_count rt r)))
        _ _ H2) as H2'.
      destruct (adds_seq _ _ _ _ _ _ H1 H2') as (l & _ & Hl & Ht & _).
      exists l. split; [exact Hl|]. rewrite Ht.
      unfold breaches at 2. rewrite E2. reflexivity. }
  set (m2 := snd (check_memory rt r m1)) in *.
  assert (thresholds m2 = thresholds m) as T2
    by (rewrite <- T1; apply (adds_thresholds _ _ _ _ H2)).
  pose proof (adds_check_disk rt r m2) as H3. rewrite T2 in H3.
  assert (forall tys,
            adds (seq (check_disk rt r)
                    (seq (check_temperature rt r) (check_process_count rt r)))
                 m2 (match pids r with Some _ => true | None => false end) tys
            \/ adds (seq (check_disk rt r)
                       (seq (check_temperature rt r) (check_process_count rt r)))
                    m2 false tys ->
            exists l,
              alerts (snd (seq (check_cpu rt r)
                             (seq (check_memory rt r)
                                (seq (check_disk rt r)
                                   (seq (check_temperature rt r)
                                        (check_process_count rt r)))) m))
              = alerts m ++ l
              /\ map alert_type l
                 = one_if (breaches Cpu r (thresholds m)) "cpu_high"
                   ++ one_if (breaches Memory r (thresholds m)) "memory_high"
                   ++ tys) as Hwrap.
  { intros tys [H|H].
    - destruct (adds_seq _ _ _ _ _ _ H1 (adds_seq _ _ _ _ _ _ H2 H))
        as (l & _ & Hl & Ht & _). exists l. auto.
    - destruct (adds_seq _ _ _ _ _ _ H1 (adds_seq _ _ _ _ _ _ H2 H))
        as (l & _ & Hl & Ht & _). exists l. auto. }
  destruct (disk_usage_percent r) as [p|] eqn:E3.
  2:{ apply Hwrap. right.
      pose proof (adds_seq_raised _
        (seq (check_temperature rt r) (check_process_count rt r)) _ _ H3) as H.
      unfold breaches in H. rewrite E3 in H. exact H. }
  set (m3 := snd (check_disk rt r m2)) in *.
  assert (thresholds m3 = thresholds m) as T3
    by (rewrite <- T2; apply (adds_thresholds _ _ _ _ H3)).
  pose proof (adds_check_temperature rt r m3) as H4. rewrite T3 in H4.
  set (m4 := snd (check_temperature rt r m3)) in *.
  assert (thresholds m4 = thresholds m) as T4
    by (rewrite <- T3; apply (adds_thresholds _ _ _ _ H4)).
  pose proof (adds_check_process_count rt r m4) as H5. rewrite T4 in H5.
  pose proof (adds_seq _ _ _ _ _ _ H3 (adds_seq _ _ _ _ _ _ H4 H5)) as H345.
  assert (one_if (breaches ProcessCount r (thresholds m)) "process_count_high"
          = match pids r with
            | None => []
            | Some _ =>
                one_if (breaches ProcessCount r (thresholds m)) "process_count_high"
            end) as Hp
    by (unfold breaches; destruct (pids r); reflexivity).
  rewrite <- Hp.
  destruct (pids r); apply Hwrap; [left | right]; simpl; exact H345.
Qed.

(** X15.  A poll tick on any readings: the earlier alerts stay, and the
    alerts appended are those of the checks that ran.  The checks run in
    the order CPU, memory, disk, temperature, process count, and the first
    sample that cannot be taken ends the tick in silence, so that a breach
    of a metric further on raises no alert; missing sensors alone do not
    end it. *)
Theorem failed_sample_ends_tick (r : Readings) (m : Monitor) :
  alerts (check_system_health rt r m) = alerts m ++ appended rt r m
  /\ map alert_type (appended rt r m) = due_until_failure r (thresholds m).
Proof.
  destruct (tick_adds_until_failure r m) as (l & Hl & Ht).
  assert (appended rt r m = l) as ->
    by (unfold appended; rewrite Hl; apply skipn_length_app).
  auto.
Qed.

Lemma thresholds_set_cpu (v : Q) (m : Monitor) :
  thresholds (set_threshold "cpu_percent" v m)
  = mk_thresholds v (memory_percent (thresholds m)) (disk_percent (thresholds m))
                  (temperature (thresholds m)) (process_count (thresholds m)).
Proof. reflexivity. Qed.

Lemma count_name_due_until_failure (ty : string) (r : Readings)
    (th : Thresholds) :
  count_name ty (due_until_failure r th) =
  match cpu r with
  | None => 0
  | Some _ =>
      (if breaches Cpu r th && ("cpu_high" =? ty)%string then 1 else 0)
      + match memory r with
        | None => 0
        | Some _ =>
            (if breaches Memory r th && ("memory_high" =? ty)%string
             then 1 else 0)
            + match disk_usage_percent r with
              | None => 0
              | Some _ =>
                  (if breaches Disk r th && ("disk_high" =? ty)%string
                   then 1 else 0)
                  + ((if ("temperature_high" =? ty)%string
                      then hot_count r th else 0)
                     + match pids r with
                       | None => 0
                       | Some _ =>
                           if breaches ProcessCount r th
                              && ("process_count_high" =? ty)%string
                           then 1 else 0
                       end)
              end
        end
  end%nat.
Proof.
  unfold due_until_failure.
  destruct (cpu r); [|reflexivity].
  rewrite count_name_app, count_name_one_if. f_equal.
  destruct (memory r); [|reflexivity].
  rewrite count_name_app, count_name_one_if. f_equal.
  destruct (disk_usage_percent r); [|reflexivity].
  rewrite !count_name_app, count_name_one_if, count_name_repeat. f_equal. f_equal.
  destruct (pids r); [|reflexivity].
  apply count_name_one_if.
Qed.

(** X16.  [set_threshold] takes effect on the next tick and on its own
    metric only: after the CPU threshold is set to [v], a tick that obtains
    its CPU sample raises a [cpu_high] alert exactly when the reading is
    above [v], and raises the alerts of the other metrics as it would have,
    whether or not a later sample fails; a name that is not one of the five
    metrics changes nothing. *)
Theorem set_threshold_takes_effect (r : Readings) (m : Monitor) (v c : Q)
    (Hc : cpu r = Some c) :
  count_type "cpu_high" (appended rt r (set_threshold "cpu_percent" v m))
  = (if gt c v then 1%nat else 0%nat)
  /\ (forall x, x <> Cpu ->
        count_type (alert_type_of x)
          (appended rt r (set_threshold "cpu_percent" v m))
        = count_type (alert_type_of x) (appended rt r m))
  /\ (forall metric, ~ In metric metric_names ->
        set_threshold metric v m = m).
Proof.
  destruct (tick_adds_until_failure r m) as (l & Hl & Hty).
  destruct (tick_adds_until_failure r (set_threshold "cpu_percent" v m))
    as (l' & Hl' & Hty').
  assert (appended rt r m = l) as ->
    by (unfold appended; rewrite Hl; apply skipn_length_app).
  assert (appended rt r (set_threshold "cpu_percent" v m) = l') as ->
    by (unfold appended; rewrite Hl'; apply skipn_length_app).
  rewrite thresholds_set_cpu in Hty'.
  repeat split.
  - rewrite count_type_names, Hty', count_name_due_until_failure. simpl.
    rewrite Hc, ?andb_false_r, ?andb_true_r. simpl.
    destruct (gt c v), (memory r), (disk_usage_percent r), (pids r);
      reflexivity.
  - intros x Hx.
    rewrite !count_type_names, Hty, Hty', !count_name_due_until_failure.
    destruct x; try congruence; simpl;
      rewrite ?andb_false_r, ?andb_true_r; reflexivity.
  - intros metric Hnot. unfold set_threshold, metric_names in *. simpl in Hnot.
    destruct (String.eqb_spec metric "cpu_percent"); [subst; tauto|].
    destruct (String.eqb_spec metric "memory_percent"); [subst; tauto|].
    destruct (String.eqb_spec metric "disk_percent"); [subst; tauto|].
    destruct (String.eqb_spec metric "temperature"); [subst; tauto|].
    destruct (String.eqb_spec metric "process_count"); [subst; tauto|].
    destruct m; reflexivity.
Qed.

End Facts.

Example memory_unreadable_tick :
  map alert_type (appended plain_runtime memory_unreadable fresh_monitor)
  = ["cpu_high"].
Proof. vm_compute. reflexivity. Qed.

(** X16, with the CPU threshold raised above a reading of 97. *)
Lemma set_threshold_takes_effect_witness :
  cpu busy_cpu = Some (97#1)
  /\ count_type "cpu_high"
       (appended plain_runtime busy_cpu
          (set_threshold "cpu_percent" (98#1) fresh_monitor))
     = (if gt (97#1) (98#1) then 1%nat else 0%nat).
Proof.
  exact (conj eq_refl
    (proj1 (set_threshold_takes_effect plain_runtime busy_cpu fresh_monitor
              (98#1) (97#1) eq_refl))).
Defined.

Lemma place_permutation (a : SystemAlert) (l : list SystemAlert) :
  Permutation (place a l) (a :: l).
Proof.
  induction l as [|b rest IH]; simpl; [apply Permutation_refl|].
  destruct (timestamp a <? timestamp b); [|apply Permutation_refl].
  apply perm_trans with (b :: a :: rest); [|apply perm_swap].
  apply perm_skip. exact IH.
Qed.

Lemma newest_first_permutation (l : list SystemAlert) :
  Permutation (newest_first l) l.
Proof.
  induction l as [|a rest IH]; simpl; [constructor|].
  apply perm_trans with (a :: newest_first rest).
  - apply place_permutation.
  - apply perm_skip. exact IH.
Qed.

Lemma place_sorted (a : SystemAlert) (l : list SystemAlert) :
  StronglySorted newer l -> StronglySorted newer (place a l).
Proof.
  induction 1 as [|b rest Hrest IH Hb]; simpl.
  - constructor; constructor.
  - destruct (Z.ltb_spec (timestamp a) (timestamp b)) as [Hlt|Hge].
    + constructor; [exact IH|].
      apply (Permutation_Forall (Permutation_sym (place_permutation a rest))).
      constructor; [unfold newer; lia | exact Hb].
    + constructor.
      * constructor; assumption.
      * constructor; [exact Hge|].
        apply Forall_impl with (P := newer b); [|exact Hb].
        unfold newer. intros x Hx. lia.
Qed.

Lemma newest_first_sorted (l : list SystemAlert) :
  StronglySorted newer (newest_first l).
Proof.
  induction l as [|a rest IH]; simpl; [constructor|].
  apply place_sorted. exact IH.
Qed.

Lemma filter_twice {A} (f g : A -> bool) (l : list A) :
  filter g (filter f l) = filter (fun x => f x && g x) l.
Proof.
  induction l as [|x rest IH]; simpl; [reflexivity|].
  destruct (f x); simpl; [|exact IH].
  destruct (g x); [f_equal|]; exact IH.
Qed.

Lemma place_same_stamp (t : datetime) (a : SystemAlert) (l : list SystemAlert) :
  filter (fun x => timestamp x =? t) (place a l)
  = filter (fun x => timestamp x =? t) (a :: l).
Proof.
  induction l as [|b rest IH]; [reflexivity|].
  cbn [place]. destruct (Z.ltb_spec (timestamp a) (timestamp b)) as [Hlt|Hge];
    [|reflexivity].
  cbn [filter] in *. rewrite IH.
  destruct (Z.eqb_spec (timestamp a) t) as [Ha|Ha];
    destruct (Z.eqb_spec (timestamp b) t) as [Hb|Hb]; try reflexivity.
  lia.
Qed.

Lemma newest_first_same_stamp (t : datetime) (l : list SystemAlert) :
  filter (fun x => timestamp x =? t) (newest_first l)
  = filter (fun x => timestamp x =? t) l.
Proof.
  induction l as [|a rest IH]; [reflexivity|].
  cbn [newest_first fold_right]. rewrite place_same_stamp.
  cbn [filter]. fold (newest_first rest). rewrite IH. reflexivity.
Qed.

(** X17.  What [get_alerts] answers.  When the cut-off [now - hours] is a
    date the calendar holds, the call returns a list: the alerts stamped at
    or after the cut-off, of the severity asked for when one is asked for,
    each as often as the list of alerts holds it, newest first, and alerts
    of one timestamp in the order in which they were raised.  A cut-off
    before the first date of the calendar makes the call raise: unlike
    [get_action_log], nothing catches the overflow. *)
Theorem get_alerts_newest_first (now_ : datetime) (severity_ : option string)
    (hours : Z) (m : Monitor) :
  (0 <= now_ - hours * 3600 * us_per_second <= datetime_max ->
   Z.abs (hours * 3600 * us_per_second / us_per_day) <= 999999999 ->
   exists l,
     get_alerts now_ severity_ hours m = Some l
     /\ Permutation l
          (filter (fun a => (now_ - hours * 3600 * us_per_second <=? timestamp a)
                            && of_severity severity_ a)
                  (alerts m))
     /\ StronglySorted newer l
     /\ forall t,
          filter (fun a => timestamp a =? t) l
          = filter (fun a => (timestamp a =? t)
                             && ((now_ - hours * 3600 * us_per_second
                                  <=? timestamp a)
                                 && of_severity severity_ a))
                   (alerts m))
  /\ (now_ - hours * 3600 * us_per_second < 0 ->
      get_alerts now_ severity_ hours m = None).
Proof.
  unfold get_alerts, timedelta_hours, datetime_minus. split.
  - intros Hr Hd.
    replace (Z.abs (hours * 3600 * us_per_second / us_per_day) <=? 999999999)
      with true by (symmetry; apply Z.leb_le; exact Hd).
    replace (0 <=? now_ - hours * 3600 * us_per_second) with true
      by (symmetry; apply Z.leb_le; apply Hr).
    replace (now_ - hours * 3600 * us_per_second <=? datetime_max) with true
      by (symmetry; apply Z.leb_le; apply Hr).
    cbn [andb]. eexists. split; [reflexivity|].
    rewrite filter_twice. repeat split.
    + apply newest_first_permutation.
    + apply newest_first_sorted.
    + intro t. rewrite newest_first_same_stamp, filter_twice.
      apply filter_ext. intro a. apply andb_comm.
  - intro Hneg.
    destruct (Z.abs (hours * 3600 * us_per_second / us_per_day) <=? 999999999);
      [|reflexivity].
    replace (0 <=? now_ - hours * 3600 * us_per_second) with false
      by (symmetry; apply Z.leb_gt; exact Hneg).
    reflexivity.
Qed.

(** X17: the high alerts of the last two days, asked for on day three;
    and the same question asked on day one. *)
Lemma get_alerts_newest_first_witness :
  0 <= 3 * us_per_day - 48 * 3600 * us_per_second <= datetime_max
  /\ Z.abs (48 * 3600 * us_per_second / us_per_day) <= 999999999
  /\ (exists l,
        get_alerts (3 * us_per_day) (Some "high") 48 three_alerts = Some l
        /\ map timestamp l = [3 * us_per_day; 1 * us_per_day])
  /\ 1 * us_per_day - 48 * 3600 * us_per_second < 0
  /\ get_alerts (1 * us_per_day) None 48 three_alerts = None.
Proof.
  assert (0 <= 3 * us_per_day - 48 * 3600 * us_per_second <= datetime_max) as H1
    by (vm_compute; split; discriminate).
  assert (Z.abs (48 * 3600 * us_per_second / us_per_day) <= 999999999) as H2
    by (vm_compute; discriminate).
  assert (1 * us_per_day - 48 * 3600 * us_per_second < 0) as H3 by reflexivity.
  split; [exact H1|]. split; [exact H2|]. split.
  - destruct (proj1 (get_alerts_newest_first (3 * us_per_day) (Some "high") 48
                       three_alerts) H1 H2) as (l & Hl & _).
    exists l. split; [exact Hl|].
    vm_compute in Hl. inversion Hl. reflexivity.
  - split; [exact H3|].
    exact (proj2 (get_alerts_newest_first (1 * us_per_day) None 48 three_alerts)
                 H3).
Defined.

End ProcessMonitorExtra.

(** ** Bulk mail and auto-replies *)
Module EmailAutomationExtra.

Import EmailAutomation EmailAutomationProps.

Section Facts.

Variable send_email : string -> nat -> bool.

Lemma send_loop_with_delay (recipients : list string) (delay : Z) :
  0 < delay ->
  forall res n,
    let res' := fst (send_loop send_email recipients delay res n) in
    (forall r, (count_occ string_dec (failed res) r
                + count_occ string_dec recipients r
                <= count_occ string_dec (failed res') r)%nat)
    /\ (List.length (success res') + List.length (failed res')
        = List.length (success res) + List.length (failed res)
          + 2 * List.length recipients)%nat
    /\ total res' = total res
    /\ snd (send_loop send_email recipients delay res n)
       = (n + List.length recipients)%nat.
Proof.
  intro Hd. induction recipients as [|x rest IH]; intros res n; simpl.
  - repeat split; try (intro r); lia.
  - unfold bind, send_one.
    replace (0 <? delay) with true by (symmetry; apply Z.ltb_lt; assumption).
    rewrite time_sleep_raises.
    match goal with |- context [send_loop send_email rest delay ?r ?m] =>
      destruct (IH r m) as (Hc & Hl & Ht & Hn) end.
    repeat split.
    + intro r. specialize (Hc r).
      destruct (send_email x n); simpl in *;
        rewrite ?count_occ_app in Hc; simpl in Hc;
        destruct (string_dec x r); lia.
    + rewrite Hl. destruct (send_email x n); simpl; rewrite ?length_app; simpl; lia.
    + rewrite Ht. destruct (send_email x n); reflexivity.
    + rewrite Hn. lia.
Qed.

(** X18.  [send_bulk_email] with a delay above zero, the default
    included: every recipient is filed under [failed], whether or not the
    mail went out, because the pause raises; the two lists together hold
    each recipient twice; [total] is the number of recipients, and
    [send_email] is called once per recipient. *)
Theorem send_bulk_email_with_delay (recipients : list string) (delay : Z) (n : nat)
    (Hd : 0 < delay) :
  (forall r, (count_occ string_dec recipients r
              <= count_occ string_dec
                   (failed (fst (send_bulk_email send_email recipients delay n))) r)%nat)
  /\ (List.length (success (fst (send_bulk_email send_email recipients delay n)))
      + List.length (failed (fst (send_bulk_email send_email recipients delay n)))
      = 2 * List.length recipients)%nat
  /\ total (fst (send_bulk_email send_email recipients delay n))
     = List.length recipients
  /\ sends send_email recipients delay n = List.length recipients.
Proof.
  unfold send_bulk_email, sends.
  destruct (send_loop_with_delay recipients delay Hd
              (mk_bulk [] [] (List.length recipients)) n) as (Hc & Hl & Ht & Hn).
  repeat split.
  - intro r. specialize (Hc r). simpl in Hc. exact Hc.
  - rewrite Hl. simpl. lia.
  - exact Ht.
  - unfold send_bulk_email. rewrite Hn. lia.
Qed.

(** X19.  [send_bulk_email] with no delay asked for ([delay <= 0]):
    every recipient is filed once, under [success] or under [failed];
    [total] is the number of recipients, and [send_email] is called once per
    recipient. *)
Theorem send_bulk_email_tally_without_delay (recipients : list string)
    (delay : Z) (n : nat) (Hd : delay <= 0) :
  tallied recipients (fst (send_bulk_email send_email recipients delay n))
  /\ sends send_email recipients delay n = List.length recipients.
Proof.
  unfold send_bulk_email, sends, tallied.
  destruct (send_loop_without_delay send_email recipients delay Hd
              (mk_bulk [] [] (List.length recipients)) n) as (Hc & Ht & Hn).
  repeat split.
  - intro r. rewrite Hc. reflexivity.
  - exact Ht.
  - unfold send_bulk_email in *. rewrite Hn. lia.
Qed.

End Facts.

(** X18, on two recipients with a mailer that fails every other time. *)
Lemma send_bulk_email_with_delay_witness :
  0 < 1
  /\ fst (send_bulk_email every_other ["a@example.com"; "b@example.com"] 1 0%nat)
     = mk_bulk ["a@example.com"]
               ["a@example.com"; "b@example.com"; "b@example.com"] 2%nat
  /\ sends every_other ["a@example.com"; "b@example.com"] 1 0%nat = 2%nat.
Proof.
  assert (0 < 1) as H by reflexivity.
  exact (conj H (conj eq_refl
    (proj2 (proj2 (proj2
       (send_bulk_email_with_delay every_other
          ["a@example.com"; "b@example.com"] 1 0%nat H)))))).
Defined.

(** X19, on the same two recipients. *)
Lemma send_bulk_email_tally_without_delay_witness :
  0 <= 0
  /\ fst (send_bulk_email every_other ["a@example.com"; "b@example.com"] 0 0%nat)
     = mk_bulk ["a@example.com"] ["b@example.com"] 2%nat
  /\ tallied ["a@example.com"; "b@example.com"]
       (fst (send_bulk_email every_other ["a@example.com"; "b@example.com"] 0 0%nat)).
Proof.
  assert (0 <= 0) as H by discriminate.
  exact (conj H (conj eq_refl
    (proj1 (send_bulk_email_tally_without_delay every_other
              ["a@example.com"; "b@example.com"] 0 0%nat H)))).
Defined.

Lemma auto_reply_subject_re (subject : string) :
  auto_reply_subject subject = ("Re: " ++ subject)%string.
Proof.
  unfold auto_reply_subject.
  rewrite SafetyManagerProps.prefix_app. reflexivity.
Qed.

Lemma rule_loop_breaks (m : EmailMessage) (rules : list Rule) :
  match rule_loop m rules with
  | Some mails =>
      existsb (_should_auto_reply m) rules = true
      /\ exists rule, first_applicable m rules rule /\ mails = reply_of m rule
  | None => existsb (_should_auto_reply m) rules = false
  end.
Proof.
  induction rules as [|r rest IH]; simpl; [reflexivity|].
  destruct (_should_auto_reply m r) eqn:Er; simpl.
  - split; [reflexivity|]. exists r. split.
    + exists [], rest. auto.
    + unfold _send_auto_reply, reply_of. rewrite auto_reply_subject_re.
      reflexivity.
  - destruct (rule_loop m rest) as [mails|]; [|exact IH].
    destruct IH as (Hex & rule & (before & after & Hsplit & Hrule & Hbefore) & Hm).
    split; [exact Hex|]. exists rule. split; [|exact Hm].
    exists (r :: before), after. rewrite Hsplit. auto.
Qed.

Lemma reply_loop_by_first_rule (rules : list Rule)
    (fetched : list (option EmailMessage)) :
  forall count sent,
  exists replies : list (EmailMessage * Rule),
    map fst replies = answered fetched rules
    /\ Forall (fun p => first_applicable (fst p) rules (snd p)) replies
    /\ reply_loop fetched rules count sent
       = ((count + List.length replies)%nat,
          sent ++ flat_map (fun p => reply_of (fst p) (snd p)) replies).
Proof.
  induction fetched as [|[m|] rest IH]; intros count sent.
  - exists []. simpl. rewrite app_nil_r, Nat.add_0_r. auto.
  - unfold answered. cbn [reply_loop map List.concat app filter].
    pose proof (rule_loop_breaks m rules) as Hm.
    destruct (rule_loop m rules) as [mails|].
    + destruct Hm as (Hex & rule & Hfirst & ->). rewrite Hex.
      destruct (IH (S count) (sent ++ reply_of m rule))
        as (replies & Hmap & Hall & Hloop).
      exists ((m, rule) :: replies). cbn [map fst snd flat_map List.length].
      split; [f_equal; exact Hmap|]. split; [constructor; assumption|].
      rewrite Hloop, <- app_assoc. f_equal. lia.
    + rewrite Hm. exact (IH count sent).
  - exact (IH count sent).
Qed.

(** X20.  [check_and_auto_reply] answers each unread message at most
    once, by the first rule that applies.  The messages answered are, in
    the order of the inbox, the fetched messages that some rule applies to;
    each is answered by the first rule of the list that applies to it and
    by no other; the number returned counts these messages, also those whose
    rule has no [reply_message], for which nothing is sent; and the mails
    handed to [send_email] are the replies of these rules in that order,
    each to the sender of its message under the subject ["Re: "] followed by
    the subject of the message, also when that starts with ["Re: "]
    already. *)
Theorem auto_reply_once_per_message (inbox : option (list (option EmailMessage)))
    (rules : list Rule) :
  let fetched := match inbox with Some l => l | None => [] end in
  exists replies : list (EmailMessage * Rule),
    map fst replies = answered fetched rules
    /\ Forall (fun p => first_applicable (fst p) rules (snd p)) replies
    /\ fst (check_and_auto_reply inbox rules) = List.length replies
    /\ snd (check_and_auto_reply inbox rules)
       = flat_map (fun p => reply_of (fst p) (snd p)) replies.
Proof.
  destruct inbox as [fetched|]; cbn [check_and_auto_reply].
  - destruct (reply_loop_by_first_rule rules fetched 0 [])
      as (replies & Hmap & Hall & Hloop).
    exists replies. rewrite Hloop. auto.
  - exists []. auto.
Qed.

Example sample_inbox_replies :
  check_and_auto_reply (Some sample_inbox) [nameless; out_of_office]
  = (2%nat, [("ann@example.com", "Re: Re: invoice 12", "I am away until Monday.")]).
Proof. vm_compute. reflexivity. Qed.

End EmailAutomationExtra.

(** ** The registry and the scheduler over time *)
Module SchedulerExtra.

Import Scheduler SchedulerProps.

Section Facts.

Variable now : nat -> datetime.

(** *** What a pass may change *)

Lemma scheduler_visit_touched (k : string) (task : AutomationTask) (n : nat) :
  touched now (k, task) (k, fst (fst (scheduler_visit now task n))).
Proof.
  unfold touched. simpl. split; [reflexivity|].
  rewrite scheduler_visit_spec.
  destruct (enabled task && truthy (schedule task)); [|auto].
  destruct (verdict now task n); [|auto].
  rewrite execute_task_spec.
  destruct (function task (S n)) eqn:E; simpl; [|auto].
  right. exists (S n). auto.
Qed.

Lemma scheduler_pass_touches_last_run_only_aux (ts : registry) (n : nat) :
  Forall2 (touched now) ts (fst (fst (scheduler_scan now ts n))).
Proof.
  revert n. induction ts as [|[k t] rest IH]; intro n.
  - simpl. constructor.
  - rewrite scheduler_scan_cons.
    pose proof (scheduler_visit_touched k t n) as Hv.
    destruct (scheduler_visit now t n) as [[t' i1] n1].
    specialize (IH n1).
    destruct (scheduler_scan now rest n1) as [[rest' i2] n2].
    simpl in *. constructor; assumption.
Qed.

(** X21.  A pass of the scheduler changes nothing in the registry but
    [last_run]: every item keeps its key and its place, and its task is
    either left as it was or, its callback having returned, has the clock
    reading taken next written into [last_run]; no task is enabled,
    disabled, renamed or rescheduled by a pass. *)
Theorem scheduler_pass_touches_last_run_only (ts : registry) (n : nat) :
  Forall2 (touched now) ts (fst (fst (scheduler_scan now ts n)))
  /\ map (fun kt => (fst kt, id (snd kt), enabled (snd kt), schedule (snd kt)))
         (fst (fst (scheduler_scan now ts n)))
     = map (fun kt => (fst kt, id (snd kt), enabled (snd kt), schedule (snd kt)))
           ts.
Proof.
  pose proof (scheduler_pass_touches_last_run_only_aux ts n) as H.
  split; [exact H|].
  induction H as [|[k t] [k' t'] l l' [Hk Ht] _ IH]; simpl; [reflexivity|].
  simpl in *. subst k'. rewrite IH. f_equal.
  destruct Ht as [->|(i & _ & ->)]; reflexivity.
Qed.

Lemma run_task_manual_touched (key : string) (ts : registry) (n : nat) :
  Forall2 (touched now) ts (fst (fst (run_task_manual now key ts n))).
Proof.
  assert (forall l : registry, Forall2 (touched now) l l) as Hrefl.
  { induction l as [|x l IH]; constructor; [|exact IH].
    unfold touched. auto. }
  revert n. induction ts as [|[k t] rest IH]; intro n; simpl.
  - constructor.
  - destruct (k =? key)%string; unfold bind.
    + rewrite execute_task_spec.
      destruct (function t n) eqn:E; simpl; constructor; try apply Hrefl;
        unfold touched; simpl; split; auto.
      right. exists n. auto.
    + specialize (IH n).
      destruct (run_task_manual now key rest n) as [[rest' i] n']. simpl in *.
      constructor; [unfold touched; auto | exact IH].
Qed.

Lemma touched_keys (ts ts' : registry) :
  Forall2 (touched now) ts ts' ->
  map fst ts' = map fst ts /\ map task_id ts' = map task_id ts.
Proof.
  induction 1 as [|[k t] [k' t'] l l' [Hk Ht] _ [IH1 IH2]]; simpl; [auto|].
  simpl in *. subst k'. rewrite IH1, IH2. split; [reflexivity|].
  f_equal. unfold task_id. simpl.
  destruct Ht as [->|(i & _ & ->)]; reflexivity.
Qed.

Lemma keyed_ids (ts : registry) :
  keyed ts <-> NoDup (map fst ts) /\ map task_id ts = map fst ts.
Proof.
  unfold keyed. split; intros [Hnd H]; split; try assumption; clear Hnd.
  - induction H as [|[k t] l Hx _ IH]; simpl; [reflexivity|].
    unfold task_id at 1. simpl in *. congruence.
  - induction ts as [|[k t] l IH]; simpl in *; constructor.
    + unfold task_id in H. simpl in *. congruence.
    + apply IH. congruence.
Qed.

Lemma touched_keyed (ts ts' : registry) :
  Forall2 (touched now) ts ts' -> keyed ts -> keyed ts'.
Proof.
  intros Ht Hk. apply touched_keys in Ht. destruct Ht as [H1 H2].
  apply keyed_ids. apply keyed_ids in Hk. rewrite H1, H2. exact Hk.
Qed.

Lemma assign_enabled_keys (k : string) (b : bool) (ts : registry) :
  map fst (assign_enabled k b ts) = map fst ts.
Proof.
  induction ts as [|[k' t] rest IH]; [reflexivity|].
  simpl. destruct (k' =? k)%string; simpl; [reflexivity|]. congruence.
Qed.

Lemma assign_enabled_keyed (k : string) (b : bool) (ts : registry) :
  keyed ts -> keyed (assign_enabled k b ts).
Proof.
  rewrite !keyed_ids, assign_enabled_keys, assign_enabled_ids. auto.
Qed.

Lemma step_keyed (a : Agent) (e : event) :
  keyed (tasks a) -> keyed (tasks (step now a e)).
Proof.
  intro Hk. destruct e as [|k|k|k|]; simpl; [| | | |assumption].
  - destruct (running a); [|assumption].
    pose proof (scheduler_pass_touches_last_run_only_aux (tasks a) (effects a)) as H.
    destruct (scheduler_scan now (tasks a) (effects a)) as [[ts invs] n].
    exact (touched_keyed _ _ H Hk).
  - pose proof (run_task_manual_touched k (tasks a) (effects a)) as H.
    destruct (run_task_manual now k (tasks a) (effects a)) as [[ts invs] n].
    exact (touched_keyed _ _ H Hk).
  - unfold enable_task. destruct (has_key k (tasks a)); [|assumption].
    apply assign_enabled_keyed. assumption.
  - unfold disable_task. destruct (has_key k (tasks a)); [|assumption].
    apply assign_enabled_keyed. assumption.
Qed.

Lemma registered_keyed (ts : registry) : registered ts -> keyed ts.
Proof.
  intros [Hnd Hall]. split; [exact Hnd|].
  apply Forall_impl with (2 := Hall). intros kt [H _]. exact H.
Qed.

Lemma reachable_keyed (a : Agent) : reachable now a -> keyed (tasks a).
Proof.
  induction 1 as [regs|a e _ IH].
  - simpl. apply registered_keyed, registered_fold. split; constructor.
  - apply step_keyed. exact IH.
Qed.

(** *** Registering *)

Lemma task_at_dict_assign (k : string) (task : AutomationTask) (ts : registry) :
  task_at k (dict_assign k task ts) = Some task.
Proof.
  induction ts as [|[k' old] rest IH]; simpl.
  - rewrite String.eqb_refl. reflexivity.
  - destruct (k' =? k)%string eqn:E; simpl; rewrite E; auto.
Qed.

Lemma task_at_dict_assign_other (k k' : string) (task : AutomationTask)
    (ts : registry) :
  k' <> k -> task_at k' (dict_assign k task ts) = task_at k' ts.
Proof.
  intro Hne. induction ts as [|[j old] rest IH]; simpl.
  - destruct (String.eqb_spec k k'); [congruence | reflexivity].
  - destruct (String.eqb_spec j k) as [->|Hjk]; simpl.
    + destruct (String.eqb_spec k k'); [congruence | reflexivity].
    + destruct (j =? k')%string; [reflexivity | exact IH].
Qed.

Lemma dict_assign_key_list (k : string) (task : AutomationTask) (ts : registry) :
  map fst (dict_assign k task ts)
  = if has_key k ts then map fst ts else map fst ts ++ [k].
Proof.
  unfold has_key. induction ts as [|[k' old] rest IH]; simpl; [reflexivity|].
  destruct (k' =? k)%string; simpl; [reflexivity|].
  rewrite IH. destruct (existsb _ rest); reflexivity.
Qed.

(** X22.  [register_task] on a registry with each key once and each
    task under its own id: the registry stays so; the id now names the fresh
    task, enabled and never run, whatever was registered under it before; a
    known id keeps its place and a new one goes to the end; the other tasks
    are left as they were. *)
Theorem register_task_files_fresh_task (task_id name_ description_ : string)
    (f : Callable) (schedule_ : option string) (ts : registry)
    (Hk : keyed ts) :
  keyed (register_task task_id name_ description_ f schedule_ ts)
  /\ task_at task_id (register_task task_id name_ description_ f schedule_ ts)
     = Some (new_task task_id name_ description_ f schedule_)
  /\ map fst (register_task task_id name_ description_ f schedule_ ts)
     = (if has_key task_id ts then map fst ts else map fst ts ++ [task_id])
  /\ forall k, k <> task_id ->
       task_at k (register_task task_id name_ description_ f schedule_ ts)
       = task_at k ts.
Proof.
  unfold register_task. repeat split.
  - apply dict_assign_keys. apply Hk.
  - apply dict_assign_forall; [apply Hk | reflexivity].
  - apply task_at_dict_assign.
  - apply dict_assign_key_list.
  - intros k Hne. apply task_at_dict_assign_other. exact Hne.
Qed.

(** *** Running by hand *)

Lemma task_at_in (k : string) (task : AutomationTask) (ts : registry) :
  NoDup (map fst ts) -> In (k, task) ts -> task_at k ts = Some task.
Proof.
  induction ts as [|[k' t'] rest IH]; simpl; [tauto|].
  intros Hnd Hin. inversion Hnd as [|? ? Hnot Hnd']; subst.
  destruct Hin as [E|Hin].
  - inversion E; subst. rewrite String.eqb_refl. reflexivity.
  - destruct (String.eqb_spec k' k) as [->|Hne]; [|auto].
    exfalso. apply Hnot. change k with (fst (k, task)). apply in_map. exact Hin.
Qed.

Lemma task_at_has_key (k : string) (ts : registry) :
  has_key k ts = false -> task_at k ts = None.
Proof.
  unfold has_key. induction ts as [|[k' t'] rest IH]; simpl; [reflexivity|].
  destruct (k' =? k)%string; simpl; [discriminate | exact IH].
Qed.

Lemma run_task_manual_spec (key : string) (ts : registry) (n : nat) :
  snd (fst (run_task_manual now key ts n))
  = match task_at key ts with
    | Some task =>
        [mk_invocation (id task) ByCommand None (function task n)
           (match function task n with
            | Returns => Some (now (S n))
            | Raises => None
            end)]
    | None => []
    end
  /\ (task_at key ts = None -> run_task_manual now key ts n = (ts, [], n)).
Proof.
  induction ts as [|[k t] rest IH]; simpl; [auto|].
  destruct (k =? key)%string; unfold bind.
  - rewrite execute_task_spec. destruct (function t n); simpl; split;
      try reflexivity; discriminate.
  - destruct IH as [IH1 IH2].
    destruct (run_task_manual now key rest n) as [[rest' i] n'] eqn:E.
    simpl in *. split; [exact IH1|].
    intro Hnone. specialize (IH2 Hnone). inversion IH2; subst. reflexivity.
Qed.

(** X23.  [run <id>] at the prompt calls the callback of a registered
    task once, whatever its [enabled] flag and however recently it ran; for
    an id that is not registered it calls nothing and changes nothing. *)
Theorem run_task_manual_runs_regardless (key : string) (ts : registry) (n : nat) :
  (forall task, NoDup (map fst ts) -> In (key, task) ts ->
     snd (fst (run_task_manual now key ts n))
     = [mk_invocation (id task) ByCommand None (function task n)
          (match function task n with
           | Returns => Some (now (S n))
           | Raises => None
           end)])
  /\ (has_key key ts = false -> run_task_manual now key ts n = (ts, [], n)).
Proof.
  destruct (run_task_manual_spec key ts n) as [H1 H2]. split.
  - intros task Hnd Hin. rewrite H1, (task_at_in key task ts Hnd Hin). reflexivity.
  - intro Hno. apply H2. apply task_at_has_key. exact Hno.
Qed.

(** *** [last_run] over time *)

Lemma read_before_later (n n' : nat) (ts : registry) :
  (n <= n')%nat -> read_before now n ts -> read_before now n' ts.
Proof.
  intros Hle H. apply Forall_impl with (2 := H).
  intros kt Hkt r Hr. destruct (Hkt r Hr) as (i & Hi & ->).
  exists i. split; [lia | reflexivity].
Qed.

Lemma scheduler_scan_read_before (ts : registry) :
  forall n,
    read_before now n ts ->
    read_before now (snd (scheduler_scan now ts n))
                (fst (fst (scheduler_scan now ts n)))
    /\ (n <= snd (scheduler_scan now ts n))%nat.
Proof.
  induction ts as [|[k t] rest IH]; intros n H.
  - simpl. split; [constructor | lia].
  - rewrite scheduler_scan_cons. inversion H as [|? ? Ht Hrest]; subst.
    assert (let '(t', _, n1) := scheduler_visit now t n in
            (n <= n1)%nat
            /\ forall r, last_run t' = Some r -> exists i, (i < n1)%nat /\ r = now i)
      as Hv.
    { rewrite scheduler_visit_spec.
      destruct (enabled t && truthy (schedule t)); [|split; [lia | exact Ht]].
      destruct (verdict now t n).
      - rewrite execute_task_spec. destruct (function t (S n)); simpl.
        + split; [lia|]. intros r Hr. inversion Hr. exists (S (S n)). split; [lia|reflexivity].
        + split; [lia|]. intros r Hr. destruct (Ht r Hr) as (i & Hi & ->).
          exists i. split; [lia | reflexivity].
      - split; [lia|]. intros r Hr. destruct (Ht r Hr) as (i & Hi & ->).
        exists i. split; [lia | reflexivity]. }
    destruct (scheduler_visit now t n) as [[t' i1] n1]. destruct Hv as [Hle Ht'].
    destruct (IH n1 (read_before_later n n1 rest Hle Hrest)) as [IH1 IH2].
    destruct (scheduler_scan now rest n1) as [[rest' i2] n2]. simpl in *.
    split; [|lia]. constructor; [|exact IH1].
    simpl. intros r Hr. destruct (Ht' r Hr) as (i & Hi & ->).
    exists i. split; [lia | reflexivity].
Qed.

Lemma run_task_manual_read_before (key : string) (ts : registry) :
  forall n,
    read_before now n ts ->
    read_before now (snd (run_task_manual now key ts n))
                (fst (fst (run_task_manual now key ts n)))
    /\ (n <= snd (run_task_manual now key ts n))%nat.
Proof.
  induction ts as [|[k t] rest IH]; intros n H.
  - simpl. split; [constructor | lia].
  - simpl. inversion H as [|? ? Ht Hrest]; subst.
    destruct (k =? key)%string; unfold bind.
    + rewrite execute_task_spec. destruct (function t n); simpl.
      * split; [|lia]. constructor.
        -- simpl. intros r Hr. inversion Hr. exists (S n). split; [lia|reflexivity].
        -- apply (read_before_later n); [lia | exact Hrest].
      * split; [|lia]. apply (read_before_later n); [lia | exact H].
    + destruct (IH n Hrest) as [IH1 IH2].
      destruct (run_task_manual now key rest n) as [[rest' i] n']. simpl in *.
      split; [|lia]. constructor; [|exact IH1].
      simpl. intros r Hr. destruct (Ht r Hr) as (j & Hj & ->).
      exists j. split; [lia | reflexivity].
Qed.

Lemma assign_enabled_read_before (k : string) (b : bool) (n : nat) (ts : registry) :
  read_before now n ts -> read_before now n (assign_enabled k b ts).
Proof.
  induction 1 as [|[k' t] rest Ht Hrest IH]; simpl; [constructor|].
  destruct (k' =? k)%string; constructor; auto.
Qed.

(** X24.  In every state a started agent can reach, the [last_run] of a
    task, when set, is a reading of the clock taken earlier in the run: no
    [last_run] is made up or taken from elsewhere. *)
Theorem last_run_is_an_earlier_reading (a : Agent) (k : string)
    (task : AutomationTask) (r : datetime)
    (Hreach : reachable now a)
    (Hin : In (k, task) (tasks a))
    (Hlr : last_run task = Some r) :
  exists i, (i < effects a)%nat /\ r = now i.
Proof.
  assert (read_before now (effects a) (tasks a)) as H.
  { clear Hin. induction Hreach as [regs|a e _ IH].
    - simpl.
      destruct (registered_fold regs [] (conj (NoDup_nil _) (Forall_nil _)))
        as [_ Hall].
      apply Forall_impl with (2 := Hall). intros kt [_ Hn] r' Hr'. congruence.
    - destruct e as [|key|key|key|]; simpl; [| | | |exact IH].
      + destruct (running a); [|exact IH].
        pose proof (scheduler_scan_read_before (tasks a) (effects a) IH) as Hs.
        destruct (scheduler_scan now (tasks a) (effects a)) as [[ts invs] n].
        apply Hs.
      + pose proof (run_task_manual_read_before key (tasks a) (effects a) IH) as Hs.
        destruct (run_task_manual now key (tasks a) (effects a)) as [[ts invs] n].
        apply Hs.
      + unfold enable_task. destruct (has_key key (tasks a)); [|exact IH].
        apply assign_enabled_read_before. exact IH.
      + unfold disable_task. destruct (has_key key (tasks a)); [|exact IH].
        apply assign_enabled_read_before. exact IH. }
  unfold read_before in H. rewrite Forall_forall in H.
  exact (H (k, task) Hin r Hlr).
Qed.

(** *** A disabled task over time *)

Lemma task_at_touched (k : string) (ts ts' : registry) :
  Forall2 (touched now) ts ts' ->
  forall t', task_at k ts' = Some t' ->
    exists t, task_at k ts = Some t /\ enabled t' = enabled t.
Proof.
  induction 1 as [|[j t] [j' t2] l l' [Hk Ht] _ IH]; simpl; [discriminate|].
  simpl in *. subst j'. intros t' H.
  destruct (j =? k)%string; [|auto].
  inversion H; subst. exists t. split; [reflexivity|].
  destruct Ht as [->|(i & _ & ->)]; reflexivity.
Qed.

Lemma touched_keeps_off (k : string) (ts ts' : registry) :
  Forall2 (touched now) ts ts' -> off k ts -> off k ts'.
Proof.
  intros Ht Hoff t' H'.
  destruct (task_at_touched k ts ts' Ht t' H') as (t & Hat & ->). auto.
Qed.

Lemma task_at_assign_enabled (k k' : string) (b : bool) (ts : registry) :
  task_at k (assign_enabled k' b ts)
  = if (k' =? k)%string then option_map (set_enabled b) (task_at k ts)
    else task_at k ts.
Proof.
  induction ts as [|[j t] rest IH]; simpl.
  - destruct (k' =? k)%string; reflexivity.
  - destruct (String.eqb_spec j k') as [->|Hne]; simpl.
    + destruct (String.eqb_spec k' k); reflexivity.
    + destruct (String.eqb_spec j k) as [->|Hjk].
      * destruct (String.eqb_spec k' k); [congruence | reflexivity].
      * exact IH.
Qed.

Lemma scheduler_scan_skips_off (k : string) (ts : registry) (n : nat)
    (inv : invocation) :
  keyed ts -> off k ts ->
  In inv (snd (fst (scheduler_scan now ts n))) -> inv_task inv <> k.
Proof.
  intros [Hnd Hid] Hoff Hin Hk.
  apply scheduler_scan_notes in Hin. destruct Hin as (k' & t & Hin & Hinv & Hen).
  rewrite Forall_forall in Hid. pose proof (Hid _ Hin) as E. simpl in E.
  assert (k' = k) as -> by congruence.
  rewrite (Hoff t (task_at_in k t ts Hnd Hin)) in Hen. discriminate.
Qed.

Lemma step_keeps_off (k : string) (a : Agent) (e : event) :
  e <> CmdEnable k -> off k (tasks a) -> off k (tasks (step now a e)).
Proof.
  intros He Hoff. destruct e as [|key|key|key|]; simpl; [| | | |exact Hoff].
  - destruct (running a); [|exact Hoff].
    pose proof (scheduler_pass_touches_last_run_only_aux (tasks a) (effects a))
      as H.
    destruct (scheduler_scan now (tasks a) (effects a)) as [[ts invs] n].
    exact (touched_keeps_off k _ _ H Hoff).
  - pose proof (run_task_manual_touched key (tasks a) (effects a)) as H.
    destruct (run_task_manual now key (tasks a) (effects a)) as [[ts invs] n].
    exact (touched_keeps_off k _ _ H Hoff).
  - unfold enable_task. destruct (has_key key (tasks a)); [|exact Hoff].
    intros t Ht. rewrite task_at_assign_enabled in Ht.
    destruct (String.eqb_spec key k) as [->|Hne]; [congruence|]. auto.
  - unfold disable_task. destruct (has_key key (tasks a)); [|exact Hoff].
    intros t Ht. rewrite task_at_assign_enabled in Ht.
    destruct (key =? k)%string; [|auto].
    destruct (task_at k (tasks a)); [|discriminate].
    inversion Ht. reflexivity.
Qed.

Lemma step_notes (k : string) (a : Agent) (e : event) (inv : invocation) :
  keyed (tasks a) -> off k (tasks a) ->
  In inv (history (step now a e)) ->
  In inv (history a) \/ inv_task inv <> k \/ inv_origin inv = ByCommand.
Proof.
  intros Hk Hoff. destruct e as [|key|key|key|]; simpl; auto.
  - destruct (running a); [|auto].
    pose proof (fun i => scheduler_scan_skips_off k (tasks a) (effects a) i Hk Hoff)
      as H.
    destruct (scheduler_scan now (tasks a) (effects a)) as [[ts invs] n].
    simpl in *. intro Hin. apply in_app_or in Hin. destruct Hin; auto.
  - destruct (run_task_manual_spec key (tasks a) (effects a)) as [H _].
    destruct (run_task_manual now key (tasks a) (effects a)) as [[ts invs] n].
    simpl in *. intro Hin. apply in_app_or in Hin. destruct Hin as [|Hin]; auto.
    right. right. subst invs.
    destruct (task_at key (tasks a)); [|contradiction].
    destruct Hin as [<-|[]]. reflexivity.
Qed.

Lemma run_events_notes (k : string) (old : list invocation) (es : list event) :
  (forall e, In e es -> e <> CmdEnable k) ->
  forall a,
    keyed (tasks a) -> off k (tasks a) ->
    (forall inv, In inv (history a) ->
       In inv old \/ inv_task inv <> k \/ inv_origin inv = ByCommand) ->
    forall inv, In inv (history (run_events now a es)) ->
      In inv old \/ inv_task inv <> k \/ inv_origin inv = ByCommand.
Proof.
  induction es as [|e es IH]; intros Hes a Hk Hoff Hh; simpl; [exact Hh|].
  apply IH.
  - intros e' He'. apply Hes. right. exact He'.
  - apply step_keyed. exact Hk.
  - apply step_keeps_off; [apply Hes; left; reflexivity | exact Hoff].
  - intros inv Hin.
    destruct (step_notes k a e inv Hk Hoff Hin) as [H|H]; auto.
Qed.

(** X25.  Once [disable <id>] has been typed, the scheduler makes no
    call for that task, through any number of wake-ups and of commands,
    until [enable <id>] is typed: every later call noted for the task was
    asked for by [run <id>]. *)
Theorem disabled_stays_uncalled (a : Agent) (k : string) (es : list event)
    (inv : invocation)
    (Hreach : reachable now a)
    (Hes : forall e, In e es -> e <> CmdEnable k)
    (Hin : In inv (history (run_events now (step now a (CmdDisable k)) es))) :
  In inv (history a) \/ inv_task inv <> k \/ inv_origin inv = ByCommand.
Proof.
  pose proof (reachable_keyed a Hreach) as Hk.
  apply (run_events_notes k (history a) es Hes (step now a (CmdDisable k)));
    try exact Hin.
  - apply step_keyed. exact Hk.
  - simpl. unfold disable_task.
    destruct (has_key k (tasks a)) eqn:E.
    + intros t Ht. rewrite task_at_assign_enabled, String.eqb_refl in Ht.
      destruct (task_at k (tasks a)); [|discriminate]. inversion Ht. reflexivity.
    + intros t Ht. rewrite (task_at_has_key k _ E) in Ht. discriminate.
  - simpl. auto.
Qed.

(** *** A task that keeps failing *)

Lemma scheduler_calls_app (i : string) (h1 h2 : list invocation) :
  scheduler_calls i (h1 ++ h2)
  = (scheduler_calls i h1 + scheduler_calls i h2)%nat.
Proof. unfold scheduler_calls. rewrite filter_app, length_app. reflexivity. Qed.

Lemma scheduler_calls_none (i : string) (h : list invocation) :
  (forall inv, In inv h -> inv_task inv <> i) -> scheduler_calls i h = 0%nat.
Proof.
  unfold scheduler_calls. induction h as [|x h IH]; simpl; intro H; [reflexivity|].
  destruct (String.eqb_spec (inv_task x) i) as [E|_]; simpl.
  - exfalso. apply (H x); auto.
  - apply IH. intros inv Hin. apply H. auto.
Qed.

Lemma failing_task_pass (ts : registry) (n : nat) (k : string)
    (t : AutomationTask) :
  NoDup (map task_id ts) -> In (k, t) ts ->
  enabled t = true -> truthy (schedule t) = true -> last_run t = None ->
  (forall i, function t i = Raises) ->
  In (k, t) (fst (fst (scheduler_scan now ts n)))
  /\ scheduler_calls (id t) (snd (fst (scheduler_scan now ts n))) = 1%nat.
Proof.
  intros Hnd Hin Hen Hsch Hlr Hfail.
  destruct (in_split _ _ Hin) as (pre & post & ->).
  rewrite map_app in Hnd. simpl in Hnd.
  assert (~ In (id t) (map task_id pre) /\ ~ In (id t) (map task_id post))
    as [Hnpre Hnpost].
  { apply NoDup_remove_2 in Hnd. rewrite in_app_iff in Hnd.
    unfold task_id at 1 3 in Hnd. simpl in Hnd. tauto. }
  assert (forall l m inv, (forall x, In x l -> ~ In (id t) (map task_id l)) ->
            ~ In (id t) (map task_id l) ->
            In inv (snd (fst (scheduler_scan now l m))) -> inv_task inv <> id t)
    as Hother.
  { intros l m inv _ Hnot Hinv E. apply scheduler_scan_notes in Hinv.
    destruct Hinv as (k' & t' & Hin' & Hid & _).
    apply Hnot. apply in_map_iff. exists (k', t'). split; [|exact Hin'].
    unfold task_id. simpl. congruence. }
  rewrite scheduler_scan_app.
  pose proof (fun inv => Hother pre n inv (fun _ _ => Hnpre) Hnpre) as H1.
  destruct (scheduler_scan now pre n) as [[pre' i1] n1].
  rewrite scheduler_scan_cons, scheduler_visit_spec, Hen, Hsch.
  unfold verdict. rewrite Hlr. simpl andb. cbv iota.
  rewrite execute_task_spec, Hfail.
  pose proof (fun inv => Hother post (S (S n1)) inv (fun _ _ => Hnpost) Hnpost) as H3.
  destruct (scheduler_scan now post (S (S n1))) as [[post' i3] n3].
  simpl in *. split.
  - apply in_or_app. right. left. reflexivity.
  - rewrite scheduler_calls_app. simpl.
    rewrite (scheduler_calls_none _ i1 H1).
    change (mk_invocation (id t) ByScheduler (Some (now n1)) Raises None :: i3)
      with ([mk_invocation (id t) ByScheduler (Some (now n1)) Raises None] ++ i3).
    rewrite scheduler_calls_app, (scheduler_calls_none _ i3 H3).
    unfold scheduler_calls. simpl. rewrite String.eqb_refl. reflexivity.
Qed.

(** X26.  No backoff: a registered task that is enabled, has a schedule
    string, has never completed a run and whose callback raises at every
    call is called again by each wake-up of the scheduler; [n] wake-ups add
    [n] scheduler calls for it. *)
Theorem failing_task_called_every_tick (a : Agent) (k : string)
    (task : AutomationTask) (n : nat)
    (Hreach : reachable now a)
    (Hrun : running a = true)
    (Hin : In (k, task) (tasks a))
    (Hen : enabled task = true)
    (Hsch : truthy (schedule task) = true)
    (Hlr : last_run task = None)
    (Hfail : forall i, function task i = Raises) :
  scheduler_calls (id task) (history (run_events now a (repeat Tick n)))
  = (scheduler_calls (id task) (history a) + n)%nat.
Proof.
  pose proof (reachable_ids now a Hreach) as Hnd. clear Hreach.
  revert a Hrun Hin Hnd. induction n as [|n IH]; intros a Hrun Hin Hnd.
  - simpl. lia.
  - change (run_events now a (repeat Tick (S n)))
      with (run_events now (step now a Tick) (repeat Tick n)).
    destruct (failing_task_pass (tasks a) (effects a) k task Hnd Hin Hen Hsch
                Hlr Hfail) as [Hin' Hone].
    pose proof (step_ids now a Tick) as Hids.
    assert (history (step now a Tick)
            = history a ++ snd (fst (scheduler_scan now (tasks a) (effects a)))
            /\ tasks (step now a Tick)
               = fst (fst (scheduler_scan now (tasks a) (effects a)))
            /\ running (step now a Tick) = true) as (Hh & Ht & Hr).
    { simpl. rewrite Hrun.
      destruct (scheduler_scan now (tasks a) (effects a)) as [[ts invs] m].
      simpl. auto. }
    rewrite IH.
    + rewrite Hh, scheduler_calls_app, Hone. lia.
    + exact Hr.
    + rewrite Ht. exact Hin'.
    + rewrite Hids. exact Hnd.
Qed.

End Facts.

(** X22: the health check registered a second time, with a new
    callback. *)
Lemma register_task_files_fresh_task_witness :
  keyed (tasks (started [health_check]))
  /\ task_at "system_health_check"
       (register_task "system_health_check" "Health" "Again" broken None
          (tasks (started [health_check])))
     = Some (new_task "system_health_check" "Health" "Again" broken None).
Proof.
  assert (keyed (tasks (started [health_check]))) as H
    by (split; repeat constructor; simpl; tauto).
  exact (conj H
    (proj1 (proj2 (register_task_files_fresh_task "system_health_check" "Health"
                     "Again" broken None (tasks (started [health_check])) H)))).
Defined.

(** X23: the health check run by hand after it was disabled. *)
Lemma run_task_manual_runs_regardless_witness :
  NoDup (map fst (disable_task "system_health_check"
                    (tasks (started [health_check]))))
  /\ In ("system_health_check", set_enabled false (task_of health_check None))
        (disable_task "system_health_check" (tasks (started [health_check])))
  /\ snd (fst (run_task_manual minute_clock "system_health_check"
                 (disable_task "system_health_check"
                    (tasks (started [health_check]))) 0%nat))
     = [mk_invocation "system_health_check" ByCommand None Returns
          (Some (minute_clock 1))].
Proof.
  assert (NoDup (map fst (disable_task "system_health_check"
                            (tasks (started [health_check]))))) as H1
    by (repeat constructor; simpl; tauto).
  assert (In ("system_health_check", set_enabled false (task_of health_check None))
             (disable_task "system_health_check" (tasks (started [health_check]))))
    as H2 by (left; reflexivity).
  exact (conj H1 (conj H2
    (proj1 (run_task_manual_runs_regardless minute_clock "system_health_check"
              (disable_task "system_health_check" (tasks (started [health_check])))
              0) _ H1 H2))).
Defined.

(** X24: the health check after one wake-up of the scheduler. *)
Lemma last_run_is_an_earlier_reading_witness :
  reachable minute_clock (step minute_clock (started [health_check]) Tick)
  /\ In ("system_health_check",
         task_of health_check (Some (minute_clock 2)))
        (tasks (step minute_clock (started [health_check]) Tick))
  /\ last_run (task_of health_check (Some (minute_clock 2)))
     = Some (minute_clock 2)
  /\ exists i,
       (i < effects (step minute_clock (started [health_check]) Tick))%nat
       /\ minute_clock 2 = minute_clock i.
Proof.
  assert (reachable minute_clock (step minute_clock (started [health_check]) Tick))
    as H1 by (apply reach_step, reach_start).
  assert (In ("system_health_check",
              task_of health_check (Some (minute_clock 2)))
             (tasks (step minute_clock (started [health_check]) Tick))) as H2
    by (left; reflexivity).
  exact (conj H1 (conj H2 (conj eq_refl
    (last_run_is_an_earlier_reading minute_clock _ _ _ _ H1 H2 eq_refl)))).
Defined.

(** X25: the health check disabled, then two wake-ups around a run by
    hand. *)
Lemma disabled_stays_uncalled_witness :
  reachable minute_clock (started [health_check])
  /\ (forall e, In e [Tick; CmdRun "system_health_check"; Tick] ->
        e <> CmdEnable "system_health_check")
  /\ history (run_events minute_clock
                (step minute_clock (started [health_check])
                   (CmdDisable "system_health_check"))
                [Tick; CmdRun "system_health_check"; Tick])
     = [mk_invocation "system_health_check" ByCommand None Returns
          (Some (minute_clock 1))]
  /\ (In (mk_invocation "system_health_check" ByCommand None Returns
            (Some (minute_clock 1)))
         (history (started [health_check]))
      \/ inv_task (mk_invocation "system_health_check" ByCommand None Returns
                     (Some (minute_clock 1))) <> "system_health_check"
      \/ inv_origin (mk_invocation "system_health_check" ByCommand None Returns
                       (Some (minute_clock 1))) = ByCommand).
Proof.
  assert (forall e, In e [Tick; CmdRun "system_health_check"; Tick] ->
            e <> CmdEnable "system_health_check") as H2
    by (simpl; intros e [<-|[<-|[<-|[]]]]; discriminate).
  assert (In (mk_invocation "system_health_check" ByCommand None Returns
                (Some (minute_clock 1)))
             (history (run_events minute_clock
                         (step minute_clock (started [health_check])
                            (CmdDisable "system_health_check"))
                         [Tick; CmdRun "system_health_check"; Tick]))) as H3
    by (left; reflexivity).
  exact (conj (reach_start minute_clock [health_check]) (conj H2 (conj eq_refl
    (disabled_stays_uncalled minute_clock (started [health_check])
       "system_health_check" _ _ (reach_start minute_clock [health_check])
       H2 H3)))).
Defined.

(** X26: five wake-ups over the report that always fails. *)
Lemma failing_task_called_every_tick_witness :
  reachable minute_clock (started [flaky_report])
  /\ running (started [flaky_report]) = true
  /\ In ("daily_email_summary", task_of flaky_report None)
        (tasks (started [flaky_report]))
  /\ (forall i, function (task_of flaky_report None) i = Raises)
  /\ scheduler_calls "daily_email_summary"
       (history (run_events minute_clock (started [flaky_report]) (repeat Tick 5)))
     = (scheduler_calls "daily_email_summary" (history (started [flaky_report]))
        + 5)%nat.
Proof.
  assert (In ("daily_email_summary", task_of flaky_report None)
             (tasks (started [flaky_report]))) as H3 by (left; reflexivity).
  assert (forall i, function (task_of flaky_report None) i = Raises) as H4
    by (intro i; reflexivity).
  exact (conj (reach_start minute_clock [flaky_report]) (conj eq_refl (conj H3
    (conj H4
      (failing_task_called_every_tick minute_clock (started [flaky_report])
         "daily_email_summary" (task_of flaky_report None) 5
         (reach_start minute_clock [flaky_report]) eq_refl H3 eq_refl eq_refl
         eq_refl H4))))).
Defined.

Lemma psutil_in_front (x : string) :
  existsb (String.eqb x) ("psutil" :: module_globals)
  = (x =? "psutil")%string || existsb (String.eqb x) module_globals.
Proof. reflexivity. Qed.

(** X27.  [main.py] does not import [psutil], and every routine of it
    that reads the machine stops at its first use of the name that is not
    inside a [try] of its own.  Whatever the machine and the configuration:
    [send_daily_summary] hands no mail to [send_email];
    [system_health_check] and a turn of the background monitor log no
    warning; each logs one error line with the text of the [NameError], and
    the monitor then sleeps 60 seconds, not 30.  Nothing else stands in the
    way: with [psutil] bound beside the names the module has, a machine that
    answers and a configuration with mail enabled, the summary is handed to
    [send_email] once, and the health check warns about a disk with less
    than 5 GB free. *)
Theorem psutil_is_not_bound (render : Render) (h : Host) (s : Settings) :
  run (send_daily_summary module_globals render h s)
  = mk_trace [(ERROR, "Error sending daily summary: name 'psutil' is not defined")]
             [] []
  /\ run (system_health_check module_globals render h)
     = mk_trace [(ERROR, "Error in system health check: name 'psutil' is not defined")]
                [] []
  /\ run (monitor_turn module_globals render h)
     = mk_trace [(ERROR, "Error in background monitoring: name 'psutil' is not defined")]
                [] [60]
  /\ (forall cpu_ memory_ disk_ to,
        host_cpu h = inr cpu_ -> host_memory h = inr memory_ ->
        host_disk h = inr disk_ ->
        email_enabled s = inr true -> email_recipients s = inr to ->
        run (send_daily_summary ("psutil" :: module_globals) render h s)
        = mk_trace [(INFO, "Daily summary email sent")]
                   [(to, "Daily System Summary")] [])
  /\ (forall percent free memory_ free_gb,
        host_disk h = inr (percent, free) -> host_memory h = inr memory_ ->
        PyNum.int_truediv free (1024 ^ 3) = Some free_gb ->
        PyNum.flt free_gb (5#1) = true ->
        In (WARNING, ("Low disk space: " ++ show_2f render free_gb
                        ++ " GB remaining")%string)
           (logged (run (system_health_check ("psutil" :: module_globals)
                                             render h)))).
Proof.
  split; [reflexivity|]. split; [reflexivity|]. split; [reflexivity|]. split.
  - intros cpu_ memory_ disk_ to Hc Hm Hd He Hr.
    unfold run, send_daily_summary, try_except, and_then, psutil, global_name.
    rewrite !psutil_in_front. cbn [String.eqb Ascii.eqb Bool.eqb orb existsb].
    rewrite Hc, Hm, Hd, He, Hr. reflexivity.
  - intros percent free memory_ free_gb Hd Hm Hdiv Hlow.
    unfold run, system_health_check.
    set (inner := try_except
                    (temps <~ psutil ("psutil" :: module_globals) (host_temps h) ;;
                     health_sensors render temps)
                    (fun _ => done tt)).
    unfold try_except at 1. unfold and_then at 1.
    assert (exists t0, inner (mk_trace [] [] []) = (inr tt, t0)) as [t0 Ht0].
    { unfold inner, try_except.
      destruct ((temps <~ psutil ("psutil" :: module_globals) (host_temps h) ;;
                 health_sensors render temps) (mk_trace [] [] []))
        as [[e|[]] t']; eexists; reflexivity. }
    rewrite Ht0.
    unfold psutil, global_name.
    rewrite !psutil_in_front. cbn [String.eqb Ascii.eqb Bool.eqb orb existsb].
    rewrite Hd, Hm. cbn [and_then done answer snd]. unfold truediv.
    rewrite Hdiv. cbn [and_then done]. rewrite Hlow.
    cbn [and_then log done].
    destruct (PyNum.gt memory_ (90#1)); cbn [log done snd logged];
      rewrite ?in_app_iff; cbn [In]; auto.
Qed.

(** X27, on a machine with 3 GB free and mail enabled. *)
Lemma psutil_is_not_bound_witness :
  mailed (run (send_daily_summary module_globals plain_render full_disk mail_on))
  = []
  /\ run (send_daily_summary ("psutil" :: module_globals) plain_render
                             full_disk mail_on)
     = mk_trace [(INFO, "Daily summary email sent")]
                [("ops@example.com", "Daily System Summary")] []
  /\ In (WARNING, "Low disk space: ? GB remaining")
        (logged (run (system_health_check ("psutil" :: module_globals)
                                          plain_render full_disk))).
Proof.
  pose proof (psutil_is_not_bound plain_render full_disk mail_on)
    as (H1 & _ & _ & H4 & H5).
  split; [rewrite H1; reflexivity|]. split.
  - exact (H4 (97#1) (40#1) (98#1, 3 * 1024 ^ 3) "ops@example.com"
              eq_refl eq_refl eq_refl eq_refl eq_refl).
  - assert (PyNum.int_truediv (3 * 1024 ^ 3) (1024 ^ 3)
            = Some (PyNum.Finite (3#1))) as Hdiv by (vm_compute; reflexivity).
    exact (H5 (98#1) (3 * 1024 ^ 3) (40#1) (PyNum.Finite (3#1))
              eq_refl eq_refl Hdiv eq_refl).
Defined.

End SchedulerExtra.
